(** * claude-priors: the initializer and the status reporter

    A shallow embedding of [bin/cli.js] (the Node command-line entry point)
    and of [install.sh] (the shell installer), and the properties of the
    scaffold they write.

    Conventions of the embedding.
    - A JavaScript string is the list of its UTF-16 code units, each a
      number [N].  File contents are text: a file is assumed to hold valid
      UTF-8, so that reading it with the ['utf8'] encoding and writing it
      back are inverse to each other, and the shell script sees the same
      characters as the Node program.
    - A path is the list of its components, the deepest one first:
      [path.join(cwd, '.claude', 'priors')] is
      ["priors" :: ".claude" :: cwd], the parent directory is the tail and
      the root is the empty list.
    - The filesystem is a finite map from paths to nodes (a directory, or
      a regular file with its content).  Permissions, links, quotas and
      other processes are not modelled: the only faults are those the shape
      of the tree produces (a missing parent, a directory where a file is
      expected, a file where a directory is expected).
    - JavaScript numbers that hold counts are natural numbers; JavaScript
      agrees with that model while the values stay below 2^53. *)

From Stdlib Require Import String Ascii NArith DecimalString.
From stdpp Require Import gmap list.

Local Open Scope N_scope.

(** ** Strings *)

Abbreviation jsstring := (list N).

(** Code units of a literal, from its UTF-8 bytes. *)
Fixpoint utf8_decode (bs : list N) : jsstring :=
  match bs with
  | [] => []
  | b :: r =>
      if b <? 128 then b :: utf8_decode r
      else if b <? 224 then
        match r with
        | c :: r' => ((b - 192) * 64 + (c - 128)) :: utf8_decode r'
        | [] => [65533]
        end
      else if b <? 240 then
        match r with
        | c :: d :: r' =>
            ((b - 224) * 4096 + (c - 128) * 64 + (d - 128)) :: utf8_decode r'
        | _ => [65533]
        end
      else
        match r with
        | c :: d :: e :: r' =>
            let cp := (b - 240) * 262144 + (c - 128) * 4096
                      + (d - 128) * 64 + (e - 128) - 65536 in
            (55296 + cp / 1024) :: (56320 + cp mod 1024) :: utf8_decode r'
        | _ => [65533]
        end
  end.

Definition lit (s : string) : jsstring :=
  utf8_decode (map N_of_ascii (list_ascii_of_string s)).

Definition NL : N := 10.

(** ECMAScript [LineTerminator]: what [.] refuses to match. *)
Definition is_line_terminator (c : N) : bool :=
  (c =? 10) || (c =? 13) || (c =? 8232) || (c =? 8233).

(** ECMAScript [WhiteSpace] and [LineTerminator]: the class [\s], and what
    [trim], [trimStart] and [trimEnd] remove. *)
Definition is_space (c : N) : bool :=
  (c =? 9) || (c =? 10) || (c =? 11) || (c =? 12) || (c =? 13) || (c =? 32)
  || (c =? 160) || (c =? 5760) || ((8192 <=? c) && (c <=? 8202))
  || (c =? 8232) || (c =? 8233) || (c =? 8239) || (c =? 8287)
  || (c =? 12288) || (c =? 65279).

(** The class [\d]. *)
Definition is_digit (c : N) : bool := (48 <=? c) && (c <=? 57).

Definition not_line_terminator (c : N) : bool := negb (is_line_terminator c).
Definition any_char (c : N) : bool := true.

Fixpoint trimStart (s : jsstring) : jsstring :=
  match s with
  | [] => []
  | c :: r => if is_space c then trimStart r else s
  end.

Fixpoint trimEnd (s : jsstring) : jsstring :=
  match s with
  | [] => []
  | c :: r =>
      match trimEnd r with
      | [] => if is_space c then [] else [c]
      | r' => c :: r'
      end
  end.

Definition trim (s : jsstring) : jsstring := trimEnd (trimStart s).

(** [s.startsWith(p)] *)
Fixpoint startsWith (s p : jsstring) {struct p} : bool :=
  match p, s with
  | [], _ => true
  | a :: p', b :: s' => (a =? b) && startsWith s' p'
  | _ :: _, [] => false
  end.

(** [s.includes(needle)] *)
Fixpoint includes (s needle : jsstring) : bool :=
  startsWith s needle ||
  match s with
  | [] => false
  | _ :: r => includes r needle
  end.

(** [s.endsWith(suffix)] *)
Definition endsWith (s suffix : jsstring) : bool :=
  startsWith (rev s) (rev suffix).

(** [s.replace(pat, rep)] with a string pattern: the first occurrence only.
    (The replacements used by the program contain no [$].) *)
Fixpoint replace (s pat rep : jsstring) : jsstring :=
  if startsWith s pat then rep ++ drop (length pat) s
  else match s with
       | [] => []
       | c :: r => c :: replace r pat rep
       end.


(** [parseInt] on a run of decimal digits: the number the digits spell.
    JavaScript returns that number up to [MAX_SAFE_INTEGER], and the nearest
    double beyond. *)
Definition parseInt (s : jsstring) : N :=
  fold_left (fun acc c => 10 * acc + (c - 48)) s 0.

(** A count inside a template literal. *)
Definition show_N (n : N) : jsstring :=
  lit (NilZero.string_of_uint (N.to_uint n)).

(** ** Regular expressions

    The fragment of the regular expressions the program uses: a sequence of
    literals and of quantified character classes, some of them capturing,
    matched by backtracking, the alternatives of a quantifier tried in its
    order of preference (longest first when greedy, shortest first when
    lazy). *)

Inductive atom :=
  | Chars (s : jsstring)           (* a literal *)
  | Star (cls : N → bool)          (* cls*  *)
  | StarLazy (cls : N → bool)      (* cls*? *)
  | Plus (cls : N → bool).         (* cls+  *)

(** An atom and whether it is a capture group. *)
Definition regex := list (atom * bool).

Fixpoint run_length (cls : N → bool) (s : jsstring) : nat :=
  match s with
  | c :: r => if cls c then S (run_length cls r) else O
  | [] => O
  end.

(** The lengths an atom may consume at the head of [s], preferred first. *)
Definition choices (a : atom) (s : jsstring) : list nat :=
  match a with
  | Chars l => if startsWith s l then [length l] else []
  | Star cls => rev (seq 0 (S (run_length cls s)))
  | StarLazy cls => seq 0 (S (run_length cls s))
  | Plus cls => rev (seq 1 (run_length cls s))
  end.

Fixpoint first_some {A} (f : nat → option A) (ks : list nat) : option A :=
  match ks with
  | [] => None
  | k :: ks' => match f k with Some x => Some x | None => first_some f ks' end
  end.

(** Match [r] at the head of [s]; the captures, in order. *)
Fixpoint match_here (r : regex) (s : jsstring) : option (list jsstring) :=
  match r with
  | [] => Some []
  | (a, cap) :: r' =>
      first_some
        (fun k =>
           match match_here r' (drop k s) with
           | Some caps => Some (if cap then take k s :: caps else caps)
           | None => None
           end)
        (choices a s)
  end.

(** [s.match(r)] for a pattern without anchor: the leftmost match. *)
Fixpoint search (r : regex) (s : jsstring) : option (list jsstring) :=
  match match_here r s with
  | Some caps => Some caps
  | None => match s with
            | [] => None
            | _ :: t => search r t
            end
  end.

(** The first capture group, [m[1]]. *)
Definition group1 (m : option (list jsstring)) : option jsstring :=
  match m with
  | Some (g :: _) => Some g
  | _ => None
  end.

(** ** The filesystem *)

Abbreviation path := (list (list N)).

Inductive node :=
  | File (content : jsstring)
  | Dir.

Abbreviation filesystem := (gmap (list (list N)) node).

Inductive fault :=
  | ENOENT (p : path)      (* no such file or directory *)
  | ENOTDIR (p : path)     (* a component of the path is not a directory *)
  | EISDIR (p : path)      (* a directory where a file is expected *)
  | EEXIST (p : path)      (* a file where a directory is to be made *)
  | TypeError.             (* [path.join] on [undefined] *)

(** What a run leaves behind besides the filesystem: the lines printed
    and the mutating calls made, in order. *)
Inductive event :=
  | Stdout (line : jsstring)
  | Stderr (line : jsstring)
  | Mkdir (p : path)
  | Write (p : path) (content : jsstring).

(** How a computation ends: with a value, by [process.exit(code)] (in
    the shell, [exit code]), or with an uncaught fault. *)
Inductive result (A : Type) :=
  | Ok (a : A)
  | Exit (code : N)
  | Throw (f : fault).
Arguments Ok {A} a.
Arguments Exit {A} code.
Arguments Throw {A} f.

Definition M (A : Type) : Type := filesystem → result A * filesystem * list event.

Definition ret {A} (a : A) : M A := fun s => (Ok a, s, []).

Definition bind {A B} (m : M A) (f : A → M B) : M B :=
  fun s =>
    match m s with
    | (Ok a, s1, o1) =>
        match f a s1 with (r, s2, o2) => (r, s2, o1 ++ o2) end
    | (Exit c, s1, o1) => (Exit c, s1, o1)
    | (Throw e, s1, o1) => (Throw e, s1, o1)
    end.

Notation "x <- m ;; f" := (bind m (fun x => f))
  (at level 100, m at next level, right associativity, only parsing).
Notation "m >> f" := (bind m (fun _ => f))
  (at level 100, f at level 200, right associativity, only parsing).

Definition throw {A} (e : fault) : M A := fun s => (Throw e, s, []).
Definition exit {A} (code : N) : M A := fun s => (Exit code, s, []).
Definition emit (e : event) : M unit := fun s => (Ok tt, s, [e]).

Definition result_of {A} (x : result A * filesystem * list event) : result A := x.1.1.
Definition fs_of {A} (x : result A * filesystem * list event) : filesystem := x.1.2.
Definition events_of {A} (x : result A * filesystem * list event) : list event := x.2.

Definition parent (p : path) : path := tail p.

Definition exists_at (s : filesystem) (p : path) : bool :=
  match s !! p with Some _ => true | None => false end.

Definition is_file (s : filesystem) (p : path) : bool :=
  match s !! p with Some (File _) => true | _ => false end.

Definition is_dir (s : filesystem) (p : path) : bool :=
  match s !! p with Some Dir => true | _ => false end.

(** Create [p] and its missing ancestors, outermost first; fails, before
    anything is created, when [p] or its nearest existing ancestor is a
    file. *)
Fixpoint mkdirp (p : path) (s : filesystem) : fault + filesystem :=
  match s !! p with
  | Some Dir => inr s
  | Some (File _) => inl (EEXIST p)
  | None =>
      match p with
      | [] => inr (<[p := Dir]> s)
      | _ :: q =>
          match mkdirp q s with
          | inr s1 => inr (<[p := Dir]> s1)
          | inl (EEXIST q') => inl (ENOTDIR q')
          | inl e => inl e
          end
      end
  end.

(** Open [p] for writing and replace its content. *)
Definition put_file (p : path) (c : jsstring) (s : filesystem) : fault + filesystem :=
  match s !! p with
  | Some Dir => inl (EISDIR p)
  | _ =>
      match p with
      | [] => inl (EISDIR p)
      | _ :: q =>
          match s !! q with
          | Some Dir => inr (<[p := File c]> s)
          | Some (File _) => inl (ENOTDIR p)
          | None => inl (ENOENT p)
          end
      end
  end.

(** The names in directory [p], in the order of the map. *)
Definition entries_of (p : path) (s : filesystem) : list jsstring :=
  omap (fun kv => match kv.1 with
                  | x :: q => if decide (q = p) then Some x else None
                  | [] => None
                  end) (map_to_list s).

(** *** The [fs] and [console] calls of Node *)

Module Fs.

Definition existsSync (p : path) : M bool := fun s => (Ok (exists_at s p), s, []).

(** [fs.mkdirSync(p, { recursive: true })] *)
Definition mkdirSync (p : path) : M unit :=
  fun s =>
    match mkdirp p s with
    | inr s1 => (Ok tt, s1, [Mkdir p])
    | inl e => (Throw e, s, [])
    end.

Definition writeFileSync (p : path) (c : jsstring) : M unit :=
  fun s =>
    match put_file p c s with
    | inr s1 => (Ok tt, s1, [Write p c])
    | inl e => (Throw e, s, [])
    end.

(** [fs.readFileSync(p, 'utf8')] *)
Definition readFileSync (p : path) : M jsstring :=
  fun s =>
    match s !! p with
    | Some (File c) => (Ok c, s, [])
    | Some Dir => (Throw (EISDIR p), s, [])
    | None => (Throw (ENOENT p), s, [])
    end.

Definition readdirSync (p : path) : M (list jsstring) :=
  fun s =>
    match s !! p with
    | Some Dir => (Ok (entries_of p s), s, [])
    | Some (File _) => (Throw (ENOTDIR p), s, [])
    | None => (Throw (ENOENT p), s, [])
    end.

End Fs.

Module Console.
Definition log (line : jsstring) : M unit := emit (Stdout line).
Definition error (line : jsstring) : M unit := emit (Stderr line).
End Console.

(** [path.join(base, c1, ..., cn)] *)
Definition path_join (base : path) (cs : list jsstring) : path := rev cs ++ base.

(** A path as text, for the messages. *)
Definition show_path (p : path) : jsstring :=
  match p with
  | [] => lit "/"
  | _ => concat (map (fun c => lit "/" ++ c) (rev p))
  end.

(** ** The Node entry point, [bin/cli.js] *)

Module Cli.

Definition PRIORS_MARKER : jsstring := lit "## Priors".
Definition VERSION : jsstring := lit "0.1.2".

(** What the program takes from its process: [process.cwd()], the
    directory of the script ([__dirname]) and the value of
    [process.env.HOME || process.env.USERPROFILE] ([None] when neither is
    set to a non-empty string). *)
Record process := {
  cwd : path;
  dirname : path;
  env_home : option path
}.

Section Program.

Variable proc : process.

Definition PKG_ROOT : path := parent (dirname proc).
Definition SKILL_SRC : path :=
  path_join (parent PKG_ROOT) [lit "skill"; lit "SKILL.md"].
Definition BOOTSTRAP_SRC : path :=
  path_join (parent PKG_ROOT) [lit "bootstrap"; lit "CLAUDE.md.snippet"].
Definition SKILL_SRC_ALT : path :=
  path_join PKG_ROOT [lit "skill"; lit "SKILL.md"].
Definition BOOTSTRAP_SRC_ALT : path :=
  path_join PKG_ROOT [lit "bootstrap"; lit "CLAUDE.md.snippet"].

Definition resolveAsset (primary fallback : path) : M (option path) :=
  a <- Fs.existsSync primary ;;
  if a then ret (Some primary)
  else
    b <- Fs.existsSync fallback ;;
    if b then ret (Some fallback) else ret None.

Definition readAsset (primary fallback : path) : M jsstring :=
  resolved <- resolveAsset primary fallback ;;
  match resolved with
  | None =>
      Console.error (lit "Error: Could not find asset. Looked in:" ++ [NL]
                     ++ lit "  " ++ show_path primary ++ [NL]
                     ++ lit "  " ++ show_path fallback) >>
      exit 1
  | Some r => Fs.readFileSync r
  end.

Definition printUsage : M unit :=
  Console.log ([NL] ++ lit "claude-priors v" ++ VERSION ++ lit " — Persistent agent memory for AI coding assistants

Usage:
  claude-priors init [options]    Bootstrap priors in current directory
  claude-priors status            Show priors stats
  claude-priors help              Show this help

Options:
  --global    Install skill to ~/.claude/skills/ instead of repo
  ").

Definition priorsDir : path := path_join (cwd proc) [lit ".claude"; lit "priors"].

(** [init], step 1: create [.claude/priors/]. *)
Definition init_priors : M unit :=
  ex <- Fs.existsSync priorsDir ;;
  if negb ex then
    Fs.mkdirSync priorsDir >>
    Fs.writeFileSync (path_join priorsDir [lit ".gitkeep"]) [] >>
    Console.log (lit "  Created .claude/priors/")
  else
    Console.log (lit "  .claude/priors/ already exists").

Definition skillDir (global : bool) : option path :=
  if global then
    match env_home proc with
    | Some h => Some (path_join h [lit ".claude"; lit "skills"; lit "knowledge-extraction"])
    | None => None
    end
  else Some (path_join (cwd proc) [lit ".claude"; lit "skills"; lit "knowledge-extraction"]).

(** [init], step 2: copy [SKILL.md]; first the part that writes the file,
    once its directory is there. *)
Definition copy_skill (global : bool) (skillDest : path) (skillContent : jsstring) : M unit :=
  ex <- Fs.existsSync skillDest ;;
  if negb ex then
    Fs.writeFileSync skillDest skillContent >>
    Console.log (lit "  Created "
                 ++ (if global then lit "~/.claude/skills" else lit ".claude/skills")
                 ++ lit "/knowledge-extraction/SKILL.md")
  else
    existing <- Fs.readFileSync skillDest ;;
    if decide (existing = skillContent) then
      Console.log (lit "  SKILL.md already up to date")
    else
      Fs.writeFileSync skillDest skillContent >>
      Console.log (lit "  Updated SKILL.md to v" ++ VERSION).

Definition init_skill (global : bool) (skillContent : jsstring) : M unit :=
  match skillDir global with
  | None => throw TypeError
  | Some dir =>
      ex <- Fs.existsSync dir ;;
      (if negb ex then Fs.mkdirSync dir else ret tt) >>
      copy_skill global (path_join dir [lit "SKILL.md"]) skillContent
  end.

Definition candidates : list jsstring := [lit "CLAUDE.md"; lit "AGENTS.md"].

(** The loop that detects which instruction file exists. *)
Fixpoint detect (cs : list jsstring) : M (option jsstring) :=
  match cs with
  | [] => ret None
  | candidate :: cs' =>
      ex <- Fs.existsSync (path_join (cwd proc) [candidate]) ;;
      if ex then ret (Some candidate) else detect cs'
  end.

(** [init], step 3: append the bootstrap to [CLAUDE.md] (or [AGENTS.md]). *)
Definition init_bootstrap (bootstrapContent : jsstring) : M unit :=
  found <- detect candidates ;;
  let instructionFile := match found with
                         | Some f => f
                         | None => lit "CLAUDE.md"
                         end in
  let instructionPath := path_join (cwd proc) [instructionFile] in
  ex <- Fs.existsSync instructionPath ;;
  if ex then
    existing <- Fs.readFileSync instructionPath ;;
    if includes existing PRIORS_MARKER then
      Console.log (lit "  " ++ instructionFile ++ lit " already has priors bootstrap")
    else
      Fs.writeFileSync instructionPath
        (trimEnd existing ++ [NL; NL] ++ trim bootstrapContent ++ [NL]) >>
      Console.log (lit "  Appended priors bootstrap to " ++ instructionFile)
  else
    Fs.writeFileSync instructionPath (trim bootstrapContent ++ [NL]) >>
    Console.log (lit "  Created " ++ instructionFile ++ lit " with priors bootstrap").

Definition init (args : list jsstring) : M unit :=
  let global := bool_decide (lit "--global" ∈ args) in
  Console.log ([NL] ++ lit "claude-priors v" ++ VERSION) >>
  Console.log (lit "Initializing in: " ++ show_path (cwd proc) ++ [NL]) >>
  init_priors >>
  skillContent <- readAsset SKILL_SRC SKILL_SRC_ALT ;;
  init_skill global skillContent >>
  bootstrapContent <- readAsset BOOTSTRAP_SRC BOOTSTRAP_SRC_ALT ;;
  init_bootstrap bootstrapContent >>
  Console.log ([NL] ++ lit "Done! Your agent will now learn from every conversation." ++ [NL]).

(** *** [status] *)

(** [/^---\n([\s\S]*?)\n---/]; the anchor is in [frontmatter] below. *)
Definition RE_FRONTMATTER : regex :=
  [(Chars (lit "---" ++ [NL]), false); (StarLazy any_char, true);
   (Chars ([NL] ++ lit "---"), false)].
(** [/topic:\s*(.+)/] *)
Definition RE_TOPIC : regex :=
  [(Chars (lit "topic:"), false); (Star is_space, false);
   (Plus not_line_terminator, true)].
(** [/summary:\s*(.+)/] *)
Definition RE_SUMMARY : regex :=
  [(Chars (lit "summary:"), false); (Star is_space, false);
   (Plus not_line_terminator, true)].
(** [/entries:\s*(\d+)/] *)
Definition RE_ENTRIES : regex :=
  [(Chars (lit "entries:"), false); (Star is_space, false);
   (Plus is_digit, true)].
(** [/last_updated:\s*(.+)/] *)
Definition RE_DATE : regex :=
  [(Chars (lit "last_updated:"), false); (Star is_space, false);
   (Plus not_line_terminator, true)].

(** [content.match(/^---\n([\s\S]*?)\n---/)]: the pattern starts with [^]
    and has no [m] flag, so it can only match at the start of the text. *)
Definition frontmatter (content : jsstring) : option jsstring :=
  group1 (match_here RE_FRONTMATTER content).

Record fields := {
  topic : jsstring;
  summary : jsstring;
  entries : N;
  lastUpdated : jsstring
}.

(** The body of the loop of [status] up to the printing: parse the
    frontmatter of [file], whose text is [content]. *)
Definition parse (file content : jsstring) : fields :=
  let topic0 := replace file (lit ".md") [] in
  match frontmatter content with
  | Some fm =>
      {| topic := match group1 (search RE_TOPIC fm) with
                  | Some t => trim t
                  | None => topic0
                  end;
         summary := match group1 (search RE_SUMMARY fm) with
                    | Some t => trim t
                    | None => []
                    end;
         entries := match group1 (search RE_ENTRIES fm) with
                    | Some d => parseInt d
                    | None => 0
                    end;
         lastUpdated := match group1 (search RE_DATE fm) with
                        | Some t => trim t
                        | None => []
                        end |}
  | None => {| topic := topic0; summary := []; entries := 0; lastUpdated := [] |}
  end.

(** [lastUpdated || 'unknown'] *)
Definition shown_date (f : fields) : jsstring :=
  match lastUpdated f with
  | [] => lit "unknown"
  | d => d
  end.

Definition file_line (f : fields) : jsstring :=
  lit "    Topic: " ++ topic f ++ lit " | Entries: " ++ show_N (entries f)
  ++ lit " | Updated: " ++ shown_date f.

(** The loop over the files, with the running [totalEntries]. *)
Fixpoint status_loop (files : list jsstring) (totalEntries : N) : M N :=
  match files with
  | [] => ret totalEntries
  | file :: files' =>
      content <- Fs.readFileSync (path_join priorsDir [file]) ;;
      let f := parse file content in
      Console.log (lit "  " ++ file) >>
      Console.log (file_line f) >>
      (match summary f with
       | [] => ret tt
       | sm => Console.log (lit "    " ++ sm)
       end) >>
      Console.log [] >>
      status_loop files' (totalEntries + entries f)
  end.

Definition total_line (nfiles : nat) (totalEntries : N) : jsstring :=
  lit "Total: " ++ show_N (N.of_nat nfiles) ++ lit " files, "
  ++ show_N totalEntries ++ lit " entries" ++ [NL].

Definition status : M unit :=
  ex <- Fs.existsSync priorsDir ;;
  if negb ex then
    Console.log (lit "No priors directory found. Run `claude-priors init` first.")
  else
    listing <- Fs.readdirSync priorsDir ;;
    let files := filter (fun f => endsWith f (lit ".md") = true) listing in
    match files with
    | [] =>
        Console.log (lit "Priors directory exists but is empty. The agent will start writing priors as it learns." ++ [NL])
    | _ =>
        Console.log ([NL] ++ lit "Priors: " ++ show_path priorsDir ++ [NL]) >>
        totalEntries <- status_loop files 0 ;;
        Console.log (total_line (length files) totalEntries)
    end.

(** *** The dispatch on [process.argv.slice(2)] *)

Definition is_help (command : jsstring) : bool :=
  bool_decide (command = lit "help") || bool_decide (command = lit "--help")
  || bool_decide (command = lit "-h").

Definition main (args : list jsstring) : M unit :=
  match args with
  | [] => printUsage
  | command :: rest =>
      if decide (command = lit "init") then init rest
      else if decide (command = lit "status") then status
      else if is_help command then printUsage
      else
        Console.error (lit "Unknown command: " ++ command) >>
        printUsage >>
        exit 1
  end.

End Program.

End Cli.

(** ** The shell installer, [install.sh] *)

Module InstallSh.

Definition VERSION : jsstring := lit "0.1.0".
Definition PRIORS_MARKER : jsstring := lit "## Priors".

(** The here-document written to [SKILL.md]. *)
Definition SKILL_MD : jsstring := lit "---
name: knowledge-extraction
description: Detailed instructions for the agent priors system — how to extract, format, store, consume, and manage priors files in .claude/priors/. Load this skill when you need to write new priors, reorganize existing priors, or understand the priors file format. The always-on bootstrap lives in CLAUDE.md; this skill provides the full reference.
---

# Knowledge Extraction — Priors System Reference

This skill is the detailed reference for the priors system. The always-on bootstrap in `CLAUDE.md` tells the agent to scan and use priors every session. This skill is loaded on demand when the agent needs to **write, format, or manage** priors.

## Skills vs Priors

- **Skills** (`.claude/skills/`) — Explicit, user-provided and user-maintained. **Never write agent-learned knowledge into these files.**
- **Priors** (`.claude/priors/`) — Implicit, agent-learned and agent-maintained. The agent's working memory persisted to disk.

## Agent Autonomy Over Priors

Priors are fully agent-managed. The agent has **unconditional permission** to create, edit, rewrite, merge, split, delete, and reorganize priors files and directory structure. No user confirmation needed. Optimize purely for agent utility: fast scanning, low token cost, high signal density.

## When to Extract

After completing a task, extract if the conversation contained:

1. **User correction** — User pointed out something wrong
2. **Unexpected discovery** — Something behaved differently than assumed
3. **Domain context the user provided** — System behavior, business logic, conventions not in code
4. **Multi-step debugging** — Root cause of a back-and-forth diagnosis
5. **Workaround or gotcha** — Non-obvious solution or edge case
6. **User-volunteered context** — User proactively provided info (strong non-derivable signal)

Do NOT extract when:
- Task completed smoothly on first attempt
- Knowledge already exists in skills or priors
- Insight is too one-time-specific to reuse

## Derivable vs Non-Derivable Context

- **Derivable** — Discoverable from codebase (schemas, file structure). Don't persist unless expensive to re-derive.
- **Non-derivable** — Exists only in user's head or external systems (timezone configs, business events, product behavior). Always persist.

When a user volunteers information unprompted, it's almost certainly non-derivable — they're telling you because they know you can't find it. Always capture it.

## Priors File Format

### Frontmatter (required)

Every priors file has YAML frontmatter for progressive disclosure — the agent scans frontmatter to decide relevance before loading the body.

```yaml
---
topic: <short topic name>
summary: <one-line description — used for relevance scanning without loading body>
entries: <count>
last_updated: <YYYY-MM-DD>
---
```

### Body

```markdown
# <Topic>

## <Section>

### <Fact title>
<!-- Learned: YYYY-MM-DD -->
<1-3 sentences: fact, consequence, correct approach. Max 5 lines.>
```

### Entry rules

- State the **fact**, not the discovery story
- Include **consequence** of getting it wrong
- Include the **correct approach**
- Max 5 lines per entry
- Code snippets only when they save more words than they cost
- Newest entries first within each section

## Where to Store

All priors: `<repo>/.claude/priors/`. Organize by **topic domain**:

```
.claude/priors/
├── data-analysis.md
├── schema.md
├── deployment.md
└── product.md
```

Decision tree:
1. `.claude/priors/` doesn't exist? Create it.
2. Relevant file exists? Append. If not, create with frontmatter.
3. Relevant `##` section exists? Append under it. If not, create one.
4. Update frontmatter (`entries`, `last_updated`) after every edit.

## Execution (Writing Priors)

1. Identify extractable lessons from conversation
2. Draft compact entries
3. Read target priors file (or create with frontmatter)
4. Append under appropriate section
5. Update frontmatter
6. Briefly confirm to user what was captured

Do this automatically at conversation end without being asked.

## Execution (Reading Priors)

1. List `.claude/priors/`
2. Read frontmatter only (first lines up to closing `---`)
3. Based on `topic` and `summary`, decide relevance to current task
4. Load full body only for relevant files

## Maintenance

Proactively maintain quality:
- **Merge** overlapping files
- **Split** files exceeding ~50 entries
- **Rewrite** verbose or unclear entries
- **Delete** outdated entries or entries now covered by explicit skills
- **Update frontmatter** after every change
".

Definition BOOTSTRAP_TEXT : jsstring := lit "
## Priors

This project uses agent priors (`.claude/priors/`) — persistent knowledge the agent accumulates across sessions.

**Start of every task:** List `.claude/priors/` and read each file's YAML frontmatter (`topic`, `summary`). Load full content only for files relevant to the current task.

**End of every conversation** where you were corrected, discovered something unexpected, or the user provided context you couldn't derive from code: load the `knowledge-extraction` skill from `.claude/skills/` and extract priors.".

(** *** The commands of the script

    The script runs under [set -e]: a command that fails outside the
    condition of an [if] ends the script with status 1. *)

Definition echo (line : jsstring) : M unit := emit (Stdout line).

(** [[ -d p ]] and [[ -f p ]] *)
Definition test_d (p : path) : M bool := fun s => (Ok (is_dir s p), s, []).
Definition test_f (p : path) : M bool := fun s => (Ok (is_file s p), s, []).

Definition mkdir_p (p : path) : M unit :=
  fun s =>
    match mkdirp p s with
    | inr s1 => (Ok tt, s1, [Mkdir p])
    | inl _ => (Exit 1, s, [Stderr (lit "mkdir: cannot create directory")])
    end.

(** [touch p]: an existing node keeps its content. *)
Definition touch (p : path) : M unit :=
  fun s =>
    match s !! p with
    | Some _ => (Ok tt, s, [])
    | None =>
        match put_file p [] s with
        | inr s1 => (Ok tt, s1, [Write p []])
        | inl _ => (Exit 1, s, [Stderr (lit "touch: cannot touch")])
        end
    end.

(** [cmd > p], the command printing [text]. *)
Definition write_to (p : path) (text : jsstring) : M unit :=
  fun s =>
    match put_file p text s with
    | inr s1 => (Ok tt, s1, [Write p text])
    | inl _ => (Exit 1, s, [Stderr (lit "cannot create file")])
    end.

(** [cmd >> p], the command printing [text]. *)
Definition append_to (p : path) (text : jsstring) : M unit :=
  fun s =>
    let old := match s !! p with Some (File c) => c | _ => [] end in
    match put_file p (old ++ text) s with
    | inr s1 => (Ok tt, s1, [Write p (old ++ text)])
    | inl _ => (Exit 1, s, [Stderr (lit "cannot create file")])
    end.

(** A basic regular expression without brackets, stars, anchors or
    backslashes: [.] stands for any character of the line, every other
    character for itself. *)
Fixpoint bre_here (pat s : jsstring) {struct pat} : bool :=
  match pat, s with
  | [], _ => true
  | a :: pat', b :: s' =>
      (if a =? 46 then negb (b =? NL) else a =? b) && bre_here pat' s'
  | _ :: _, [] => false
  end.

Fixpoint bre_search (pat s : jsstring) : bool :=
  bre_here pat s ||
  match s with
  | [] => false
  | _ :: r => bre_search pat r
  end.

(** [grep -q pat p 2>/dev/null] as the condition of an [if]: whether a
    line of the file matches.  The patterns of the script contain no
    newline and [.] matches none, so that a match never spans two lines
    and the search can run over the whole text. *)
Definition grep_q (pat : jsstring) (p : path) : M bool :=
  fun s =>
    match s !! p with
    | Some (File c) => (Ok (bre_search pat c), s, [])
    | _ => (Ok false, s, [])
    end.

Section Script.

(** The working directory of the shell. *)
Variable cwd : path.

Definition usage : M unit :=
  echo (lit "claude-priors v" ++ VERSION ++ lit " — Persistent agent memory for AI coding assistants") >>
  echo [] >>
  echo (lit "Usage: curl -fsSL https://raw.githubusercontent.com/<org>/claude-priors/main/install.sh | sh") >>
  echo (lit "   or: ./install.sh [--shared]") >>
  echo [] >>
  echo (lit "Options:") >>
  echo (lit "  --shared    Git-track priors (default: git-ignored)").

(** The loop over the arguments; the value is [SHARED]. *)
Fixpoint parse_args (args : list jsstring) (shared : bool) : M bool :=
  match args with
  | [] => ret shared
  | arg :: args' =>
      if decide (arg = lit "--shared") then parse_args args' true
      else if bool_decide (arg = lit "--help") || bool_decide (arg = lit "-h")
      then usage >> exit 0
      else parse_args args' shared
  end.

Definition priorsDir : path := path_join cwd [lit ".claude"; lit "priors"].
Definition SKILL_DIR : path :=
  path_join cwd [lit ".claude"; lit "skills"; lit "knowledge-extraction"].
Definition gitignore : path := path_join cwd [lit ".gitignore"].

(** Step 1: create [.claude/priors/]. *)
Definition step_priors : M unit :=
  d <- test_d priorsDir ;;
  if negb d then
    mkdir_p priorsDir >>
    touch (path_join priorsDir [lit ".gitkeep"]) >>
    echo (lit "  Created .claude/priors/")
  else
    echo (lit "  .claude/priors/ already exists").

(** Step 2: create [SKILL.md]. *)
Definition step_skill : M unit :=
  mkdir_p SKILL_DIR >>
  f <- test_f (path_join SKILL_DIR [lit "SKILL.md"]) ;;
  if negb f then
    write_to (path_join SKILL_DIR [lit "SKILL.md"]) SKILL_MD >>
    echo (lit "  Created .claude/skills/knowledge-extraction/SKILL.md")
  else
    echo (lit "  SKILL.md already exists").

Definition INSTRUCTION_FILE : M jsstring :=
  c <- test_f (path_join cwd [lit "CLAUDE.md"]) ;;
  if c then ret (lit "CLAUDE.md")
  else
    a <- test_f (path_join cwd [lit "AGENTS.md"]) ;;
    if a then ret (lit "AGENTS.md") else ret (lit "CLAUDE.md").

(** Step 3: append the bootstrap to [CLAUDE.md] or [AGENTS.md]. *)
Definition step_bootstrap : M unit :=
  file <- INSTRUCTION_FILE ;;
  let p := path_join cwd [file] in
  f <- test_f p ;;
  if f then
    g <- grep_q PRIORS_MARKER p ;;
    if g then echo (lit "  " ++ file ++ lit " already has priors bootstrap")
    else
      append_to p ([NL] ++ BOOTSTRAP_TEXT ++ [NL]) >>
      echo (lit "  Appended priors bootstrap to " ++ file)
  else
    write_to p (BOOTSTRAP_TEXT ++ [NL]) >>
    echo (lit "  Created " ++ file ++ lit " with priors bootstrap").

Definition ignore_rule : jsstring :=
  lit "# Agent priors (local knowledge)" ++ [NL] ++ lit ".claude/priors/" ++ [NL].

(** Step 4: handle [.gitignore]. *)
Definition step_gitignore (shared : bool) : M unit :=
  if negb shared then
    f <- test_f gitignore ;;
    if f then
      g <- grep_q (lit ".claude/priors/") gitignore ;;
      if g then echo (lit "  .gitignore already excludes priors")
      else
        append_to gitignore ([NL] ++ ignore_rule) >>
        echo (lit "  Added .claude/priors/ to .gitignore")
    else
      write_to gitignore ignore_rule >>
      echo (lit "  Created .gitignore with priors exclusion")
  else
    echo (lit "  --shared: priors will be git-tracked").

Definition install (args : list jsstring) : M unit :=
  shared <- parse_args args false ;;
  echo [] >>
  echo (lit "claude-priors v" ++ VERSION) >>
  echo (lit "Initializing in: " ++ show_path cwd) >>
  echo [] >>
  step_priors >>
  step_skill >>
  step_bootstrap >>
  step_gitignore shared >>
  echo [] >>
  echo (lit "Done! Your agent will now learn from every conversation.") >>
  echo [].

End Script.

End InstallSh.

(** ** Vocabulary of the statements *)

(** A filesystem is a tree: the root is a directory and whatever exists
    lies in a directory. *)
Definition well_formed (s : filesystem) : Prop :=
  s !! ([] : path) = Some Dir ∧
  ∀ (x : jsstring) (p : path), is_Some (s !! (x :: p)) → s !! p = Some Dir.

(** The same, as a test that runs. *)
Definition well_formedb (s : filesystem) : bool :=
  is_dir s [] &&
  forallb (fun kv => match kv.1 with
                     | [] => true
                     | _ :: p => is_dir s p
                     end) (map_to_list s).

(** [t] comes from [s] by creating directories where nothing was and by
    creating or rewriting regular files at the paths of [T]. *)
Definition evolves (T : list path) (s t : filesystem) : Prop :=
  ∀ q : path,
    t !! q = s !! q
    ∨ (s !! q = None ∧ t !! q = Some Dir)
    ∨ (q ∈ T ∧ s !! q ≠ Some Dir ∧ ∃ c, t !! q = Some (File c)).

(** No event of [o] writes to [p]. *)
Definition no_write_to (p : path) (o : list event) : Prop :=
  ∀ c, Write p c ∉ o.

(** No event of [o] changes the filesystem. *)
Definition read_only (o : list event) : Prop :=
  ∀ e, e ∈ o → match e with Stdout _ | Stderr _ => True | _ => False end.

(** The instruction file [init] settles on in the filesystem [s]: the first
    candidate that exists, [CLAUDE.md] when none does. *)
Definition instructionFile (proc : Cli.process) (s : filesystem) : jsstring :=
  if exists_at s (path_join (Cli.cwd proc) [lit "CLAUDE.md"]) then lit "CLAUDE.md"
  else if exists_at s (path_join (Cli.cwd proc) [lit "AGENTS.md"]) then lit "AGENTS.md"
  else lit "CLAUDE.md".

(** The same for the shell script, which looks for regular files. *)
Definition sh_instructionFile (cwd : path) (s : filesystem) : jsstring :=
  if is_file s (path_join cwd [lit "CLAUDE.md"]) then lit "CLAUDE.md"
  else if is_file s (path_join cwd [lit "AGENTS.md"]) then lit "AGENTS.md"
  else lit "CLAUDE.md".

(** What looking up a bundled asset yields in [s]: the content of the first
    candidate that exists. *)
Definition asset_at (s : filesystem) (primary fallback : path) : result jsstring :=
  match s !! primary with
  | Some (File c) => Ok c
  | Some Dir => Throw (EISDIR primary)
  | None =>
      match s !! fallback with
      | Some (File c) => Ok c
      | Some Dir => Throw (EISDIR fallback)
      | None => Exit 1
      end
  end.

(** The diagnostic of [readAsset]. *)
Definition asset_diagnostic (primary fallback : path) : jsstring :=
  lit "Error: Could not find asset. Looked in:" ++ [NL]
  ++ lit "  " ++ show_path primary ++ [NL]
  ++ lit "  " ++ show_path fallback.

(** A computation that stops with the failure of one of its parts. *)
Definition same_failure {A B} (r : result A) (r' : result B) : Prop :=
  match r, r' with
  | Exit c, Exit c' => c = c'
  | Throw e, Throw e' => e = e'
  | _, _ => False
  end.

(** What [readAsset] prints. *)
Definition asset_events (s : filesystem) (primary fallback : path) : list event :=
  match asset_at s primary fallback with
  | Exit _ => [Stderr (asset_diagnostic primary fallback)]
  | _ => []
  end.

(** The first and the last lines of [init]. *)
Definition init_header (proc : Cli.process) : list event :=
  [Stdout ([NL] ++ lit "claude-priors v" ++ Cli.VERSION);
   Stdout (lit "Initializing in: " ++ show_path (Cli.cwd proc) ++ [NL])].
Definition init_footer : list event :=
  [Stdout ([NL] ++ lit "Done! Your agent will now learn from every conversation." ++ [NL])].

(** Where [init] puts the reference document. *)
Definition skillDest (proc : Cli.process) (global : bool) : option path :=
  match Cli.skillDir proc global with
  | Some dir => Some (path_join dir [lit "SKILL.md"])
  | None => None
  end.

(** The files the first two steps of [init] may write. *)
Definition early_targets (proc : Cli.process) (global : bool) : list path :=
  path_join (Cli.priorsDir proc) [lit ".gitkeep"]
  :: match skillDest proc global with
     | Some d => [d]
     | None => []
     end.

(** The first and the last lines of the shell script. *)
Definition install_header (cwd : path) : list event :=
  [Stdout []; Stdout (lit "claude-priors v" ++ InstallSh.VERSION);
   Stdout (lit "Initializing in: " ++ show_path cwd); Stdout []].
Definition install_footer : list event :=
  [Stdout []; Stdout (lit "Done! Your agent will now learn from every conversation.");
   Stdout []].

(** [t] is [s] except, possibly, at the paths of [A]. *)
Definition same_outside (A : path → Prop) (s t : filesystem) : Prop :=
  ∀ q : path, ¬ A q → t !! q = s !! q.

(** What the steps of [init] after the first may change. *)
Definition late_touched (proc : Cli.process) (global : bool) (q : path) : Prop :=
  (∃ dir, Cli.skillDir proc global = Some dir
          ∧ (q `suffix_of` dir ∨ q = path_join dir [lit "SKILL.md"]))
  ∨ q = path_join (Cli.cwd proc) [lit "CLAUDE.md"]
  ∨ q = path_join (Cli.cwd proc) [lit "AGENTS.md"].

(** What the steps of the shell script after the first may change. *)
Definition sh_late_touched (cwd : path) (q : path) : Prop :=
  q `suffix_of` InstallSh.SKILL_DIR cwd
  ∨ q = path_join (InstallSh.SKILL_DIR cwd) [lit "SKILL.md"]
  ∨ q = path_join cwd [lit "CLAUDE.md"]
  ∨ q = path_join cwd [lit "AGENTS.md"]
  ∨ q = InstallSh.gitignore cwd.

(** *** The report *)

(** [s.indexOf(needle)] *)
Fixpoint index_of (s needle : jsstring) : option nat :=
  if startsWith s needle then Some O
  else match s with
       | [] => None
       | _ :: r => match index_of r needle with
                   | Some i => Some (S i)
                   | None => None
                   end
       end.

(** The text of a regular file, empty for anything else. *)
Definition content_at (s : filesystem) (p : path) : jsstring :=
  match s !! p with
  | Some (File c) => c
  | _ => []
  end.

(** The files [status] reports on. *)
Definition md_files (proc : Cli.process) (s : filesystem) : list jsstring :=
  filter (fun f => endsWith f (lit ".md") = true) (entries_of (Cli.priorsDir proc) s).

(** What [status] extracts from a file of the knowledge directory. *)
Definition fields_of (proc : Cli.process) (s : filesystem) (file : jsstring) : Cli.fields :=
  Cli.parse file (content_at s (path_join (Cli.priorsDir proc) [file])).

(** What [status] prints for a file. *)
Definition file_events (file : jsstring) (f : Cli.fields) : list event :=
  [Stdout (lit "  " ++ file); Stdout (Cli.file_line f)]
  ++ match Cli.summary f with
     | [] => []
     | sm => [Stdout (lit "    " ++ sm)]
     end
  ++ [Stdout []].

Definition sum_entries (proc : Cli.process) (s : filesystem) (files : list jsstring) : N :=
  fold_right (fun file acc => Cli.entries (fields_of proc s file) + acc) 0 files.



(** The lines of a text. *)
Fixpoint lines (s : jsstring) : list jsstring :=
  match s with
  | [] => [[]]
  | c :: r =>
      if c =? NL then [] :: lines r
      else match lines r with
           | l :: ls => (c :: l) :: ls
           | [] => [[c]]
           end
  end.

(** The metadata block as the specification words it: a first line of three
    hyphens only, and a later line of three hyphens only. *)
Definition spec_metadata_block (content : jsstring) : bool :=
  match lines content with
  | l0 :: rest =>
      bool_decide (l0 = lit "---") && existsb (fun l => bool_decide (l = lit "---")) rest
  | [] => false
  end.

(** *** The exit status *)

(** The status the process ends with: 0 when [main] returns, the argument
    of [process.exit] when it is called.  Nothing in the program catches a
    fault of a filesystem call; Node ends a process on an uncaught
    exception with status 1. *)
Definition exit_status (r : result unit) : N :=
  match r with
  | Ok _ => 0
  | Exit code => code
  | Throw _ => 1
  end.

Definition recognized (command : jsstring) : bool :=
  bool_decide (command = lit "init") || bool_decide (command = lit "status")
  || Cli.is_help command.

(** The first argument is not a command of the program. *)
Definition unknown_command (args : list jsstring) : Prop :=
  match args with
  | command :: _ => recognized command = false
  | [] => False
  end.

(** No candidate location of a bundled asset exists in [s]. *)
Definition unlocated (s : filesystem) (primary fallback : path) : Prop :=
  s !! primary = None ∧ s !! fallback = None.

(** *** Sample data *)

(** An absolute path, from its components, outermost first. *)
Definition abs (cs : list string) : path := rev (map lit cs).

(** A checkout of the repository under [/opt/claude-priors] and a project
    under [/home/dev/project]. *)
Definition demo_proc : Cli.process :=
  {| Cli.cwd := abs ["home"; "dev"; "project"]%string;
     Cli.dirname := abs ["opt"; "claude-priors"; "node"; "bin"]%string;
     Cli.env_home := Some (abs ["home"; "dev"]%string) |}.

(** A bundled fragment with the text of the copy in the shell script. *)
Definition demo_snippet : jsstring := drop 1 InstallSh.BOOTSTRAP_TEXT ++ [NL].

Definition demo_base : filesystem :=
  list_to_map
    [ ([], Dir);
      (abs ["opt"]%string, Dir);
      (abs ["opt"; "claude-priors"]%string, Dir);
      (abs ["opt"; "claude-priors"; "node"]%string, Dir);
      (abs ["opt"; "claude-priors"; "node"; "bin"]%string, Dir);
      (abs ["opt"; "claude-priors"; "skill"]%string, Dir);
      (abs ["opt"; "claude-priors"; "skill"; "SKILL.md"]%string, File InstallSh.SKILL_MD);
      (abs ["opt"; "claude-priors"; "bootstrap"]%string, Dir);
      (abs ["opt"; "claude-priors"; "bootstrap"; "CLAUDE.md.snippet"]%string,
       File demo_snippet);
      (abs ["home"]%string, Dir);
      (abs ["home"; "dev"]%string, Dir);
      (abs ["home"; "dev"; "project"]%string, Dir) ].

Definition demo_claude : path := abs ["home"; "dev"; "project"; "CLAUDE.md"]%string.
Definition demo_skill_dest : path :=
  abs ["home"; "dev"; "project"; ".claude"; "skills"; "knowledge-extraction"; "SKILL.md"]%string.
Definition demo_priors : path := abs ["home"; "dev"; "project"; ".claude"; "priors"]%string.

(** The project with an instruction file that has a heading [### Priors]. *)
Definition demo_heading_text : jsstring := lit "# Project

### Priors and posteriors
Notes on the Bayesian model.
".
Definition demo_heading : filesystem := <[demo_claude := File demo_heading_text]> demo_base.

(** The project with an instruction file that ends with a newline and has
    no marker. *)
Definition demo_notes_text : jsstring := lit "# Project notes
".
Definition demo_notes : filesystem := <[demo_claude := File demo_notes_text]> demo_base.

(** The project with an instruction file without trailing blank. *)
Definition demo_tight_text : jsstring := lit "# Project notes".
Definition demo_tight : filesystem := <[demo_claude := File demo_tight_text]> demo_base.

(** The project with an older reference document in place. *)
Definition demo_old_text : jsstring := lit "# Knowledge Extraction (old)
".
Definition demo_old_skill : filesystem :=
  <[demo_skill_dest := File demo_old_text]>
    (<[abs ["home"; "dev"; "project"; ".claude"; "skills"; "knowledge-extraction"]%string := Dir]>
       (<[abs ["home"; "dev"; "project"; ".claude"; "skills"]%string := Dir]>
          (<[abs ["home"; "dev"; "project"; ".claude"]%string := Dir]> demo_base))).

(** The project with the current reference document in place. *)
Definition demo_current_skill : filesystem :=
  <[demo_skill_dest := File InstallSh.SKILL_MD]> demo_old_skill.

(** The project with two knowledge files. *)
Definition demo_data_block : jsstring := lit "---
topic: analytics
summary: test data
entries: 3
last_updated: 2024-01-01
---".
Definition demo_data_text : jsstring := demo_data_block ++ lit "

# Analytics
".
Definition demo_schema_text : jsstring := lit "---
topic: schema
entries: 5
---
# Schema
".
Definition demo_status : filesystem :=
  <[lit "schema.md" :: demo_priors := File demo_schema_text]>
    (<[lit "data.md" :: demo_priors := File demo_data_text]>
       (<[demo_priors := Dir]>
          (<[abs ["home"; "dev"; "project"; ".claude"]%string := Dir]> demo_base))).

(** A knowledge file whose opening [---] is followed, later, by a line that
    starts with three hyphens and goes on. *)
Definition demo_loose_text : jsstring := lit "---
topic: x
---- not a delimiter
".

(** A knowledge file without metadata block. *)
Definition demo_plain_text : jsstring := lit "# Notes
no metadata here
".
Definition demo_plain : filesystem :=
  <[lit "notes.md" :: demo_priors := File demo_plain_text]>
    (<[demo_priors := Dir]>
       (<[abs ["home"; "dev"; "project"; ".claude"]%string := Dir]> demo_base)).

(** The knowledge directory's place taken by a regular file. *)
Definition demo_blocked : filesystem :=
  <[demo_priors := File []]>
    (<[abs ["home"; "dev"; "project"; ".claude"]%string := Dir]> demo_base).

(** A project whose instructions are in [AGENTS.md]. *)
Definition demo_agents : filesystem :=
  <[path_join (Cli.cwd demo_proc) [lit "AGENTS.md"] := File demo_notes_text]> demo_base.

(** The same process with neither [HOME] nor [USERPROFILE] set. *)
Definition demo_homeless : Cli.process :=
  {| Cli.cwd := Cli.cwd demo_proc; Cli.dirname := Cli.dirname demo_proc;
     Cli.env_home := None |}.

(** A project on a machine where the package has no assets, and one where
    only the bootstrap fragment is missing. *)
Definition demo_bare : filesystem :=
  list_to_map
    [ ([], Dir);
      (abs ["home"]%string, Dir);
      (abs ["home"; "dev"]%string, Dir);
      (abs ["home"; "dev"; "project"]%string, Dir);
      (abs ["home"; "dev"; "project"; "CLAUDE.md"]%string, File demo_notes_text) ].
Definition demo_no_snippet : filesystem :=
  <[demo_claude := File demo_notes_text]>
    (delete (abs ["opt"; "claude-priors"; "bootstrap"; "CLAUDE.md.snippet"]%string) demo_base).

(** The package with an older reference document at the fallback location
    too. *)
Definition demo_two_assets : filesystem :=
  <[abs ["opt"; "claude-priors"; "node"; "skill"; "SKILL.md"]%string := File demo_old_text]>
    (<[abs ["opt"; "claude-priors"; "node"; "skill"]%string := Dir]> demo_base).

(** A knowledge directory with a subdirectory named like a knowledge file. *)
Definition demo_md_dir : filesystem :=
  <[lit "old.md" :: demo_priors := Dir]>
    (<[demo_priors := Dir]>
       (<[abs ["home"; "dev"; "project"; ".claude"]%string := Dir]> demo_base)).


(** What the script prints for [--help]. *)
Definition usage_lines : list event :=
  [Stdout (lit "claude-priors v" ++ InstallSh.VERSION
           ++ lit " — Persistent agent memory for AI coding assistants");
   Stdout [];
   Stdout (lit "Usage: curl -fsSL https://raw.githubusercontent.com/<org>/claude-priors/main/install.sh | sh");
   Stdout (lit "   or: ./install.sh [--shared]");
   Stdout [];
   Stdout (lit "Options:");
   Stdout (lit "  --shared    Git-track priors (default: git-ignored)")].

(** The project with a [.gitignore], and with one that mentions the
    knowledge directory in a comment. *)
Definition demo_ignore : filesystem :=
  <[InstallSh.gitignore (Cli.cwd demo_proc) := File (lit "node_modules/
")]> demo_base.
Definition demo_ignore_comment : filesystem :=
  <[InstallSh.gitignore (Cli.cwd demo_proc) := File (lit "# do not ignore .claude/priors/ here
")]> demo_base.

(** Every regular file of [s] is still one in [t], with the text it had at
    the start of its text; every directory of [s] is still one. *)
Definition only_appended (s t : filesystem) : Prop :=
  (∀ q c, s !! q = Some (File c) → ∃ c', t !! q = Some (File (c ++ c')))
  ∧ (∀ q, s !! q = Some Dir → t !! q = Some Dir).


(** * Properties *)

(** ** Strings *)

Lemma startsWith_spec (s p : jsstring) :
  startsWith s p = true ↔ ∃ r, s = p ++ r.
Proof.
  revert s. induction p as [|a p IH]; intros s; simpl.
  - split; [intros _; by exists s | done].
  - destruct s as [|b s].
    + split; [done | intros [r Hr]; discriminate].
    + rewrite andb_true_iff, N.eqb_eq, IH. split.
      * intros [-> [r ->]]. by exists r.
      * intros [r Hr]. injection Hr as -> ->. eauto.
Qed.

Lemma startsWith_app (p r : jsstring) : startsWith (p ++ r) p = true.
Proof. apply startsWith_spec. by exists r. Qed.

Lemma includes_spec (s n : jsstring) :
  includes s n = true ↔ ∃ a b, s = a ++ n ++ b.
Proof.
  induction s as [|c s IH]; simpl.
  - rewrite orb_false_r, startsWith_spec. split.
    + intros [r Hr]. by exists [], r.
    + intros (a & b & H). destruct a; [|discriminate].
      destruct n; [|discriminate]. by exists [].
  - rewrite orb_true_iff, startsWith_spec, IH. split.
    + intros [[r Hr] | (a & b & ->)].
      * by exists [], r.
      * by exists (c :: a), b.
    + intros (a & b & H). destruct a as [|c' a].
      * left. by exists b.
      * right. injection H as -> ->. by exists a, b.
Qed.

Lemma includes_app_l (a b n : jsstring) :
  includes a n = true → includes (a ++ b) n = true.
Proof.
  rewrite !includes_spec. intros (x & y & ->).
  exists x, (y ++ b). by rewrite <- !app_assoc.
Qed.

Lemma includes_app_r (a b n : jsstring) :
  includes b n = true → includes (a ++ b) n = true.
Proof.
  rewrite !includes_spec. intros (x & y & ->).
  exists (a ++ x), y. by rewrite <- !app_assoc.
Qed.

Lemma trimEnd_app (u v : jsstring) :
  trimEnd (u ++ v) = match trimEnd v with
                     | [] => trimEnd u
                     | _ => u ++ trimEnd v
                     end.
Proof.
  induction u as [|c u IH]; simpl.
  - by destruct (trimEnd v).
  - rewrite IH. destruct (trimEnd v) as [|d v'] eqn:Hv; [done|].
    by destruct (u ++ d :: v') eqn:Hu; [destruct u; discriminate|].
Qed.

Lemma trimEnd_nonspace_last (u : jsstring) (c : N) :
  is_space c = false → trimEnd (u ++ [c]) = u ++ [c].
Proof. intros Hc. rewrite trimEnd_app. simpl. by rewrite Hc. Qed.

(** Trimming keeps an occurrence of a word that neither starts nor ends
    with a space. *)
Lemma includes_trimStart (s n : jsstring) (c : N) :
  is_space c = false → includes s (c :: n) = true →
  includes (trimStart s) (c :: n) = true.
Proof.
  intros Hc. induction s as [|d s IH]; [done|].
  intros H. simpl. destruct (is_space d) eqn:Hd; [|done].
  apply IH. simpl in H. apply orb_true_iff in H as [H|H]; [|done].
  apply andb_true_iff in H as [H _]. apply N.eqb_eq in H. congruence.
Qed.

Lemma includes_trimEnd (s n : jsstring) (c : N) :
  is_space c = false → includes s (n ++ [c]) = true →
  includes (trimEnd s) (n ++ [c]) = true.
Proof.
  intros Hc. rewrite !includes_spec. intros (a & b & ->).
  rewrite trimEnd_app. destruct (trimEnd ((n ++ [c]) ++ b)) eqn:Hb.
  - rewrite trimEnd_app in Hb. destruct (trimEnd b).
    + rewrite trimEnd_nonspace_last in Hb by done. by destruct n.
    + by destruct n.
  - rewrite <- Hb. rewrite trimEnd_app. destruct (trimEnd b) as [|e b'].
    + rewrite trimEnd_nonspace_last by done. exists a, []. by rewrite app_nil_r.
    + by exists a, (e :: b').
Qed.

(** ** The filesystem *)

Lemma evolves_refl (T : list path) (s : filesystem) : evolves T s s.
Proof. intros q. by left. Qed.

Lemma evolves_trans (T : list path) (s t u : filesystem) :
  evolves T s t → evolves T t u → evolves T s u.
Proof.
  intros H1 H2 q.
  destruct (H1 q) as [E1 | [[E1 E1'] | (E1 & E1' & c & E1'')]];
    destruct (H2 q) as [E2 | [[E2 E2'] | (E2 & E2' & d & E2'')]].
  - left. congruence.
  - right; left. split; congruence.
  - right; right. split_and!; [done | congruence | eauto].
  - right; left. split; congruence.
  - congruence.
  - congruence.
  - right; right. split_and!; [done.. | exists c; congruence].
  - congruence.
  - right; right. split_and!; [done.. | eauto].
Qed.

Lemma evolves_weaken (T T' : list path) (s t : filesystem) :
  T ⊆ T' → evolves T s t → evolves T' s t.
Proof.
  intros HT H q. destruct (H q) as [E | [E | (E & E' & E'')]];
    [by left | by right; left | right; right; split_and!; auto].
Qed.

(** What exists keeps existing, with its kind. *)
Lemma evolves_exists (T : list path) (s t : filesystem) (q : path) :
  evolves T s t → is_Some (s !! q) → is_Some (t !! q).
Proof.
  intros H [n Hn]. destruct (H q) as [E | [[E _] | (_ & _ & c & E)]].
  - rewrite E. eauto.
  - congruence.
  - eauto.
Qed.

Lemma evolves_dir (T : list path) (s t : filesystem) (q : path) :
  evolves T s t → s !! q = Some Dir → t !! q = Some Dir.
Proof.
  intros H Hq. destruct (H q) as [E | [[E _] | (_ & E & _)]]; congruence.
Qed.

(** Outside [T] a node is as before, or a directory made where nothing was. *)
Lemma evolves_outside (T : list path) (s t : filesystem) (q : path) :
  evolves T s t → q ∉ T →
  t !! q = s !! q ∨ (s !! q = None ∧ t !! q = Some Dir).
Proof. intros H Hq. destruct (H q) as [E | [E | (E & _)]]; auto. done. Qed.

Lemma evolves_file_outside (T : list path) (s t : filesystem) (q : path) c :
  evolves T s t → q ∉ T → s !! q = Some (File c) → t !! q = Some (File c).
Proof.
  intros H Hq Hs. destruct (evolves_outside T s t q H Hq) as [E | [E _]]; congruence.
Qed.

Lemma evolves_file_back (T : list path) (s t : filesystem) (q : path) c :
  evolves T s t → q ∉ T → t !! q = Some (File c) → s !! q = Some (File c).
Proof.
  intros H Hq Hs. destruct (evolves_outside T s t q H Hq) as [E | [_ E]]; congruence.
Qed.

Lemma evolves_none_back (T : list path) (s t : filesystem) (q : path) :
  evolves T s t → t !! q = None → s !! q = None.
Proof.
  intros H Hq. destruct (H q) as [E | [[_ E] | (_ & _ & c & E)]]; congruence.
Qed.

Lemma mkdirp_spec (p : path) (s s' : filesystem) :
  mkdirp p s = inr s' →
  s' !! p = Some Dir ∧
  ∀ q : path, s' !! q = s !! q
              ∨ (s !! q = None ∧ s' !! q = Some Dir ∧ q `suffix_of` p).
Proof.
  revert s'. induction p as [|x p IH]; intros s'; simpl.
  - destruct (s !! ([] : path)) as [[c|]|] eqn:Hp; intros [= <-].
    + split; [done | by left].
    + split; [apply lookup_insert_eq|].
      intros q. destruct (decide (q = [])) as [->|Hq].
      * right. rewrite lookup_insert_eq. done.
      * left. by rewrite lookup_insert_ne.
  - destruct (s !! (x :: p)) as [[c|]|] eqn:Hp.
    + discriminate.
    + intros [= <-]. split; [done | by left].
    + destruct (mkdirp p s) as [e|s1] eqn:Hm.
      { destruct e; discriminate. }
      intros [= <-]. destruct (IH s1 eq_refl) as [_ IH2].
      split; [apply lookup_insert_eq|].
      intros q. destruct (decide (q = x :: p)) as [->|Hq].
      * right. rewrite lookup_insert_eq. done.
      * rewrite lookup_insert_ne by done.
        destruct (IH2 q) as [E | (E1 & E2 & E3)]; [by left|].
        right. split_and!; [done..|]. by apply suffix_cons_r.
Qed.

Lemma mkdirp_evolves (T : list path) (p : path) (s s' : filesystem) :
  mkdirp p s = inr s' → evolves T s s'.
Proof.
  intros H q. destruct (proj2 (mkdirp_spec p s s' H) q) as [E | (E1 & E2 & _)]; auto.
Qed.

Lemma mkdirp_dir (p : path) (s : filesystem) :
  s !! p = Some Dir → mkdirp p s = inr s.
Proof. intros H. destruct p; simpl; by rewrite H. Qed.

Lemma mkdirp_fails_on_file (p : path) (s : filesystem) (c : jsstring) :
  s !! p = Some (File c) → mkdirp p s = inl (EEXIST p).
Proof. intros H. destruct p; simpl; rewrite H; done. Qed.

Lemma put_file_spec (p : path) (c : jsstring) (s s' : filesystem) :
  put_file p c s = inr s' →
  s' = <[p := File c]> s ∧ s !! p ≠ Some Dir ∧ s !! parent p = Some Dir ∧ p ≠ [].
Proof.
  unfold put_file. destruct p as [|x q].
  - destruct (s !! ([] : path)) as [[|]|]; discriminate.
  - simpl. destruct (s !! (x :: q)) as [[c0|]|] eqn:Hp; [|discriminate|];
      destruct (s !! q) as [[c1|]|] eqn:Hq; intros [= <-]; done.
Qed.

Lemma put_file_evolves (p : path) (c : jsstring) (s s' : filesystem) :
  put_file p c s = inr s' → evolves [p] s s'.
Proof.
  intros H. destruct (put_file_spec _ _ _ _ H) as (-> & Hp & _).
  intros q. destruct (decide (q = p)) as [->|Hq].
  - right; right. rewrite lookup_insert_eq.
    split_and!; [apply list_elem_of_here | done | eauto].
  - left. by rewrite lookup_insert_ne.
Qed.

(** Writing again what a file holds changes nothing. *)
Lemma put_file_same (p : path) (c : jsstring) (s s' : filesystem) :
  put_file p c s = inr s' → s !! p = Some (File c) → s' = s.
Proof.
  intros H Hp. destruct (put_file_spec _ _ _ _ H) as (-> & _).
  by apply insert_id.
Qed.

Lemma well_formedb_correct (s : filesystem) :
  well_formedb s = true → well_formed s.
Proof.
  unfold well_formedb, well_formed, is_dir.
  rewrite andb_true_iff, forallb_forall. intros [H0 H]. split.
  - by destruct (s !! ([] : path)) as [[|]|].
  - intros x p [n Hn].
    specialize (H (x :: p, n)). simpl in H.
    destruct (s !! p) as [[|]|]; try done;
      exfalso; (assert (false = true) as Hf; [|discriminate]);
      apply H, list_elem_of_In, elem_of_map_to_list; done.
Qed.

Lemma notin_single (x y : path) : x ≠ y → x ∉ [y].
Proof. intros H Hin. by apply list_elem_of_singleton in Hin. Qed.

Lemma same_outside_refl (A : path → Prop) (s : filesystem) : same_outside A s s.
Proof. by intros q _. Qed.

Lemma same_outside_trans (A B : path → Prop) (s t u : filesystem) :
  same_outside A s t → same_outside B t u →
  same_outside (fun q => A q ∨ B q) s u.
Proof.
  intros H1 H2 q Hq. rewrite H2, H1; [done | |]; intros ?; apply Hq; auto.
Qed.

Lemma same_outside_weaken (A B : path → Prop) (s t : filesystem) :
  (∀ q, A q → B q) → same_outside A s t → same_outside B s t.
Proof. intros HAB H q Hq. apply H. intros HA. by apply Hq, HAB. Qed.

Lemma mkdirp_same_outside (p : path) (s s' : filesystem) :
  mkdirp p s = inr s' → same_outside (fun q => q `suffix_of` p) s s'.
Proof.
  intros H q Hq.
  destruct (proj2 (mkdirp_spec p s s' H) q) as [E | (_ & _ & E)]; done.
Qed.

Lemma put_file_same_outside (p : path) (c : jsstring) (s s' : filesystem) :
  put_file p c s = inr s' → same_outside (fun q => q = p) s s'.
Proof.
  intros H q Hq. destruct (put_file_spec _ _ _ _ H) as (-> & _).
  apply lookup_insert_ne. by intros ->.
Qed.

(** ** Running the primitives *)

Arguments mkdirp : simpl never.
Arguments put_file : simpl never.
Arguments path_join : simpl never.
Opaque lit.
Arguments trim : simpl never.
Arguments trimEnd : simpl never.
Arguments includes : simpl never.

Ltac unfold_prims :=
  unfold bind, Fs.existsSync, Fs.mkdirSync, Fs.writeFileSync, Fs.readFileSync,
    Fs.readdirSync, Console.log, Console.error, emit, ret, throw, exit,
    InstallSh.echo, InstallSh.test_d, InstallSh.test_f, InstallSh.mkdir_p,
    InstallSh.touch, InstallSh.write_to, InstallSh.append_to, InstallSh.grep_q,
    exists_at, is_file, is_dir in *.

(** Two paths that differ in their last or last but one component, or in
    their length. *)
Ltac path_neq :=
  let H := fresh in
  intros H;
  first
    [ apply (f_equal (@head _)) in H; vm_compute in H; discriminate
    | apply (f_equal (fun p : path => head (tail p))) in H; vm_compute in H; discriminate
    | apply (f_equal (@length _)) in H; simpl in H; lia ].

(** Case analysis on the membership of an event in an explicit list. *)
Ltac events_in H :=
  repeat match type of H with
         | _ ∈ _ ++ _ => apply elem_of_app in H as [H|H]
         | _ ∈ _ :: _ => apply elem_of_cons in H as [H|H]
         | _ ∈ [] => by apply elem_of_nil in H
         end.

Section CliSteps.

Variable proc : Cli.process.

#[local] Abbreviation P := (Cli.priorsDir proc).
#[local] Abbreviation G := (path_join (Cli.priorsDir proc) [lit ".gitkeep"]).

Lemma init_priors_settled (s : filesystem) :
  is_Some (s !! P) →
  Cli.init_priors proc s
  = (Ok tt, s, [Stdout (lit "  .claude/priors/ already exists")]).
Proof.
  intros [n Hn]. unfold Cli.init_priors. unfold_prims.
  by rewrite Hn.
Qed.

Lemma init_priors_run (s s' : filesystem) r o :
  Cli.init_priors proc s = (r, s', o) →
  evolves [G] s s'
  ∧ (∀ p c, Write p c ∈ o → p = G)
  ∧ (r = Ok tt → is_Some (s' !! P))
  ∧ (well_formed s → r ≠ Ok tt → s' = s).
Proof.
  unfold Cli.init_priors. unfold_prims.
  destruct (s !! P) as [n|] eqn:HP; simpl.
  - intros [= <- <- <-]. split_and!.
    + apply evolves_refl.
    + intros p c Hin. events_in Hin. congruence.
    + eauto.
    + done.
  - destruct (mkdirp P s) as [e|s1] eqn:Hm; simpl.
    { intros [= <- <- <-].
      split_and!; [apply evolves_refl | by intros p c Hin; events_in Hin | done | done]. }
    destruct (mkdirp_spec _ _ _ Hm) as [HP1 Hfr].
    destruct (put_file G [] s1) as [e|s2] eqn:Hw; simpl.
    + intros [= <- <- <-]. split_and!.
      * by eapply mkdirp_evolves.
      * intros p c Hin. events_in Hin. congruence.
      * done.
      * intros [_ Hwf] _. exfalso.
        unfold put_file, path_join in Hw. simpl in Hw.
        assert (s1 !! (lit ".gitkeep" :: P) = None) as HG.
        { destruct (Hfr (lit ".gitkeep" :: P)) as [E | (E1 & E2 & E3)].
          - rewrite E. destruct (s !! (lit ".gitkeep" :: P)) eqn:HG; [|done].
            rewrite (Hwf (lit ".gitkeep") P) in HP; [done | eauto].
          - apply suffix_length in E3. simpl in E3. lia. }
        rewrite HG, HP1 in Hw. done.
    + intros [= <- <- <-]. split_and!.
      * eapply evolves_trans; [by eapply mkdirp_evolves | by eapply put_file_evolves].
      * intros p c Hin. events_in Hin; congruence.
      * intros _. destruct (put_file_spec _ _ _ _ Hw) as (-> & _).
        rewrite lookup_insert_ne; [eauto | path_neq].
      * done.
Qed.

Lemma readAsset_eq (A B : path) (s : filesystem) :
  Cli.readAsset A B s
  = (asset_at s A B, s,
     match asset_at s A B with
     | Exit _ => [Stderr (asset_diagnostic A B)]
     | _ => []
     end).
Proof.
  unfold Cli.readAsset, Cli.resolveAsset, asset_at, asset_diagnostic. unfold_prims.
  destruct (s !! A) as [[c|]|] eqn:HA; simpl; rewrite ?HA; try done.
  destruct (s !! B) as [[c|]|] eqn:HB; simpl; rewrite ?HB; done.
Qed.

(** A run that only creates directories and writes elsewhere leaves a found
    asset as it is, or in the way of a directory it made. *)
Lemma asset_at_evolves (T : list path) (s t : filesystem) (A B : path) c :
  evolves T s t → A ∉ T → B ∉ T →
  asset_at s A B = Ok c →
  asset_at t A B = Ok c ∨ ∃ e, asset_at t A B = Throw e.
Proof.
  intros H HA HB. unfold asset_at.
  destruct (evolves_outside T s t A H HA) as [EA | [EA EA']];
    destruct (evolves_outside T s t B H HB) as [EB | [EB EB']];
    rewrite ?EA, ?EA', ?EB, ?EB';
    destruct (s !! A) as [[a|]|]; destruct (s !! B) as [[b|]|]; eauto; done.
Qed.

Lemma asset_at_exit (s : filesystem) (A B : path) (code : N) :
  asset_at s A B = Exit code ↔ code = 1 ∧ s !! A = None ∧ s !! B = None.
Proof.
  unfold asset_at. destruct (s !! A) as [[a|]|]; destruct (s !! B) as [[b|]|];
    split; (intros [= <-] || intros (-> & ? & ?)); done.
Qed.

Section Skill.

Variable global : bool.
Variable dir : path.
Hypothesis Hdir : Cli.skillDir proc global = Some dir.

#[local] Abbreviation D := (path_join dir [lit "SKILL.md"]).

Lemma copy_skill_run (c : jsstring) (s s' : filesystem) r o :
  Cli.copy_skill global D c s = (r, s', o) →
  evolves [D] s s'
  ∧ (∀ p x, Write p x ∈ o → p = D ∧ x = c)
  ∧ (r = Ok tt → s' !! D = Some (File c))
  ∧ (r ≠ Ok tt → s' = s).
Proof.
  unfold Cli.copy_skill. unfold_prims.
  destruct (s !! D) as [[e|]|] eqn:HD; simpl; rewrite ?HD; simpl.
  - destruct (decide (e = c)) as [->|Hne]; simpl.
    + intros [= <- <- <-].
      split_and!; [apply evolves_refl | by intros p x Hin; events_in Hin | done | done].
    + destruct (put_file D c s) as [ef|s2] eqn:Hw; simpl; intros [= <- <- <-].
      * split_and!; [apply evolves_refl | by intros p x Hin; events_in Hin | done | done].
      * destruct (put_file_spec _ _ _ _ Hw) as (-> & _).
        split_and!.
        -- by eapply put_file_evolves.
        -- intros p x Hin. events_in Hin; [by injection Hin as -> -> | done].
        -- intros _. by rewrite lookup_insert_eq.
        -- done.
  - intros [= <- <- <-].
    split_and!; [apply evolves_refl | by intros p x Hin; events_in Hin | done | done].
  - destruct (put_file D c s) as [ef|s2] eqn:Hw; simpl; intros [= <- <- <-].
    + split_and!; [apply evolves_refl | by intros p x Hin; events_in Hin | done | done].
    + destruct (put_file_spec _ _ _ _ Hw) as (-> & _).
      split_and!.
      * by eapply put_file_evolves.
      * intros p x Hin. events_in Hin; [by injection Hin as -> -> | done].
      * intros _. by rewrite lookup_insert_eq.
      * done.
Qed.

(** What [copy_skill] reports about a file that is there. *)
Lemma copy_skill_existing (c e : jsstring) (s s' : filesystem) o :
  s !! D = Some (File e) →
  Cli.copy_skill global D c s = (Ok tt, s', o) →
  (e = c → s' = s ∧ o = [Stdout (lit "  SKILL.md already up to date")])
  ∧ (e ≠ c → o = [Write D c; Stdout (lit "  Updated SKILL.md to v" ++ Cli.VERSION)]).
Proof.
  intros HD. unfold Cli.copy_skill. unfold_prims.
  rewrite HD; simpl; rewrite HD; simpl.
  destruct (decide (e = c)) as [->|Hne]; simpl.
  - intros [= <- <-]. done.
  - destruct (put_file D c s) as [ef|s2] eqn:Hw; simpl; intros [= <- <-]. done.
Qed.

Lemma init_skill_settled (c : jsstring) (s : filesystem) :
  is_Some (s !! dir) → s !! D = Some (File c) →
  Cli.init_skill proc global c s
  = (Ok tt, s, [Stdout (lit "  SKILL.md already up to date")]).
Proof.
  intros [n Hn] HD. unfold Cli.init_skill, Cli.copy_skill. rewrite Hdir. unfold_prims.
  rewrite Hn. simpl. rewrite HD. simpl. rewrite HD. simpl.
  by destruct (decide (c = c)).
Qed.

(** The run of [init_skill] from the run of [copy_skill] it ends with. *)
Lemma init_skill_inv (c : jsstring) (s s' : filesystem) r o :
  Cli.init_skill proc global c s = (r, s', o) →
  (∃ e, s !! dir = None ∧ mkdirp dir s = inl e ∧ r = Throw e ∧ s' = s ∧ o = [])
  ∨ (∃ s1 o1 o2, is_Some (s1 !! dir) ∧ evolves [] s s1
       ∧ (is_Some (s !! dir) → s1 = s)
       ∧ (∀ p x, Write p x ∉ o1)
       ∧ Cli.copy_skill global D c s1 = (r, s', o2) ∧ o = o1 ++ o2).
Proof.
  unfold Cli.init_skill. rewrite Hdir.
  unfold bind at 1. unfold bind at 1. unfold Fs.existsSync, exists_at.
  destruct (s !! dir) as [n|] eqn:Hd; simpl.
  - unfold ret.
    destruct (Cli.copy_skill global D c s) as [[rr ss] oo] eqn:Hc.
    intros [= <- <- <-]. right. exists s, [], oo.
    split_and!; [eauto | apply evolves_refl | done | | done | done].
    intros p x Hin. by apply elem_of_nil in Hin.
  - unfold Fs.mkdirSync. destruct (mkdirp dir s) as [e|s1] eqn:Hm.
    + intros [= <- <- <-]. left. by exists e.
    + destruct (Cli.copy_skill global D c s1) as [[rr ss] oo] eqn:Hc.
      intros [= <- <- <-]. right. exists s1, [Mkdir dir], oo.
      destruct (mkdirp_spec _ _ _ Hm) as [Hd1 _].
      split_and!; [eauto | by eapply mkdirp_evolves | by intros [? ?] | | done | done].
      intros p x Hin. events_in Hin. done.
Qed.

Lemma init_skill_run (c : jsstring) (s s' : filesystem) r o :
  Cli.init_skill proc global c s = (r, s', o) →
  evolves [D] s s'
  ∧ (∀ p x, Write p x ∈ o → p = D ∧ x = c)
  ∧ (r = Ok tt → is_Some (s' !! dir) ∧ s' !! D = Some (File c))
  ∧ (r ≠ Ok tt →
     ∃ r' o', Cli.init_skill proc global c s' = (r', s', o') ∧ r' ≠ Ok tt).
Proof.
  intros Hrun. pose proof Hrun as Hrun0.
  apply init_skill_inv in Hrun
    as [(e & Hd & Hm & -> & -> & ->) | (s1 & o1 & o2 & Hd1 & Hev & Hsame & Ho1 & Hc & ->)].
  - split_and!; [apply evolves_refl | by intros p x Hin; events_in Hin | done |].
    intros _. eauto.
  - pose proof Hc as Hc0.
    apply copy_skill_run in Hc as (H1 & H2 & H3 & H4).
    split_and!.
    + eapply evolves_trans; [|done]. eapply evolves_weaken; [|done].
      intros x Hx. by apply elem_of_nil in Hx.
    + intros p x Hin. events_in Hin; [by apply Ho1 in Hin | by apply H2].
    + intros Hr. split; [|by apply H3].
      eapply evolves_exists; done.
    + intros Hr. specialize (H4 Hr). subst s'.
      exists r, o2. split; [|done].
      unfold Cli.init_skill. rewrite Hdir. unfold bind at 1. unfold bind at 1.
      unfold Fs.existsSync, exists_at. destruct Hd1 as [n ->]. simpl.
      unfold ret. by rewrite Hc0.
Qed.

End Skill.

#[local] Abbreviation I s := (path_join (Cli.cwd proc) [instructionFile proc s]).

Lemma detect_candidates (s : filesystem) :
  Cli.detect proc Cli.candidates s
  = (Ok (if exists_at s (path_join (Cli.cwd proc) [lit "CLAUDE.md"])
         then Some (lit "CLAUDE.md")
         else if exists_at s (path_join (Cli.cwd proc) [lit "AGENTS.md"])
              then Some (lit "AGENTS.md") else None), s, []).
Proof.
  unfold Cli.candidates, Cli.detect. unfold_prims.
  destruct (s !! path_join (Cli.cwd proc) [lit "CLAUDE.md"]); simpl; [done|].
  destruct (s !! path_join (Cli.cwd proc) [lit "AGENTS.md"]); done.
Qed.

(** [init_bootstrap] in closed form. *)
Lemma init_bootstrap_eq (b : jsstring) (s : filesystem) :
  Cli.init_bootstrap proc b s
  = match s !! I s with
    | Some (File e) =>
        if includes e Cli.PRIORS_MARKER then
          (Ok tt, s, [Stdout (lit "  " ++ instructionFile proc s
                              ++ lit " already has priors bootstrap")])
        else
          match put_file (I s) (trimEnd e ++ [NL; NL] ++ trim b ++ [NL]) s with
          | inr s' =>
              (Ok tt, s',
               [Write (I s) (trimEnd e ++ [NL; NL] ++ trim b ++ [NL]);
                Stdout (lit "  Appended priors bootstrap to " ++ instructionFile proc s)])
          | inl er => (Throw er, s, [])
          end
    | Some Dir => (Throw (EISDIR (I s)), s, [])
    | None =>
        match put_file (I s) (trim b ++ [NL]) s with
        | inr s' =>
            (Ok tt, s',
             [Write (I s) (trim b ++ [NL]);
              Stdout (lit "  Created " ++ instructionFile proc s
                      ++ lit " with priors bootstrap")])
        | inl er => (Throw er, s, [])
        end
    end.
Proof.
  unfold Cli.init_bootstrap. unfold bind at 1. rewrite detect_candidates.
  unfold instructionFile. unfold_prims.
  destruct (s !! path_join (Cli.cwd proc) [lit "CLAUDE.md"]) as [n1|] eqn:H1; simpl.
  - rewrite !H1. destruct n1 as [e|]; simpl; [|done].
    destruct (includes e Cli.PRIORS_MARKER); simpl; [done|].
    by destruct (put_file _ _ s).
  - destruct (s !! path_join (Cli.cwd proc) [lit "AGENTS.md"]) as [n2|] eqn:H2; simpl.
    + rewrite !H2. destruct n2 as [e|]; simpl; [|done].
      destruct (includes e Cli.PRIORS_MARKER); simpl; [done|].
      by destruct (put_file _ _ s).
    + rewrite !H1. simpl. by destruct (put_file _ _ s).
Qed.

Lemma instructionFile_cases (s : filesystem) :
  instructionFile proc s = lit "CLAUDE.md" ∨ instructionFile proc s = lit "AGENTS.md".
Proof.
  unfold instructionFile.
  destruct (exists_at s _); [by left|]. destruct (exists_at s _); [by right | by left].
Qed.

(** Writing the instruction file does not change which file it is. *)
Lemma instructionFile_put (c : jsstring) (s s' : filesystem) :
  put_file (I s) c s = inr s' → instructionFile proc s' = instructionFile proc s.
Proof.
  intros Hw. destruct (put_file_spec _ _ _ _ Hw) as (-> & _).
  unfold instructionFile, exists_at.
  destruct (s !! path_join (Cli.cwd proc) [lit "CLAUDE.md"]) as [n1|] eqn:H1; simpl.
  - by rewrite lookup_insert_eq.
  - destruct (s !! path_join (Cli.cwd proc) [lit "AGENTS.md"]) as [n2|] eqn:H2; simpl.
    + rewrite lookup_insert_ne by path_neq. rewrite H1.
      by rewrite lookup_insert_eq.
    + by rewrite lookup_insert_eq.
Qed.

Lemma init_bootstrap_run (b : jsstring) (s s' : filesystem) r o :
  Cli.init_bootstrap proc b s = (r, s', o) →
  evolves [I s] s s'
  ∧ (∀ p x, Write p x ∈ o → p = I s)
  ∧ (r ≠ Ok tt → s' = s)
  ∧ (r = Ok tt →
     instructionFile proc s' = instructionFile proc s
     ∧ ∃ e, s' !! I s = Some (File e)
            ∧ (includes (trim b) Cli.PRIORS_MARKER = true →
               includes e Cli.PRIORS_MARKER = true)).
Proof.
  rewrite init_bootstrap_eq.
  destruct (s !! I s) as [[e|]|] eqn:HI.
  - destruct (includes e Cli.PRIORS_MARKER) eqn:Hinc.
    + intros [= <- <- <-].
      split_and!; [apply evolves_refl | by intros p x Hin; events_in Hin | done |].
      intros _. split; [done|]. eauto.
    + destruct (put_file _ _ s) as [er|s2] eqn:Hw; intros [= <- <- <-].
      * split_and!; [apply evolves_refl | by intros p x Hin; events_in Hin | done | done].
      * split_and!; [by eapply put_file_evolves | | done |].
        { intros p x Hin. events_in Hin; congruence. }
        intros _. split; [by eapply instructionFile_put|].
        destruct (put_file_spec _ _ _ _ Hw) as (-> & _).
        rewrite lookup_insert_eq. eexists; split; [done|].
        intros Hb. apply includes_app_r, includes_app_r. by apply includes_app_l.
  - intros [= <- <- <-].
    split_and!; [apply evolves_refl | by intros p x Hin; events_in Hin | done | done].
  - destruct (put_file _ _ s) as [er|s2] eqn:Hw; intros [= <- <- <-].
    * split_and!; [apply evolves_refl | by intros p x Hin; events_in Hin | done | done].
    * split_and!; [by eapply put_file_evolves | | done |].
      { intros p x Hin. events_in Hin; congruence. }
      intros _. split; [by eapply instructionFile_put|].
      destruct (put_file_spec _ _ _ _ Hw) as (-> & _).
      rewrite lookup_insert_eq. eexists; split; [done|].
      intros Hb. by apply includes_app_l.
Qed.

#[local] Abbreviation is_global args := (bool_decide (lit "--global" ∈ args)).
#[local] Abbreviation skill_at s := (asset_at s (Cli.SKILL_SRC proc) (Cli.SKILL_SRC_ALT proc)).
#[local] Abbreviation boot_at s := (asset_at s (Cli.BOOTSTRAP_SRC proc) (Cli.BOOTSTRAP_SRC_ALT proc)).
#[local] Abbreviation skill_events s :=
  (asset_events s (Cli.SKILL_SRC proc) (Cli.SKILL_SRC_ALT proc)).
#[local] Abbreviation boot_events s :=
  (asset_events s (Cli.BOOTSTRAP_SRC proc) (Cli.BOOTSTRAP_SRC_ALT proc)).

(** The runs of [init], by the stage they stop at. *)
Lemma init_inv (args : list jsstring) (s s' : filesystem) r o :
  Cli.init proc args s = (r, s', o) →
  (∃ o1, Cli.init_priors proc s = (r, s', o1) ∧ r ≠ Ok tt
         ∧ o = init_header proc ++ o1)
  ∨ (∃ o1, Cli.init_priors proc s = (Ok tt, s', o1)
           ∧ same_failure (skill_at s') r
           ∧ o = init_header proc ++ o1 ++ skill_events s')
  ∨ (∃ s1 o1 sc o2,
        Cli.init_priors proc s = (Ok tt, s1, o1)
        ∧ skill_at s1 = Ok sc
        ∧ Cli.init_skill proc (is_global args) sc s1 = (r, s', o2) ∧ r ≠ Ok tt
        ∧ o = init_header proc ++ o1 ++ o2)
  ∨ (∃ s1 o1 sc o2,
        Cli.init_priors proc s = (Ok tt, s1, o1)
        ∧ skill_at s1 = Ok sc
        ∧ Cli.init_skill proc (is_global args) sc s1 = (Ok tt, s', o2)
        ∧ same_failure (boot_at s') r
        ∧ o = init_header proc ++ o1 ++ o2 ++ boot_events s')
  ∨ (∃ s1 o1 sc s2 o2 bc o3,
        Cli.init_priors proc s = (Ok tt, s1, o1)
        ∧ skill_at s1 = Ok sc
        ∧ Cli.init_skill proc (is_global args) sc s1 = (Ok tt, s2, o2)
        ∧ boot_at s2 = Ok bc
        ∧ Cli.init_bootstrap proc bc s2 = (r, s', o3)
        ∧ o = init_header proc ++ o1 ++ o2 ++ o3
              ++ match r with Ok _ => init_footer | _ => [] end).
Proof.
  unfold Cli.init, init_header, init_footer.
  unfold bind at 1. unfold Console.log at 1. unfold emit at 1.
  unfold bind at 1. unfold Console.log at 1. unfold emit at 1.
  unfold bind at 1.
  destruct (Cli.init_priors proc s) as [[r1 s1] o1] eqn:H1.
  destruct r1 as [[]|code|e]; [|intros [= <- <- <-]; left; by eexists..].
  unfold bind at 1. rewrite readAsset_eq. fold (skill_events s1).
  destruct (skill_at s1) as [sc|code|e] eqn:Ha;
    [| intros [= <- <- <-]; right; left; eexists; rewrite Ha; done..].
  unfold bind at 1.
  destruct (Cli.init_skill proc (is_global args) sc s1) as [[r2 s2] o2] eqn:H2.
  destruct r2 as [[]|code|e];
    [| intros [= <- <- <-]; right; right; left; exists s1, o1, sc, o2;
       unfold asset_events; rewrite Ha; done..].
  unfold bind at 1. rewrite readAsset_eq. fold (boot_events s2).
  destruct (boot_at s2) as [bc|code|e] eqn:Hb;
    [| intros [= <- <- <-]; right; right; right; left; exists s1, o1, sc, o2;
       unfold asset_events at 1; rewrite Ha, Hb; done..].
  unfold bind at 1.
  destruct (Cli.init_bootstrap proc bc s2) as [[r3 s3] o3] eqn:H3.
  unfold Console.log, emit.
  destruct r3 as [[]|code|e]; intros [= <- <- <-];
    right; right; right; right; exists s1, o1, sc, s2, o2, bc, o3;
    unfold asset_events; rewrite Ha, Hb; simpl; rewrite ?app_nil_r; done.
Qed.

Lemma init_skill_none (global : bool) (c : jsstring) (s : filesystem) :
  Cli.skillDir proc global = None →
  Cli.init_skill proc global c s = (Throw TypeError, s, []).
Proof. intros H. unfold Cli.init_skill. by rewrite H. Qed.

(** What the first two steps of [init] do to the filesystem. *)
Lemma init_skill_early (global : bool) (c : jsstring) (s s' : filesystem) r o :
  Cli.init_skill proc global c s = (r, s', o) →
  evolves (early_targets proc global) s s'
  ∧ (∀ p x, Write p x ∈ o → p ∈ early_targets proc global).
Proof.
  unfold early_targets, skillDest.
  destruct (Cli.skillDir proc global) as [dir|] eqn:Hdir.
  - intros H. apply (init_skill_run global dir Hdir) in H as (H1 & H2 & _).
    split.
    + eapply evolves_weaken; [|done]. intros x Hx.
      apply list_elem_of_singleton in Hx as ->. apply list_elem_of_further, list_elem_of_here.
    + intros p x Hin. destruct (H2 p x Hin) as [-> _].
      apply list_elem_of_further, list_elem_of_here.
  - rewrite init_skill_none by done. intros [= <- <- <-].
    split; [apply evolves_refl | by intros p x Hin; events_in Hin].
Qed.

Lemma init_priors_early (global : bool) (s s' : filesystem) r o :
  Cli.init_priors proc s = (r, s', o) →
  evolves (early_targets proc global) s s'
  ∧ (∀ p x, Write p x ∈ o → p ∈ early_targets proc global).
Proof.
  intros H. apply init_priors_run in H as (H1 & H2 & _). split.
  - eapply evolves_weaken; [|done]. intros x Hx.
    apply list_elem_of_singleton in Hx as ->. apply list_elem_of_here.
  - intros p x Hin. rewrite (H2 p x Hin). apply list_elem_of_here.
Qed.

Lemma asset_events_no_write (s : filesystem) (A B p : path) :
  no_write_to p (asset_events s A B).
Proof.
  intros x Hin. unfold asset_events in Hin.
  destruct (asset_at s A B); events_in Hin; done.
Qed.

(** Every run of [init] reaches its third step, or stops before it, in a
    state that differs from the first one at most in directories made and
    in the files of the first two steps. *)
Lemma init_summary (args : list jsstring) (s s' : filesystem) r o :
  Cli.init proc args s = (r, s', o) →
  ∃ (s2 : filesystem) (o12 : list event),
    evolves (early_targets proc (is_global args)) s s2
    ∧ (∀ p x, Write p x ∈ o12 → p ∈ early_targets proc (is_global args))
    ∧ ((s' = s2 ∧ r ≠ Ok tt ∧ ∀ p x, Write p x ∈ o → Write p x ∈ o12)
       ∨ (∃ (bc : jsstring) (o3 : list event), boot_at s2 = Ok bc
                   ∧ Cli.init_bootstrap proc bc s2 = (r, s', o3)
                   ∧ ∀ p x, Write p x ∈ o → Write p x ∈ o12 ∨ Write p x ∈ o3)).
Proof.
  intros Hrun. apply init_inv in Hrun
    as [(o1 & H1 & Hr & ->)
       |[(o1 & H1 & Hf & ->)
       |[(s1 & o1 & sc & o2 & H1 & Ha & H2 & Hr & ->)
       |[(s1 & o1 & sc & o2 & H1 & Ha & H2 & Hf & ->)
       |(s1 & o1 & sc & s2 & o2 & bc & o3 & H1 & Ha & H2 & Hb & H3 & ->)]]]].
  - apply (init_priors_early (is_global args)) in H1 as [E1 W1].
    exists s', o1. split_and!; [done..|]. left. split_and!; [done..|].
    intros p x Hin. unfold init_header in Hin. events_in Hin; done.
  - apply (init_priors_early (is_global args)) in H1 as [E1 W1].
    exists s', o1. split_and!; [done..|]. left. split_and!; [done| |].
    { intros ->. by destruct (skill_at s'). }
    intros p x Hin. unfold init_header in Hin. events_in Hin; try done.
    by apply asset_events_no_write in Hin.
  - apply (init_priors_early (is_global args)) in H1 as [E1 W1].
    apply init_skill_early in H2 as [E2 W2].
    exists s', (o1 ++ o2). split_and!.
    + by eapply evolves_trans.
    + intros p x Hin. events_in Hin; eauto.
    + left. split_and!; [done..|].
      intros p x Hin. unfold init_header in Hin. apply elem_of_app.
      events_in Hin; try done; auto.
  - apply (init_priors_early (is_global args)) in H1 as [E1 W1].
    apply init_skill_early in H2 as [E2 W2].
    exists s', (o1 ++ o2). split_and!.
    + by eapply evolves_trans.
    + intros p x Hin. events_in Hin; eauto.
    + left. split_and!; [done| |].
      { intros ->. by destruct (boot_at s'). }
      intros p x Hin. unfold init_header in Hin. apply elem_of_app.
      events_in Hin; try done; auto.
      by apply asset_events_no_write in Hin.
  - apply (init_priors_early (is_global args)) in H1 as [E1 W1].
    apply init_skill_early in H2 as [E2 W2].
    exists s2, (o1 ++ o2). split_and!.
    + by eapply evolves_trans.
    + intros p x Hin. events_in Hin; eauto.
    + right. exists bc, o3. split_and!; [done..|].
      intros p x Hin. unfold init_header in Hin. rewrite elem_of_app.
      events_in Hin; try done; auto.
      unfold init_footer in Hin. destruct r; events_in Hin; done.
Qed.

Lemma early_targets_cases (global : bool) (q : path) :
  q ∈ early_targets proc global →
  q = path_join (Cli.priorsDir proc) [lit ".gitkeep"]
  ∨ ∃ dir, Cli.skillDir proc global = Some dir ∧ q = path_join dir [lit "SKILL.md"].
Proof.
  unfold early_targets, skillDest. intros Hq.
  destruct (Cli.skillDir proc global) as [dir|]; events_in Hq; eauto.
Qed.

Lemma skillDir_shape (global : bool) (dir : path) :
  Cli.skillDir proc global = Some dir →
  ∃ base, dir = path_join base [lit ".claude"; lit "skills"; lit "knowledge-extraction"].
Proof.
  unfold Cli.skillDir. destruct global; [destruct (Cli.env_home proc)|];
    intros [= <-]; eauto.
Qed.

(** The instruction files and the bundled assets are not among the files
    of the first two steps. *)
Lemma candidate_not_early (global : bool) (f : jsstring) :
  f ∈ Cli.candidates → path_join (Cli.cwd proc) [f] ∉ early_targets proc global.
Proof.
  intros Hf Hq. apply early_targets_cases in Hq as [Hq | (dir & Hdir & Hq)].
  - unfold Cli.candidates in Hf. events_in Hf; subst f; revert Hq; path_neq.
  - unfold Cli.candidates in Hf. events_in Hf; subst f; revert Hq; path_neq.
Qed.

Lemma instruction_not_early (global : bool) (s : filesystem) :
  I s ∉ early_targets proc global.
Proof.
  apply candidate_not_early. unfold Cli.candidates.
  destruct (instructionFile_cases s) as [-> | ->];
    [apply list_elem_of_here | apply list_elem_of_further, list_elem_of_here].
Qed.

Lemma assets_not_early (global : bool) :
  (Cli.SKILL_SRC proc ∉ early_targets proc global)
  ∧ (Cli.SKILL_SRC_ALT proc ∉ early_targets proc global)
  ∧ (Cli.BOOTSTRAP_SRC proc ∉ early_targets proc global)
  ∧ (Cli.BOOTSTRAP_SRC_ALT proc ∉ early_targets proc global).
Proof.
  split_and!; intros Hq;
    apply early_targets_cases in Hq as [Hq | (dir & Hdir & Hq)];
    try (revert Hq; path_neq);
    apply skillDir_shape in Hdir as [base ->]; revert Hq; path_neq.
Qed.

Lemma assets_not_instruction (s : filesystem) :
  Cli.SKILL_SRC proc ≠ (I s) ∧ Cli.SKILL_SRC_ALT proc ≠ (I s)
  ∧ Cli.BOOTSTRAP_SRC proc ≠ (I s) ∧ Cli.BOOTSTRAP_SRC_ALT proc ≠ (I s).
Proof.
  destruct (instructionFile_cases s) as [-> | ->]; split_and!; path_neq.
Qed.

(** An asset found after a run was there before it. *)
Lemma asset_at_back (T : list path) (s t : filesystem) (A B : path) c :
  evolves T s t → A ∉ T → B ∉ T →
  asset_at t A B = Ok c → asset_at s A B = Ok c.
Proof.
  intros H HA HB. unfold asset_at.
  destruct (t !! A) as [[a|]|] eqn:EA; [| done |].
  - intros [= ->]. by rewrite (evolves_file_back T s t A c H HA EA).
  - rewrite (evolves_none_back T s t A H EA).
    destruct (t !! B) as [[b|]|] eqn:EB; [| done | done].
    intros [= ->]. by rewrite (evolves_file_back T s t B c H HB EB).
Qed.

(** The steps before the third do not change which file is the instruction
    file, unless they leave a directory in its place. *)
Lemma instructionFile_evolves (T : list path) (s t : filesystem) :
  evolves T s t →
  path_join (Cli.cwd proc) [lit "CLAUDE.md"] ∉ T →
  path_join (Cli.cwd proc) [lit "AGENTS.md"] ∉ T →
  (instructionFile proc t = instructionFile proc s ∧ t !! (I s) = s !! (I s))
  ∨ t !! (I t) = Some Dir.
Proof.
  intros H HC HA. unfold instructionFile, exists_at.
  destruct (evolves_outside T s t _ H HC) as [EC | [EC EC']];
    destruct (evolves_outside T s t _ H HA) as [EA | [EA EA']];
    rewrite ?EC, ?EC', ?EA, ?EA'; simpl.
  - left. destruct (s !! path_join (Cli.cwd proc) [lit "CLAUDE.md"]) eqn:E1;
      [split; congruence|].
    destruct (s !! path_join (Cli.cwd proc) [lit "AGENTS.md"]) eqn:E2; split; congruence.
  - destruct (s !! path_join (Cli.cwd proc) [lit "CLAUDE.md"]) eqn:E1;
      [left; split; congruence | by right].
  - by right.
  - by right.
Qed.

(** A completed [init], seen from its third step. *)
Lemma init_ok_bootstrap (args : list jsstring) (s s' : filesystem) o :
  Cli.init proc args s = (Ok tt, s', o) →
  ∃ (s2 : filesystem) (bc : jsstring) (o3 : list event),
    boot_at s = Ok bc
    ∧ instructionFile proc s2 = instructionFile proc s
    ∧ s2 !! (I s) = s !! (I s)
    ∧ Cli.init_bootstrap proc bc s2 = (Ok tt, s', o3)
    ∧ (∀ e, Stdout e ∈ o3 → Stdout e ∈ o)
    ∧ (∀ p x, Write p x ∈ o → p ∈ early_targets proc (is_global args) ∨ Write p x ∈ o3).
Proof.
  intros Hrun. apply init_inv in Hrun
    as [(o1 & H1 & Hr & ->)
       |[(o1 & H1 & Hf & ->)
       |[(s1 & o1 & sc & o2 & H1 & Ha & H2 & Hr & ->)
       |[(s1 & o1 & sc & o2 & H1 & Ha & H2 & Hf & ->)
       |(s1 & o1 & sc & s2 & o2 & bc & o3 & H1 & Ha & H2 & Hb & H3 & ->)]]]];
    try done.
  { by destruct (skill_at s'). }
  { by destruct (boot_at s'). }
  apply (init_priors_early (is_global args)) in H1 as [E1 W1].
  apply init_skill_early in H2 as [E2 W2].
  assert (evolves (early_targets proc (is_global args)) s s2) as Hev
    by (by eapply evolves_trans).
  destruct (assets_not_early (is_global args)) as (_ & _ & NB & NBA).
  exists s2, bc, o3.
  destruct (instructionFile_evolves _ s s2 Hev) as [[F1 F2] | Edir].
  { apply candidate_not_early, list_elem_of_here. }
  { apply candidate_not_early, list_elem_of_further, list_elem_of_here. }
  - split_and!; [by eapply asset_at_back | done | done | done | |].
    + intros e He. rewrite !elem_of_app. auto.
    + intros p x Hin. unfold init_header, init_footer in Hin.
      events_in Hin; try done; eauto.
  - rewrite init_bootstrap_eq in H3. rewrite Edir in H3. done.
Qed.

(** The third step leaves alone an instruction file that carries the marker. *)
Lemma init_bootstrap_marked (b : jsstring) (s s' : filesystem) r o (f c : jsstring) :
  f = lit "CLAUDE.md" ∨ f = lit "AGENTS.md" →
  s !! path_join (Cli.cwd proc) [f] = Some (File c) →
  includes c Cli.PRIORS_MARKER = true →
  Cli.init_bootstrap proc b s = (r, s', o) →
  s' !! path_join (Cli.cwd proc) [f] = Some (File c)
  ∧ no_write_to (path_join (Cli.cwd proc) [f]) o.
Proof.
  intros Hf Hc Hm Hrun.
  destruct (decide (I s = path_join (Cli.cwd proc) [f])) as [E|NE].
  - rewrite init_bootstrap_eq in Hrun. rewrite E, Hc, Hm in Hrun.
    injection Hrun as <- <- <-. split; [done|].
    intros x Hin. events_in Hin. done.
  - apply init_bootstrap_run in Hrun as (Hev & Hw & _). split.
    + eapply evolves_file_outside; [done| |done].
      intros Hin. apply list_elem_of_singleton in Hin. done.
    + intros x Hin. apply Hw in Hin. done.
Qed.

Lemma init_marked_file (args : list jsstring) (s : filesystem) (f c : jsstring) :
  f = lit "CLAUDE.md" ∨ f = lit "AGENTS.md" →
  s !! path_join (Cli.cwd proc) [f] = Some (File c) →
  includes c Cli.PRIORS_MARKER = true →
  fs_of (Cli.init proc args s) !! path_join (Cli.cwd proc) [f] = Some (File c)
  ∧ no_write_to (path_join (Cli.cwd proc) [f]) (events_of (Cli.init proc args s)).
Proof.
  intros Hf Hc Hm.
  destruct (Cli.init proc args s) as [[r s'] o] eqn:Hrun.
  unfold fs_of, events_of. simpl.
  assert (path_join (Cli.cwd proc) [f] ∉ early_targets proc (is_global args)) as Hne.
  { apply candidate_not_early. unfold Cli.candidates.
    destruct Hf as [-> | ->];
      [apply list_elem_of_here | apply list_elem_of_further, list_elem_of_here]. }
  apply init_summary in Hrun
    as (s2 & o12 & Hev & Hw & [(-> & Hr & Ho) | (bc & o3 & Hb & H3 & Ho)]).
  - split; [by eapply evolves_file_outside|].
    intros x Hin. apply Ho, Hw in Hin. done.
  - eapply init_bootstrap_marked in H3 as [H3 H3']; [|done| |done].
    2: by eapply evolves_file_outside.
    split; [done|]. intros x Hin.
    destruct (Ho _ _ Hin) as [Hin' | Hin']; [by apply Hw in Hin' | by apply H3' in Hin'].
Qed.

Lemma init_marker_substring (args : list jsstring) (s s' : filesystem) o (pre suf : jsstring) :
  s !! (I s) = Some (File (pre ++ Cli.PRIORS_MARKER ++ suf)) →
  Cli.init proc args s = (Ok tt, s', o) →
  Stdout (lit "  " ++ instructionFile proc s ++ lit " already has priors bootstrap") ∈ o
  ∧ no_write_to (I s) o
  ∧ s' !! (I s) = Some (File (pre ++ Cli.PRIORS_MARKER ++ suf)).
Proof.
  intros Hc Hrun.
  apply init_ok_bootstrap in Hrun as (s2 & bc & o3 & Hb & F1 & F2 & H3 & Ho & Hw).
  rewrite init_bootstrap_eq in H3. rewrite F1, F2, Hc in H3.
  assert (includes (pre ++ Cli.PRIORS_MARKER ++ suf) Cli.PRIORS_MARKER = true) as Hinc.
  { apply includes_spec. eauto. }
  rewrite Hinc in H3. injection H3 as <- <-.
  split_and!.
  - apply Ho, list_elem_of_here.
  - intros x Hin. apply Hw in Hin as [Hin | Hin].
    + by apply instruction_not_early in Hin.
    + events_in Hin. done.
  - by rewrite F2.
Qed.

Lemma init_appends (args : list jsstring) (s s' : filesystem) o (e b : jsstring) :
  s !! (I s) = Some (File e) →
  includes e Cli.PRIORS_MARKER = false →
  boot_at s = Ok b →
  Cli.init proc args s = (Ok tt, s', o) →
  s' !! (I s) = Some (File (trimEnd e ++ [NL; NL] ++ trim b ++ [NL])).
Proof.
  intros Hc Hm Hb Hrun.
  apply init_ok_bootstrap in Hrun as (s2 & bc & o3 & Hb' & F1 & F2 & H3 & Ho & Hw).
  assert (bc = b) as -> by congruence.
  rewrite init_bootstrap_eq in H3. rewrite F1, F2, Hc, Hm in H3.
  destruct (put_file _ _ s2) as [er|s3] eqn:Hput; [done|].
  injection H3 as <- <-.
  destruct (put_file_spec _ _ _ _ Hput) as (-> & _).
  by rewrite lookup_insert_eq.
Qed.

Lemma init_updates_skill (args : list jsstring) (s s' : filesystem) o
    (dest : path) (e b : jsstring) :
  skillDest proc (is_global args) = Some dest →
  s !! dest = Some (File e) →
  skill_at s = Ok b →
  Cli.init proc args s = (Ok tt, s', o) →
  s' !! dest = Some (File b)
  ∧ (e = b → no_write_to dest o
             ∧ Stdout (lit "  SKILL.md already up to date") ∈ o)
  ∧ (e ≠ b → Write dest b ∈ o
             ∧ Stdout (lit "  Updated SKILL.md to v" ++ Cli.VERSION) ∈ o).
Proof.
  unfold skillDest. destruct (Cli.skillDir proc (is_global args)) as [dir|] eqn:Hdir; [|done].
  intros [= <-] He Hb Hrun.
  apply init_inv in Hrun
    as [(o1 & H1 & Hr & ->)
       |[(o1 & H1 & Hf & ->)
       |[(s1 & o1 & sc & o2 & H1 & Ha & H2 & Hr & ->)
       |[(s1 & o1 & sc & o2 & H1 & Ha & H2 & Hf & ->)
       |(s1 & o1 & sc & s2 & o2 & bc & o3 & H1 & Ha & H2 & Hb' & H3 & ->)]]]];
    try done.
  { by destruct (skill_at s'). }
  { by destruct (boot_at s'). }
  apply init_priors_run in H1 as (E1 & W1 & _).
  assert (path_join dir [lit "SKILL.md"] ∉ [path_join (Cli.priorsDir proc) [lit ".gitkeep"]]) as N1.
  { intros Hin. apply list_elem_of_singleton in Hin. revert Hin. path_neq. }
  assert (sc = b) as ->.
  { assert (skill_at s = Ok sc) as Hs; [|congruence].
    eapply asset_at_back; [exact E1 | | | done];
      intros Hin; apply list_elem_of_singleton in Hin; revert Hin; path_neq. }
  pose proof (evolves_file_outside _ _ _ _ _ E1 N1 He) as He1.
  apply (init_skill_inv (is_global args) dir Hdir) in H2
    as [(er & _ & _ & ? & _) | (s1' & oa & ob & Hd1 & Ev & _ & Wa & Hc & ->)]; [done|].
  assert (s1' !! path_join dir [lit "SKILL.md"] = Some (File e)) as He1'.
  { eapply evolves_file_outside; [exact Ev | | done]. intros Hin. by apply elem_of_nil in Hin. }
  pose proof (copy_skill_existing (is_global args) dir _ _ _ _ _ He1' Hc) as [Hsame Hdiff].
  apply copy_skill_run in Hc as (_ & _ & Hc & _). specialize (Hc eq_refl).
  apply init_bootstrap_run in H3 as (E3 & W3 & _).
  assert (path_join dir [lit "SKILL.md"] ∉ [I s2]) as N3.
  { intros Hin. apply list_elem_of_singleton in Hin. revert Hin.
    destruct (instructionFile_cases s2) as [-> | ->]; path_neq. }
  split_and!.
  - by eapply evolves_file_outside.
  - intros ->. destruct (Hsame eq_refl) as [_ ->]. split.
    + intros x Hin. unfold init_header, init_footer in Hin.
      events_in Hin; try done.
      * apply W1 in Hin. apply N1. rewrite Hin. apply list_elem_of_here.
      * by apply Wa in Hin.
      * apply W3 in Hin. apply N3. rewrite Hin. apply list_elem_of_here.
    + rewrite !elem_of_app. right; right; left. right. apply list_elem_of_here.
  - intros Hne. rewrite (Hdiff Hne). split.
    + rewrite !elem_of_app. right; right; left. right. apply list_elem_of_here.
    + rewrite !elem_of_app. right; right; left. right.
      apply list_elem_of_further, list_elem_of_here.
Qed.

(** The filesystem [init] leaves, stage by stage. *)
Lemma init_fs_of (args : list jsstring) (s : filesystem) :
  fs_of (Cli.init proc args s)
  = match Cli.init_priors proc s with
    | (Ok _, s1, _) =>
        match skill_at s1 with
        | Ok sc =>
            match Cli.init_skill proc (is_global args) sc s1 with
            | (Ok _, s2, _) =>
                match boot_at s2 with
                | Ok bc => fs_of (Cli.init_bootstrap proc bc s2)
                | _ => s2
                end
            | (_, s2, _) => s2
            end
        | _ => s1
        end
    | (_, s1, _) => s1
    end.
Proof.
  unfold Cli.init.
  unfold bind at 1. unfold Console.log at 1. unfold emit at 1.
  unfold bind at 1. unfold Console.log at 1. unfold emit at 1.
  unfold bind at 1.
  destruct (Cli.init_priors proc s) as [[r1 s1] o1].
  destruct r1 as [[]|code|e]; [|done..].
  unfold bind at 1. rewrite readAsset_eq.
  destruct (skill_at s1) as [sc|code|e]; [|done..].
  unfold bind at 1.
  destruct (Cli.init_skill proc (is_global args) sc s1) as [[r2 s2] o2].
  destruct r2 as [[]|code|e]; [|done..].
  unfold bind at 1. rewrite readAsset_eq.
  destruct (boot_at s2) as [bc|code|e]; [|done..].
  unfold bind at 1.
  destruct (Cli.init_bootstrap proc bc s2) as [[r3 s3] o3].
  unfold Console.log, emit.
  by destruct r3 as [[]|code|e].
Qed.

Lemma marker_survives_trim (b : jsstring) :
  includes b Cli.PRIORS_MARKER = true → includes (trim b) Cli.PRIORS_MARKER = true.
Proof.
  intros H. unfold trim.
  assert (Cli.PRIORS_MARKER = [35; 35; 32; 80; 114; 105; 111; 114] ++ [115]) as E
    by (vm_compute; reflexivity).
  rewrite E. apply includes_trimEnd; [done|]. simpl.
  apply includes_trimStart; [done|]. by rewrite E in H.
Qed.

(** A second run of the steps that completed finds them done. *)
Lemma init_skill_again (global : bool) (sc : jsstring) (s1 s2 t : filesystem) o2
    (T : list path) :
  Cli.init_skill proc global sc s1 = (Ok tt, s2, o2) →
  evolves T s2 t →
  (∀ dir, Cli.skillDir proc global = Some dir → path_join dir [lit "SKILL.md"] ∉ T) →
  ∃ o, Cli.init_skill proc global sc t = (Ok tt, t, o).
Proof.
  intros H2 Hev HT.
  destruct (Cli.skillDir proc global) as [dir|] eqn:Hdir.
  - apply (init_skill_run global dir Hdir) in H2 as (_ & _ & Hok & _).
    destruct (Hok eq_refl) as [Hd HD].
    eexists. apply (init_skill_settled global dir Hdir).
    + by eapply evolves_exists.
    + eapply evolves_file_outside; [done | by apply HT | done].
  - by rewrite init_skill_none in H2.
Qed.

Lemma init_priors_again (s s1 t : filesystem) o1 (T : list path) :
  Cli.init_priors proc s = (Ok tt, s1, o1) →
  evolves T s1 t →
  ∃ o, Cli.init_priors proc t = (Ok tt, t, o).
Proof.
  intros H1 Hev. apply init_priors_run in H1 as (_ & _ & Hok & _).
  eexists. apply init_priors_settled. eapply evolves_exists; [done|]. by apply Hok.
Qed.

Lemma init_twice (args : list jsstring) (s : filesystem) :
  well_formed s →
  (∀ b, boot_at s = Ok b → includes b Cli.PRIORS_MARKER = true) →
  fs_of (Cli.init proc args (fs_of (Cli.init proc args s)))
  = fs_of (Cli.init proc args s).
Proof.
  intros Hwf Hmark.
  destruct (Cli.init proc args s) as [[r F] o] eqn:Hrun.
  unfold fs_of at 2 3. simpl.
  destruct (assets_not_early (is_global args)) as (NS & NSA & NB & NBA).
  pose proof Hrun as Hinv. apply init_inv in Hinv
    as [(o1 & H1 & Hr & ->)
       |[(o1 & H1 & Hf & ->)
       |[(s1 & o1 & sc & o2 & H1 & Ha & H2 & Hr & ->)
       |[(s1 & o1 & sc & o2 & H1 & Ha & H2 & Hf & ->)
       |(s1 & o1 & sc & s2 & o2 & bc & o3 & H1 & Ha & H2 & Hb & H3 & ->)]]]].
  - (* the first step failed: nothing was done *)
    apply init_priors_run in H1 as (_ & _ & _ & Hsame).
    pose proof (Hsame Hwf Hr) as ->. by rewrite Hrun.
  - (* no reference document to copy *)
    rewrite init_fs_of.
    destruct (init_priors_again _ _ F _ [] H1 (evolves_refl _ _)) as [o' ->].
    by destruct (skill_at F).
  - (* the second step failed *)
    rewrite init_fs_of.
    pose proof (init_skill_early _ _ _ _ _ _ H2) as [E2 _].
    destruct (init_priors_again _ _ F _ _ H1 E2) as [o' ->].
    destruct (asset_at_evolves _ _ _ _ _ _ E2 NS NSA Ha) as [-> | [e ->]]; [|done].
    destruct (Cli.skillDir proc (is_global args)) as [dir|] eqn:Hdir.
    + apply (init_skill_run _ dir Hdir) in H2 as (_ & _ & _ & Hfail).
      destruct (Hfail Hr) as (r' & o'' & -> & Hr'). by destruct r' as [[]| |].
    + by rewrite init_skill_none.
  - (* no bootstrap fragment to append *)
    rewrite init_fs_of.
    pose proof (init_skill_early _ _ _ _ _ _ H2) as [E2 _].
    destruct (init_priors_again _ _ F _ _ H1 E2) as [o' ->].
    destruct (asset_at_evolves _ _ _ _ _ _ E2 NS NSA Ha) as [-> | [e ->]]; [|done].
    destruct (init_skill_again _ _ _ _ F _ [] H2 (evolves_refl _ _)) as [o'' ->].
    { intros dir _ Hin. by apply elem_of_nil in Hin. }
    by destruct (boot_at F).
  - (* the third step was reached *)
    rewrite init_fs_of.
    pose proof (init_priors_early (is_global args) _ _ _ _ H1) as [E1 _].
    pose proof (init_skill_early _ _ _ _ _ _ H2) as [E2 _].
    pose proof (init_bootstrap_run _ _ _ _ _ H3) as (E3 & _ & Hfail & Hok).
    assert (evolves (I s2 :: early_targets proc (is_global args)) s1 F) as E23.
    { eapply evolves_trans; (eapply evolves_weaken; [|done]).
      - intros x Hx. by apply list_elem_of_further.
      - intros x Hx. apply list_elem_of_singleton in Hx as ->. apply list_elem_of_here. }
    destruct (init_priors_again _ _ F _ _ H1 E23) as [o' ->].
    destruct (assets_not_instruction s2) as (IS & ISA & IB & IBA).
    assert (∀ A, A ∉ early_targets proc (is_global args) → A ≠ I s2 →
                 A ∉ I s2 :: early_targets proc (is_global args)) as Hout.
    { intros A HA HA' Hin. apply elem_of_cons in Hin as [Hin | Hin]; done. }
    destruct (asset_at_evolves _ _ _ _ _ _ E23 (Hout _ NS IS) (Hout _ NSA ISA) Ha)
      as [-> | [e ->]]; [|done].
    destruct (init_skill_again _ _ _ _ F _ [I s2] H2 E3) as [o'' ->].
    { intros dir Hdir Hin. apply list_elem_of_singleton in Hin. revert Hin.
      destruct (instructionFile_cases s2) as [-> | ->]; path_neq. }
    destruct r as [[]|code|e].
    + (* appended, created or already there: the marker is in the file *)
      destruct (Hok eq_refl) as (F1 & e' & He' & Hinc).
      assert (includes e' Cli.PRIORS_MARKER = true) as Hm.
      { apply Hinc, marker_survives_trim, Hmark.
        eapply asset_at_back; [eapply evolves_trans; [exact E1 | exact E2] | done..]. }
      destruct (boot_at F) as [bc'| |]; [|done..].
      rewrite init_bootstrap_eq. rewrite F1, He', Hm. done.
    + pose proof (Hfail ltac:(done)) as ->. by rewrite Hb, H3.
    + pose proof (Hfail ltac:(done)) as ->. by rewrite Hb, H3.
Qed.

(** *** Where [init] may change the filesystem *)

Lemma init_priors_frame (s s' : filesystem) r o :
  Cli.init_priors proc s = (r, s', o) →
  same_outside (fun q => q `suffix_of` P ∨ q = G) s s'.
Proof.
  unfold Cli.init_priors. unfold_prims.
  destruct (s !! P) as [n|] eqn:HP; simpl.
  { intros [= <- <- <-]. apply same_outside_refl. }
  destruct (mkdirp P s) as [e|s1] eqn:Hm; simpl.
  { intros [= <- <- <-]. apply same_outside_refl. }
  apply mkdirp_same_outside in Hm.
  destruct (put_file G [] s1) as [e|s2] eqn:Hw; simpl; intros [= <- <- <-].
  - eapply same_outside_weaken; [|exact Hm]. auto.
  - eapply same_outside_trans; [exact Hm | by eapply put_file_same_outside].
Qed.

Lemma copy_skill_frame (global : bool) (D : path) (c : jsstring) (s s' : filesystem) r o :
  Cli.copy_skill global D c s = (r, s', o) → same_outside (fun q => q = D) s s'.
Proof.
  unfold Cli.copy_skill. unfold_prims.
  destruct (s !! D) as [[e|]|] eqn:HD; simpl; rewrite ?HD; simpl.
  - destruct (decide (e = c)) as [->|Hne]; simpl.
    + intros [= <- <- <-]. apply same_outside_refl.
    + destruct (put_file D c s) as [ef|s2] eqn:Hw; simpl; intros [= <- <- <-];
        [apply same_outside_refl | by eapply put_file_same_outside].
  - intros [= <- <- <-]. apply same_outside_refl.
  - destruct (put_file D c s) as [ef|s2] eqn:Hw; simpl; intros [= <- <- <-];
      [apply same_outside_refl | by eapply put_file_same_outside].
Qed.

Lemma init_skill_frame (global : bool) (dir : path) (c : jsstring) (s s' : filesystem) r o :
  Cli.skillDir proc global = Some dir →
  Cli.init_skill proc global c s = (r, s', o) →
  same_outside (fun q => q `suffix_of` dir ∨ q = path_join dir [lit "SKILL.md"]) s s'.
Proof.
  intros Hdir. unfold Cli.init_skill. rewrite Hdir.
  unfold bind at 1. unfold bind at 1. unfold Fs.existsSync, exists_at.
  destruct (s !! dir) as [n|] eqn:Hd; simpl.
  - unfold ret.
    destruct (Cli.copy_skill global _ c s) as [[rr ss] oo] eqn:Hc.
    intros [= <- <- <-]. apply copy_skill_frame in Hc.
    eapply same_outside_weaken; [|exact Hc]. auto.
  - unfold Fs.mkdirSync. destruct (mkdirp dir s) as [e|s1] eqn:Hm.
    + intros [= <- <- <-]. apply same_outside_refl.
    + destruct (Cli.copy_skill global _ c s1) as [[rr ss] oo] eqn:Hc.
      intros [= <- <- <-]. apply copy_skill_frame in Hc.
      eapply same_outside_trans; [by eapply mkdirp_same_outside | exact Hc].
Qed.

Lemma init_bootstrap_frame (b : jsstring) (s s' : filesystem) r o :
  Cli.init_bootstrap proc b s = (r, s', o) →
  same_outside (fun q => q = path_join (Cli.cwd proc) [lit "CLAUDE.md"]
                         ∨ q = path_join (Cli.cwd proc) [lit "AGENTS.md"]) s s'.
Proof.
  rewrite init_bootstrap_eq. intros Hrun.
  assert (same_outside (fun q => q = I s) s s') as H.
  { destruct (s !! (I s)) as [[e|]|].
    - destruct (includes e Cli.PRIORS_MARKER).
      + injection Hrun as <- <- <-. apply same_outside_refl.
      + destruct (put_file _ _ s) as [er|s2] eqn:Hw; injection Hrun as <- <- <-;
          [apply same_outside_refl | by eapply put_file_same_outside].
    - injection Hrun as <- <- <-. apply same_outside_refl.
    - destruct (put_file _ _ s) as [er|s2] eqn:Hw; injection Hrun as <- <- <-;
        [apply same_outside_refl | by eapply put_file_same_outside]. }
  eapply same_outside_weaken; [|exact H].
  intros q ->. destruct (instructionFile_cases s) as [-> | ->]; auto.
Qed.

Lemma init_skill_late (global : bool) (c : jsstring) (s s' : filesystem) r o :
  Cli.init_skill proc global c s = (r, s', o) →
  same_outside (late_touched proc global) s s'.
Proof.
  intros H. destruct (Cli.skillDir proc global) as [dir|] eqn:Hdir.
  - eapply same_outside_weaken; [|by eapply init_skill_frame].
    intros q Hq. left. eauto.
  - rewrite init_skill_none in H by done. injection H as <- <- <-.
    apply same_outside_refl.
Qed.

Lemma init_after_priors (args : list jsstring) (s s' : filesystem) r o :
  Cli.init proc args s = (r, s', o) →
  ∃ r1 s1 o1, Cli.init_priors proc s = (r1, s1, o1)
              ∧ same_outside (late_touched proc (is_global args)) s1 s'.
Proof.
  intros Hrun. apply init_inv in Hrun
    as [(o1 & H1 & Hr & ->)
       |[(o1 & H1 & Hf & ->)
       |[(s1 & o1 & sc & o2 & H1 & Ha & H2 & Hr & ->)
       |[(s1 & o1 & sc & o2 & H1 & Ha & H2 & Hf & ->)
       |(s1 & o1 & sc & s2 & o2 & bc & o3 & H1 & Ha & H2 & Hb & H3 & ->)]]]].
  - eexists _, _, _. split; [exact H1 | apply same_outside_refl].
  - eexists _, _, _. split; [exact H1 | apply same_outside_refl].
  - eexists _, _, _. split; [exact H1 | by eapply init_skill_late].
  - eexists _, _, _. split; [exact H1 | by eapply init_skill_late].
  - eexists _, _, _. split; [exact H1|].
    apply init_skill_late in H2. apply init_bootstrap_frame in H3.
    intros q Hq. rewrite H3, H2; [done | done |].
    intros Hq'. apply Hq. right. exact Hq'.
Qed.

(** A completed [init] leaves the bundled reference document in place. *)
Lemma init_installs_skill (args : list jsstring) (s s' : filesystem) o
    (dest : path) (b : jsstring) :
  skillDest proc (is_global args) = Some dest →
  skill_at s = Ok b →
  Cli.init proc args s = (Ok tt, s', o) →
  s' !! dest = Some (File b).
Proof.
  unfold skillDest. destruct (Cli.skillDir proc (is_global args)) as [dir|] eqn:Hdir; [|done].
  intros [= <-] Hb Hrun.
  apply init_inv in Hrun
    as [(o1 & H1 & Hr & ->)
       |[(o1 & H1 & Hf & ->)
       |[(s1 & o1 & sc & o2 & H1 & Ha & H2 & Hr & ->)
       |[(s1 & o1 & sc & o2 & H1 & Ha & H2 & Hf & ->)
       |(s1 & o1 & sc & s2 & o2 & bc & o3 & H1 & Ha & H2 & Hb' & H3 & ->)]]]];
    try done.
  { by destruct (skill_at s'). }
  { by destruct (boot_at s'). }
  apply init_priors_run in H1 as (E1 & W1 & _).
  assert (sc = b) as ->.
  { assert (skill_at s = Ok sc) as Hs; [|congruence].
    eapply asset_at_back; [exact E1 | | | done];
      intros Hin; apply list_elem_of_singleton in Hin; revert Hin; path_neq. }
  apply (init_skill_run _ dir Hdir) in H2 as (_ & _ & Hok & _).
  destruct (Hok eq_refl) as [_ HD].
  apply init_bootstrap_run in H3 as (E3 & _).
  eapply evolves_file_outside; [exact E3 | | exact HD].
  intros Hin. apply list_elem_of_singleton in Hin. revert Hin.
  destruct (instructionFile_cases s2) as [-> | ->]; path_neq.
Qed.

End CliSteps.

(** ** The steps of the shell script *)

Lemma bre_here_literal (pat s : jsstring) :
  46 ∉ pat → InstallSh.bre_here pat s = startsWith s pat.
Proof.
  revert s. induction pat as [|a pat IH]; intros s Hdot; [done|].
  destruct s as [|b s]; [done|]. simpl.
  destruct (N.eqb_spec a 46) as [->|_].
  - exfalso. apply Hdot, list_elem_of_here.
  - rewrite IH; [done|]. intros Hin. apply Hdot. by apply list_elem_of_further.
Qed.

(** For a pattern without dot, [grep] looks for the pattern as it is. *)
Lemma bre_search_literal (pat s : jsstring) :
  46 ∉ pat → InstallSh.bre_search pat s = includes s pat.
Proof.
  intros Hdot. induction s as [|c s IH]; unfold includes; simpl;
    rewrite bre_here_literal by done; [done|].
  fold includes. by rewrite IH.
Qed.

Lemma marker_has_no_dot : 46 ∉ InstallSh.PRIORS_MARKER.
Proof.
  assert (InstallSh.PRIORS_MARKER = [35; 35; 32; 80; 114; 105; 111; 114; 115]) as ->
    by (vm_compute; reflexivity).
  intros Hin. events_in Hin; done.
Qed.

Lemma bre_search_app_r (pat a b : jsstring) :
  InstallSh.bre_search pat b = true → InstallSh.bre_search pat (a ++ b) = true.
Proof.
  intros H. induction a as [|c a IH]; [done|]. simpl.
  rewrite IH. apply orb_true_r.
Qed.

Section ShSteps.

Variable cwd : path.

#[local] Abbreviation shP := (InstallSh.priorsDir cwd).
#[local] Abbreviation shG := (path_join (InstallSh.priorsDir cwd) [lit ".gitkeep"]).
#[local] Abbreviation shDir := (InstallSh.SKILL_DIR cwd).
#[local] Abbreviation shD := (path_join (InstallSh.SKILL_DIR cwd) [lit "SKILL.md"]).
#[local] Abbreviation shI s := (path_join cwd [sh_instructionFile cwd s]).
#[local] Abbreviation shIgn := (InstallSh.gitignore cwd).

Lemma step_priors_settled (s : filesystem) :
  s !! shP = Some Dir →
  InstallSh.step_priors cwd s
  = (Ok tt, s, [Stdout (lit "  .claude/priors/ already exists")]).
Proof.
  intros Hd. unfold InstallSh.step_priors. unfold_prims. by rewrite Hd.
Qed.

Lemma step_priors_run (s s' : filesystem) r o :
  InstallSh.step_priors cwd s = (r, s', o) →
  evolves [shG] s s'
  ∧ (∀ p c, Write p c ∈ o → p = shG)
  ∧ (r = Ok tt → s' !! shP = Some Dir)
  ∧ (well_formed s → r ≠ Ok tt → s' = s).
Proof.
  unfold InstallSh.step_priors. unfold_prims.
  destruct (s !! shP) as [[c|]|] eqn:HP; simpl.
  - rewrite (mkdirp_fails_on_file _ _ _ HP). simpl.
    intros [= <- <- <-].
    split_and!; [apply evolves_refl | by intros p x Hin; events_in Hin | done | done].
  - intros [= <- <- <-].
    split_and!; [apply evolves_refl | by intros p x Hin; events_in Hin | done | done].
  - destruct (mkdirp shP s) as [e|s1] eqn:Hm; simpl.
    { intros [= <- <- <-].
      split_and!; [apply evolves_refl | by intros p c Hin; events_in Hin | done | done]. }
    destruct (mkdirp_spec _ _ _ Hm) as [HP1 Hfr].
    destruct (s1 !! shG) as [n|] eqn:HG; simpl.
    + intros [= <- <- <-]. split_and!.
      * by eapply mkdirp_evolves.
      * intros p c Hin. events_in Hin; done.
      * done.
      * done.
    + destruct (put_file shG [] s1) as [e|s2] eqn:Hw; simpl.
      * intros [= <- <- <-]. split_and!.
        -- by eapply mkdirp_evolves.
        -- intros p c Hin. events_in Hin; done.
        -- done.
        -- intros _ _. exfalso.
           unfold put_file, path_join in Hw. simpl in Hw.
           unfold path_join in HG. simpl in HG.
           rewrite HG, HP1 in Hw. done.
      * intros [= <- <- <-]. split_and!.
        -- eapply evolves_trans; [by eapply mkdirp_evolves | by eapply put_file_evolves].
        -- intros p c Hin. events_in Hin; congruence.
        -- intros _. destruct (put_file_spec _ _ _ _ Hw) as (-> & _).
           rewrite lookup_insert_ne; [done | path_neq].
        -- done.
Qed.

(** [step_skill] in closed form. *)
Lemma step_skill_eq (s : filesystem) :
  InstallSh.step_skill cwd s
  = match mkdirp shDir s with
    | inl _ => (Exit 1, s, [Stderr (lit "mkdir: cannot create directory")])
    | inr s1 =>
        match s1 !! shD with
        | Some (File _) =>
            (Ok tt, s1, [Mkdir shDir; Stdout (lit "  SKILL.md already exists")])
        | _ =>
            match put_file shD InstallSh.SKILL_MD s1 with
            | inr s2 =>
                (Ok tt, s2,
                 [Mkdir shDir; Write shD InstallSh.SKILL_MD;
                  Stdout (lit "  Created .claude/skills/knowledge-extraction/SKILL.md")])
            | inl _ => (Exit 1, s1, [Mkdir shDir; Stderr (lit "cannot create file")])
            end
        end
    end.
Proof.
  unfold InstallSh.step_skill. unfold_prims.
  destruct (mkdirp shDir s) as [e|s1]; simpl; [done|].
  destruct (s1 !! shD) as [[c|]|]; simpl; [done| |];
    by destruct (put_file shD InstallSh.SKILL_MD s1).
Qed.

Lemma step_skill_run (s s' : filesystem) r o :
  InstallSh.step_skill cwd s = (r, s', o) →
  evolves [shD] s s'
  ∧ (∀ p x, Write p x ∈ o → p = shD ∧ s !! shD = None)
  ∧ (∀ c, s !! shD = Some (File c) → s' !! shD = Some (File c))
  ∧ (r = Ok tt → s' !! shDir = Some Dir ∧ is_file s' shD = true)
  ∧ (r ≠ Ok tt → ∃ r' o', InstallSh.step_skill cwd s' = (r', s', o') ∧ r' ≠ Ok tt).
Proof.
  rewrite step_skill_eq.
  destruct (mkdirp shDir s) as [e|s1] eqn:Hm.
  { intros [= <- <- <-].
    split_and!; [apply evolves_refl | by intros p x Hin; events_in Hin | done | done |].
    intros _. rewrite step_skill_eq, Hm. eauto. }
  destruct (mkdirp_spec _ _ _ Hm) as [Hd1 Hfr].
  assert (∀ c, s !! shD = Some (File c) → s1 !! shD = Some (File c)) as Hkeep.
  { intros c Hc. destruct (Hfr shD) as [E | (E & _)]; congruence. }
  destruct (s1 !! shD) as [[c|]|] eqn:HD.
  - intros [= <- <- <-]. split_and!.
    + by eapply mkdirp_evolves.
    + intros p x Hin; events_in Hin; done.
    + intros c' Hc'. rewrite <- (Hkeep c' Hc'). done.
    + intros _. unfold is_file. by rewrite HD.
    + done.
  - assert (put_file shD InstallSh.SKILL_MD s1 = inl (EISDIR shD)) as ->.
    { unfold put_file. by rewrite HD. }
    intros [= <- <- <-]. split_and!.
    + by eapply mkdirp_evolves.
    + intros p x Hin; events_in Hin; done.
    + intros c' Hc'. by specialize (Hkeep c' Hc').
    + done.
    + intros _. rewrite step_skill_eq, (mkdirp_dir _ _ Hd1), HD.
      assert (put_file shD InstallSh.SKILL_MD s1 = inl (EISDIR shD)) as ->.
      { unfold put_file. by rewrite HD. }
      eauto.
  - assert (s !! shD = None) as HD0.
    { destruct (Hfr shD) as [E | (E & _)]; congruence. }
    destruct (put_file shD InstallSh.SKILL_MD s1) as [e|s2] eqn:Hw.
    { exfalso. unfold put_file, path_join in Hw. simpl in Hw.
      unfold path_join in HD. simpl in HD. rewrite HD in Hw.
      unfold path_join in Hd1. simpl in Hd1. by rewrite Hd1 in Hw. }
    destruct (put_file_spec _ _ _ _ Hw) as (-> & _).
    intros [= <- <- <-]. split_and!.
    + eapply evolves_trans; [by eapply mkdirp_evolves | by eapply put_file_evolves].
    + intros p x Hin; events_in Hin; [done | | done]. by injection Hin as -> _.
    + intros c' Hc'. by specialize (Hkeep c' Hc').
    + intros _. unfold is_file. rewrite lookup_insert_eq.
      rewrite lookup_insert_ne by path_neq. done.
    + done.
Qed.

Lemma step_skill_settled (s : filesystem) :
  s !! shDir = Some Dir → is_file s shD = true →
  ∃ o, InstallSh.step_skill cwd s = (Ok tt, s, o).
Proof.
  intros Hd HD. rewrite step_skill_eq, (mkdirp_dir _ _ Hd).
  unfold is_file in HD. destruct (s !! shD) as [[c|]|]; [|done..]. eauto.
Qed.

Lemma INSTRUCTION_FILE_eq (s : filesystem) :
  InstallSh.INSTRUCTION_FILE cwd s = (Ok (sh_instructionFile cwd s), s, []).
Proof.
  unfold InstallSh.INSTRUCTION_FILE, sh_instructionFile. unfold_prims.
  destruct (s !! path_join cwd [lit "CLAUDE.md"]) as [[c|]|]; simpl; try done;
    destruct (s !! path_join cwd [lit "AGENTS.md"]) as [[c'|]|]; done.
Qed.

(** [step_bootstrap] in closed form. *)
Lemma step_bootstrap_eq (s : filesystem) :
  InstallSh.step_bootstrap cwd s
  = match s !! (shI s) with
    | Some (File e) =>
        if InstallSh.bre_search InstallSh.PRIORS_MARKER e then
          (Ok tt, s, [Stdout (lit "  " ++ sh_instructionFile cwd s
                              ++ lit " already has priors bootstrap")])
        else
          match put_file (shI s) (e ++ [NL] ++ InstallSh.BOOTSTRAP_TEXT ++ [NL]) s with
          | inr s' =>
              (Ok tt, s',
               [Write (shI s) (e ++ [NL] ++ InstallSh.BOOTSTRAP_TEXT ++ [NL]);
                Stdout (lit "  Appended priors bootstrap to " ++ sh_instructionFile cwd s)])
          | inl _ => (Exit 1, s, [Stderr (lit "cannot create file")])
          end
    | _ =>
        match put_file (shI s) (InstallSh.BOOTSTRAP_TEXT ++ [NL]) s with
        | inr s' =>
            (Ok tt, s',
             [Write (shI s) (InstallSh.BOOTSTRAP_TEXT ++ [NL]);
              Stdout (lit "  Created " ++ sh_instructionFile cwd s
                      ++ lit " with priors bootstrap")])
        | inl _ => (Exit 1, s, [Stderr (lit "cannot create file")])
        end
    end.
Proof.
  unfold InstallSh.step_bootstrap. unfold bind at 1. rewrite INSTRUCTION_FILE_eq.
  unfold_prims.
  destruct (s !! (shI s)) as [[e|]|] eqn:HI; simpl; repeat (rewrite HI; simpl).
  - destruct (InstallSh.bre_search InstallSh.PRIORS_MARKER e); simpl; [done|].
    repeat (rewrite HI; simpl). by destruct (put_file _ _ s).
  - by destruct (put_file _ _ s).
  - by destruct (put_file _ _ s).
Qed.

Lemma sh_instructionFile_cases (s : filesystem) :
  sh_instructionFile cwd s = lit "CLAUDE.md" ∨ sh_instructionFile cwd s = lit "AGENTS.md".
Proof.
  unfold sh_instructionFile.
  destruct (is_file s _); [by left|]. destruct (is_file s _); [by right | by left].
Qed.

(** The instruction file of the script depends on the two candidates only. *)
Lemma sh_instructionFile_ext (s t : filesystem) :
  is_file t (path_join cwd [lit "CLAUDE.md"]) = is_file s (path_join cwd [lit "CLAUDE.md"]) →
  is_file t (path_join cwd [lit "AGENTS.md"]) = is_file s (path_join cwd [lit "AGENTS.md"]) →
  sh_instructionFile cwd t = sh_instructionFile cwd s.
Proof. unfold sh_instructionFile. by intros -> ->. Qed.

Lemma sh_instructionFile_put (c : jsstring) (s s' : filesystem) :
  put_file (shI s) c s = inr s' → sh_instructionFile cwd s' = sh_instructionFile cwd s.
Proof.
  intros Hw. destruct (put_file_spec _ _ _ _ Hw) as (-> & Hnd & _).
  revert Hnd. unfold sh_instructionFile, is_file.
  destruct (s !! path_join cwd [lit "CLAUDE.md"]) as [[c1|]|] eqn:H1; simpl.
  - intros _. by rewrite lookup_insert_eq.
  - destruct (s !! path_join cwd [lit "AGENTS.md"]) as [[c2|]|] eqn:H2; simpl.
    + intros _. rewrite lookup_insert_ne by path_neq. rewrite H1.
      by rewrite lookup_insert_eq.
    + by rewrite H1.
    + by rewrite H1.
  - destruct (s !! path_join cwd [lit "AGENTS.md"]) as [[c2|]|] eqn:H2; simpl.
    + intros _. rewrite lookup_insert_ne by path_neq. rewrite H1.
      by rewrite lookup_insert_eq.
    + intros _. by rewrite lookup_insert_eq.
    + intros _. by rewrite lookup_insert_eq.
Qed.

Lemma step_bootstrap_run (s s' : filesystem) r o :
  InstallSh.step_bootstrap cwd s = (r, s', o) →
  evolves [shI s] s s'
  ∧ (s' = s ∨ ∃ c, s' = <[shI s := File c]> s)
  ∧ (∀ p x, Write p x ∈ o → p = shI s)
  ∧ (r ≠ Ok tt → s' = s)
  ∧ (r = Ok tt →
     sh_instructionFile cwd s' = sh_instructionFile cwd s
     ∧ ∃ e, s' !! (shI s) = Some (File e)
            ∧ InstallSh.bre_search InstallSh.PRIORS_MARKER e = true).
Proof.
  assert (InstallSh.bre_search InstallSh.PRIORS_MARKER
            ([NL] ++ InstallSh.BOOTSTRAP_TEXT ++ [NL]) = true) as Hbt
    by (vm_compute; reflexivity).
  assert (InstallSh.bre_search InstallSh.PRIORS_MARKER
            (InstallSh.BOOTSTRAP_TEXT ++ [NL]) = true) as Hbt'
    by (vm_compute; reflexivity).
  rewrite step_bootstrap_eq.
  assert (∀ c r' o', match put_file (shI s) c s with
                     | inr s2 => (Ok tt, s2, [Write (shI s) c; Stdout o'])
                     | inl _ => (Exit 1, s, [Stderr r'])
                     end = (r, s', o) →
          InstallSh.bre_search InstallSh.PRIORS_MARKER c = true →
          evolves [shI s] s s'
          ∧ (s' = s ∨ ∃ c, s' = <[shI s := File c]> s)
          ∧ (∀ p x, Write p x ∈ o → p = shI s)
          ∧ (r ≠ Ok tt → s' = s)
          ∧ (r = Ok tt →
             sh_instructionFile cwd s' = sh_instructionFile cwd s
             ∧ ∃ e, s' !! (shI s) = Some (File e)
                    ∧ InstallSh.bre_search InstallSh.PRIORS_MARKER e = true)) as Hput.
  { intros c r' o' Hrun Hc.
    destruct (put_file (shI s) c s) as [er|s2] eqn:Hw; injection Hrun as <- <- <-.
    - split_and!; [apply evolves_refl | by left | by intros p x Hin; events_in Hin | done | done].
    - split_and!.
      + by eapply put_file_evolves.
      + right. exists c. by destruct (put_file_spec _ _ _ _ Hw).
      + intros p x Hin. events_in Hin; congruence.
      + done.
      + intros _. split; [by eapply sh_instructionFile_put|].
        destruct (put_file_spec _ _ _ _ Hw) as (-> & _).
        rewrite lookup_insert_eq. eauto. }
  destruct (s !! (shI s)) as [[e|]|] eqn:HI.
  - destruct (InstallSh.bre_search InstallSh.PRIORS_MARKER e) eqn:Hinc.
    + intros [= <- <- <-].
      split_and!; [apply evolves_refl | by left | by intros p x Hin; events_in Hin | done |].
      intros _. split; [done|]. eauto.
    + intros Hrun. apply Hput in Hrun; [exact Hrun|].
      apply bre_search_app_r. exact Hbt.
  - intros Hrun. apply Hput in Hrun; [exact Hrun | exact Hbt'].
  - intros Hrun. apply Hput in Hrun; [exact Hrun | exact Hbt'].
Qed.

(** [step_gitignore] in closed form. *)
Lemma step_gitignore_eq (shared : bool) (s : filesystem) :
  InstallSh.step_gitignore cwd shared s
  = if shared then (Ok tt, s, [Stdout (lit "  --shared: priors will be git-tracked")])
    else
      match s !! shIgn with
      | Some (File e) =>
          if InstallSh.bre_search (lit ".claude/priors/") e then
            (Ok tt, s, [Stdout (lit "  .gitignore already excludes priors")])
          else
            match put_file shIgn (e ++ [NL] ++ InstallSh.ignore_rule) s with
            | inr s' =>
                (Ok tt, s',
                 [Write shIgn (e ++ [NL] ++ InstallSh.ignore_rule);
                  Stdout (lit "  Added .claude/priors/ to .gitignore")])
            | inl _ => (Exit 1, s, [Stderr (lit "cannot create file")])
            end
      | _ =>
          match put_file shIgn InstallSh.ignore_rule s with
          | inr s' =>
              (Ok tt, s',
               [Write shIgn InstallSh.ignore_rule;
                Stdout (lit "  Created .gitignore with priors exclusion")])
          | inl _ => (Exit 1, s, [Stderr (lit "cannot create file")])
          end
      end.
Proof.
  unfold InstallSh.step_gitignore. destruct shared; simpl; [done|].
  unfold_prims.
  destruct (s !! shIgn) as [[e|]|] eqn:HI; simpl; repeat (rewrite HI; simpl).
  - destruct (InstallSh.bre_search (lit ".claude/priors/") e); simpl; [done|].
    repeat (rewrite HI; simpl). by destruct (put_file _ _ s).
  - by destruct (put_file _ _ s).
  - by destruct (put_file _ _ s).
Qed.

Lemma ignore_rule_matches :
  InstallSh.bre_search (lit ".claude/priors/") InstallSh.ignore_rule = true.
Proof. vm_compute. reflexivity. Qed.

Lemma step_gitignore_run (shared : bool) (s s' : filesystem) r o :
  InstallSh.step_gitignore cwd shared s = (r, s', o) →
  evolves [shIgn] s s'
  ∧ (s' = s ∨ ∃ c, s' = <[shIgn := File c]> s)
  ∧ (∀ p x, Write p x ∈ o → p = shIgn)
  ∧ fs_of (InstallSh.step_gitignore cwd shared s') = s'.
Proof.
  rewrite step_gitignore_eq. destruct shared.
  { intros [= <- <- <-].
    split_and!; [apply evolves_refl | by left | by intros p x Hin; events_in Hin |].
    by rewrite step_gitignore_eq. }
  assert (∀ c r' o', match put_file shIgn c s with
                     | inr s2 => (Ok tt, s2, [Write shIgn c; Stdout o'])
                     | inl _ => (Exit 1, s, [Stderr r'])
                     end = (r, s', o) →
          InstallSh.bre_search (lit ".claude/priors/") c = true →
          (r ≠ Ok tt → fs_of (InstallSh.step_gitignore cwd false s) = s) →
          evolves [shIgn] s s'
          ∧ (s' = s ∨ ∃ c, s' = <[shIgn := File c]> s)
          ∧ (∀ p x, Write p x ∈ o → p = shIgn)
          ∧ fs_of (InstallSh.step_gitignore cwd false s') = s') as Hput.
  { intros c r' o' Hrun Hc Hagain.
    destruct (put_file shIgn c s) as [er|s2] eqn:Hw; injection Hrun as <- <- <-.
    - split_and!; [apply evolves_refl | by left | by intros p x Hin; events_in Hin |].
      by apply Hagain.
    - split_and!.
      + by eapply put_file_evolves.
      + right. exists c. by destruct (put_file_spec _ _ _ _ Hw).
      + intros p x Hin. events_in Hin; congruence.
      + destruct (put_file_spec _ _ _ _ Hw) as (-> & _).
        rewrite step_gitignore_eq. rewrite lookup_insert_eq. rewrite Hc. reflexivity. }
  destruct (s !! shIgn) as [[e|]|] eqn:HI.
  - destruct (InstallSh.bre_search (lit ".claude/priors/") e) eqn:Hinc.
    + intros [= <- <- <-].
      split_and!; [apply evolves_refl | by left | by intros p x Hin; events_in Hin |].
      rewrite step_gitignore_eq, HI, Hinc. reflexivity.
    + intros Hrun. eapply Hput; [exact Hrun | |].
      * apply bre_search_app_r, bre_search_app_r. exact ignore_rule_matches.
      * intros Hr. rewrite step_gitignore_eq, HI, Hinc.
        destruct (put_file shIgn _ s) as [er|s2] eqn:Hw; [reflexivity|].
        by injection Hrun as <- _ _.
  - intros Hrun. eapply Hput; [exact Hrun | exact ignore_rule_matches |].
    intros Hr. rewrite step_gitignore_eq, HI.
    destruct (put_file shIgn _ s) as [er|s2] eqn:Hw; [reflexivity|].
    by injection Hrun as <- _ _.
  - intros Hrun. eapply Hput; [exact Hrun | exact ignore_rule_matches |].
    intros Hr. rewrite step_gitignore_eq, HI.
    destruct (put_file shIgn _ s) as [er|s2] eqn:Hw; [reflexivity|].
    by injection Hrun as <- _ _.
Qed.

(** The arguments are read without touching the filesystem. *)
Lemma parse_args_pure (args : list jsstring) (shared : bool) (s : filesystem) :
  ∃ r o, (∀ t, InstallSh.parse_args args shared t = (r, t, o))
         ∧ (r = Exit 0 ∨ ∃ b, r = Ok b).
Proof.
  revert shared. induction args as [|a args IH]; intros shared; simpl.
  - exists (Ok shared), []. split; [done | eauto].
  - destruct (decide (a = lit "--shared")); [apply IH|].
    destruct (bool_decide (a = lit "--help") || bool_decide (a = lit "-h")); [|apply IH].
    eexists (Exit 0), _. split; [|by left].
    intros t. unfold InstallSh.usage. unfold_prims. reflexivity.
Qed.

Lemma parse_args_quiet (args : list jsstring) (shared : bool) (s s' : filesystem) r o :
  InstallSh.parse_args args shared s = (r, s', o) → ∀ p x, Write p x ∉ o.
Proof.
  revert shared. induction args as [|a args IH]; intros shared; simpl.
  - intros [= <- <- <-] p x Hin. by apply elem_of_nil in Hin.
  - destruct (decide (a = lit "--shared")); [apply IH|].
    destruct (bool_decide (a = lit "--help") || bool_decide (a = lit "-h")); [|apply IH].
    unfold InstallSh.usage. unfold_prims. intros [= <- <- <-] p x Hin.
    events_in Hin; done.
Qed.

(** The runs of the script, by the step they stop at. *)
Lemma install_inv (args : list jsstring) (s s' : filesystem) r o :
  InstallSh.install cwd args s = (r, s', o) →
  (s' = s ∧ r = Exit 0 ∧ InstallSh.parse_args args false s = (Exit 0, s, o))
  ∨ ∃ shared o0,
      InstallSh.parse_args args false s = (Ok shared, s, o0)
      ∧ ((∃ o1, InstallSh.step_priors cwd s = (r, s', o1) ∧ r ≠ Ok tt
                ∧ o = o0 ++ install_header cwd ++ o1)
         ∨ (∃ s1 o1 o2,
               InstallSh.step_priors cwd s = (Ok tt, s1, o1)
               ∧ InstallSh.step_skill cwd s1 = (r, s', o2) ∧ r ≠ Ok tt
               ∧ o = o0 ++ install_header cwd ++ o1 ++ o2)
         ∨ (∃ s1 o1 s2 o2 o3,
               InstallSh.step_priors cwd s = (Ok tt, s1, o1)
               ∧ InstallSh.step_skill cwd s1 = (Ok tt, s2, o2)
               ∧ InstallSh.step_bootstrap cwd s2 = (r, s', o3) ∧ r ≠ Ok tt
               ∧ o = o0 ++ install_header cwd ++ o1 ++ o2 ++ o3)
         ∨ (∃ s1 o1 s2 o2 s3 o3 o4,
               InstallSh.step_priors cwd s = (Ok tt, s1, o1)
               ∧ InstallSh.step_skill cwd s1 = (Ok tt, s2, o2)
               ∧ InstallSh.step_bootstrap cwd s2 = (Ok tt, s3, o3)
               ∧ InstallSh.step_gitignore cwd shared s3 = (r, s', o4)
               ∧ o = o0 ++ install_header cwd ++ o1 ++ o2 ++ o3 ++ o4
                     ++ match r with Ok _ => install_footer | _ => [] end)).
Proof.
  unfold InstallSh.install, install_header, install_footer.
  unfold bind at 1.
  destruct (parse_args_pure args false s) as (r0 & o0 & Hp & Hr0).
  rewrite (Hp s).
  destruct Hr0 as [-> | [shared ->]].
  { intros [= <- <- <-]. by left. }
  intros Hrun. right. exists shared, o0. split; [done|]. revert Hrun.
  unfold bind at 1. unfold InstallSh.echo at 1. unfold emit at 1.
  unfold bind at 1. unfold InstallSh.echo at 1. unfold emit at 1.
  unfold bind at 1. unfold InstallSh.echo at 1. unfold emit at 1.
  unfold bind at 1. unfold InstallSh.echo at 1. unfold emit at 1.
  unfold bind at 1.
  destruct (InstallSh.step_priors cwd s) as [[r1 s1] o1] eqn:H1.
  destruct r1 as [[]|code|e]; [|intros [= <- <- <-]; left; by eexists..].
  unfold bind at 1.
  destruct (InstallSh.step_skill cwd s1) as [[r2 s2] o2] eqn:H2.
  destruct r2 as [[]|code|e];
    [|intros [= <- <- <-]; right; left; by exists s1, o1, o2..].
  unfold bind at 1.
  destruct (InstallSh.step_bootstrap cwd s2) as [[r3 s3] o3] eqn:H3.
  destruct r3 as [[]|code|e];
    [|intros [= <- <- <-]; right; right; left; by exists s1, o1, s2, o2, o3..].
  unfold bind at 1.
  destruct (InstallSh.step_gitignore cwd shared s3) as [[r4 s4] o4] eqn:H4.
  unfold bind, InstallSh.echo, emit.
  destruct r4 as [[]|code|e]; intros [= <- <- <-];
    right; right; right; exists s1, o1, s2, o2, s3, o3, o4;
    simpl; rewrite ?app_nil_r; done.
Qed.

(** The filesystem the script leaves, step by step. *)
Lemma install_fs_of (args : list jsstring) (s : filesystem) (shared : bool) o0 :
  InstallSh.parse_args args false s = (Ok shared, s, o0) →
  fs_of (InstallSh.install cwd args s)
  = match InstallSh.step_priors cwd s with
    | (Ok _, s1, _) =>
        match InstallSh.step_skill cwd s1 with
        | (Ok _, s2, _) =>
            match InstallSh.step_bootstrap cwd s2 with
            | (Ok _, s3, _) => fs_of (InstallSh.step_gitignore cwd shared s3)
            | (_, s3, _) => s3
            end
        | (_, s2, _) => s2
        end
    | (_, s1, _) => s1
    end.
Proof.
  intros Hp. unfold InstallSh.install. unfold bind at 1. rewrite Hp.
  unfold bind at 1. unfold InstallSh.echo at 1. unfold emit at 1.
  unfold bind at 1. unfold InstallSh.echo at 1. unfold emit at 1.
  unfold bind at 1. unfold InstallSh.echo at 1. unfold emit at 1.
  unfold bind at 1. unfold InstallSh.echo at 1. unfold emit at 1.
  unfold bind at 1.
  destruct (InstallSh.step_priors cwd s) as [[r1 s1] o1].
  destruct r1 as [[]|code|e]; [|done..].
  unfold bind at 1.
  destruct (InstallSh.step_skill cwd s1) as [[r2 s2] o2].
  destruct r2 as [[]|code|e]; [|done..].
  unfold bind at 1.
  destruct (InstallSh.step_bootstrap cwd s2) as [[r3 s3] o3].
  destruct r3 as [[]|code|e]; [|done..].
  unfold bind at 1.
  destruct (InstallSh.step_gitignore cwd shared s3) as [[r4 s4] o4].
  unfold bind, InstallSh.echo, emit.
  by destruct r4 as [[]|code|e].
Qed.

Lemma is_file_insert_ne (s : filesystem) (p q : path) (c : jsstring) :
  p ≠ q → is_file (<[p := File c]> s) q = is_file s q.
Proof. intros H. unfold is_file. by rewrite lookup_insert_ne. Qed.

Lemma install_twice (args : list jsstring) (s : filesystem) :
  well_formed s →
  fs_of (InstallSh.install cwd args (fs_of (InstallSh.install cwd args s)))
  = fs_of (InstallSh.install cwd args s).
Proof.
  intros Hwf.
  destruct (InstallSh.install cwd args s) as [[r F] o] eqn:Hrun.
  unfold fs_of at 2 3. simpl.
  destruct (parse_args_pure args false s) as (r0 & o0' & Hp & _).
  pose proof Hrun as Hinv. apply install_inv in Hinv
    as [(-> & -> & Hp0)
       |(shared & o0 & Hp0 &
         [(o1 & H1 & Hr & ->)
         |[(s1 & o1 & o2 & H1 & H2 & Hr & ->)
         |[(s1 & o1 & s2 & o2 & o3 & H1 & H2 & H3 & Hr & ->)
         |(s1 & o1 & s2 & o2 & s3 & o3 & o4 & H1 & H2 & H3 & H4 & ->)]]])].
  - by rewrite Hrun.
  - apply step_priors_run in H1 as (_ & _ & _ & Hsame).
    pose proof (Hsame Hwf Hr) as ->. by rewrite Hrun.
  - assert (InstallSh.parse_args args false F = (Ok shared, F, o0)) as HpF.
    { rewrite (Hp F). rewrite (Hp s) in Hp0. by injection Hp0 as -> ->. }
    rewrite (install_fs_of _ _ _ _ HpF).
    apply step_priors_run in H1 as (_ & _ & HP & _).
    apply step_skill_run in H2 as (E2 & _ & _ & _ & Hfail).
    rewrite (step_priors_settled F) by (eapply evolves_dir; [exact E2 | by apply HP]).
    destruct (Hfail Hr) as (r' & o' & -> & Hr'). by destruct r' as [[]| |].
  - assert (InstallSh.parse_args args false F = (Ok shared, F, o0)) as HpF.
    { rewrite (Hp F). rewrite (Hp s) in Hp0. by injection Hp0 as -> ->. }
    rewrite (install_fs_of _ _ _ _ HpF).
    apply step_priors_run in H1 as (_ & _ & HP & _).
    apply step_skill_run in H2 as (E2 & _ & _ & Hok & _).
    pose proof H3 as H3'.
    apply step_bootstrap_run in H3' as (_ & _ & _ & Hsame & _).
    pose proof (Hsame Hr) as ->.
    rewrite (step_priors_settled s2) by (eapply evolves_dir; [exact E2 | by apply HP]).
    destruct (Hok eq_refl) as [Hd HD].
    destruct (step_skill_settled s2 Hd HD) as [o' ->].
    rewrite H3. by destruct r as [[]| |].
  - assert (InstallSh.parse_args args false F = (Ok shared, F, o0)) as HpF.
    { rewrite (Hp F). rewrite (Hp s) in Hp0. by injection Hp0 as -> ->. }
    rewrite (install_fs_of _ _ _ _ HpF).
    apply step_priors_run in H1 as (_ & _ & HP & _).
    apply step_skill_run in H2 as (E2 & _ & _ & Hok & _).
    apply step_bootstrap_run in H3 as (E3 & Hs3 & _ & _ & Hok3).
    apply step_gitignore_run in H4 as (E4 & Hs4 & _ & Hagain).
    destruct (Hok eq_refl) as [Hd HD].
    destruct (Hok3 eq_refl) as (F3 & e & He & Hm).
    assert (shD ≠ shI s2 ∧ shD ≠ shIgn ∧ shI s2 ≠ shIgn
            ∧ path_join cwd [lit "CLAUDE.md"] ≠ shIgn
            ∧ path_join cwd [lit "AGENTS.md"] ≠ shIgn) as (N1 & N2 & N3 & N4 & N5).
    { destruct (sh_instructionFile_cases s2) as [-> | ->]; split_and!; path_neq. }
    (* the first step finds the directory *)
    rewrite (step_priors_settled F).
    2: { eapply evolves_dir; [exact E4|]. eapply evolves_dir; [exact E3|].
         eapply evolves_dir; [exact E2 | by apply HP]. }
    (* the second finds the reference document *)
    destruct (step_skill_settled F) as [o' ->].
    { eapply evolves_dir; [exact E4|]. by eapply evolves_dir; [exact E3|]. }
    { unfold is_file in *. destruct (s2 !! shD) as [[c|]|] eqn:Hc; [|done..].
      assert (s3 !! shD = Some (File c)) as Hc3.
      { eapply evolves_file_outside; [exact E3 | | done].
        intros Hin. by apply list_elem_of_singleton in Hin. }
      assert (F !! shD = Some (File c)) as ->; [|done].
      eapply evolves_file_outside; [exact E4 | | done].
      intros Hin. by apply list_elem_of_singleton in Hin. }
    (* the third finds the marker *)
    assert (sh_instructionFile cwd F = sh_instructionFile cwd s2
            ∧ F !! (shI s2) = Some (File e)) as [FF HeF].
    { destruct Hs4 as [-> | [c ->]]; [done|]. split.
      - rewrite <- F3. apply sh_instructionFile_ext; by apply is_file_insert_ne.
      - rewrite lookup_insert_ne by done. exact He. }
    rewrite step_bootstrap_eq. rewrite FF, HeF, Hm.
    exact Hagain.
Qed.

(** The script never rewrites a reference document that is there. *)
Lemma install_keeps_skill (args : list jsstring) (s s' : filesystem) r o (e : jsstring) :
  s !! shD = Some (File e) →
  InstallSh.install cwd args s = (r, s', o) →
  s' !! shD = Some (File e) ∧ no_write_to shD o.
Proof.
  intros He Hrun.
  assert (∀ t, shD ≠ shG ∧ shD ≠ shI t ∧ shD ≠ shIgn) as Hne.
  { intros t. destruct (sh_instructionFile_cases t) as [-> | ->]; split_and!; path_neq. }
  assert (∀ (q : path) (a b : filesystem), shD ≠ q → evolves [q] a b →
            a !! shD = Some (File e) → b !! shD = Some (File e)) as Hkeep.
  { intros q a b Hq Hev Ha. eapply evolves_file_outside; [exact Hev | | done].
    intros Hin. by apply list_elem_of_singleton in Hin. }
  assert (∀ x, Write shD x ∉ install_header cwd) as Hhdr.
  { intros x Hin. unfold install_header in Hin. events_in Hin; done. }
  assert (∀ sh o0 x, InstallSh.parse_args args false s = (sh, s, o0) → Write shD x ∉ o0)
    as Hargs.
  { intros sh o0 x Hp0 Hin. by eapply parse_args_quiet. }
  apply install_inv in Hrun
    as [(-> & -> & Hp0)
       |(shared & o0 & Hp0 &
         [(o1 & H1 & Hr & ->)
         |[(s1 & o1 & o2 & H1 & H2 & Hr & ->)
         |[(s1 & o1 & s2 & o2 & o3 & H1 & H2 & H3 & Hr & ->)
         |(s1 & o1 & s2 & o2 & s3 & o3 & o4 & H1 & H2 & H3 & H4 & ->)]]])].
  - split; [done|]. intros x Hin. by eapply Hargs.
  - apply step_priors_run in H1 as (E1 & W1 & _).
    destruct (Hne s) as (N1 & N2 & N3).
    split; [eapply Hkeep; [exact N1 | exact E1 | exact He]|].
    intros x Hin. events_in Hin.
    + by eapply Hargs.
    + by eapply Hhdr.
    + by apply W1 in Hin.
  - apply step_priors_run in H1 as (E1 & W1 & _).
    destruct (Hne s) as (N1 & N2 & N3).
    pose proof (Hkeep _ _ _ N1 E1 He) as He1.
    apply step_skill_run in H2 as (_ & W2 & K2 & _).
    split; [by apply K2|].
    intros x Hin. events_in Hin.
    + by eapply Hargs.
    + by eapply Hhdr.
    + by apply W1 in Hin.
    + apply W2 in Hin as [_ Hin]. congruence.
  - apply step_priors_run in H1 as (E1 & W1 & _).
    destruct (Hne s2) as (N1 & N2 & N3).
    pose proof (Hkeep _ _ _ N1 E1 He) as He1.
    apply step_skill_run in H2 as (_ & W2 & K2 & _).
    apply step_bootstrap_run in H3 as (E3 & _ & W3 & _).
    split; [eapply Hkeep; [exact N2 | exact E3 | by apply K2]|].
    intros x Hin. events_in Hin.
    + by eapply Hargs.
    + by eapply Hhdr.
    + by apply W1 in Hin.
    + apply W2 in Hin as [_ Hin]. congruence.
    + by apply W3 in Hin.
  - apply step_priors_run in H1 as (E1 & W1 & _).
    destruct (Hne s2) as (N1 & N2 & N3).
    pose proof (Hkeep _ _ _ N1 E1 He) as He1.
    apply step_skill_run in H2 as (_ & W2 & K2 & _).
    apply step_bootstrap_run in H3 as (E3 & _ & W3 & _).
    apply step_gitignore_run in H4 as (E4 & _ & W4 & _).
    split.
    { eapply Hkeep; [exact N3 | exact E4|].
      eapply Hkeep; [exact N2 | exact E3 | by apply K2]. }
    intros x Hin. events_in Hin.
    + by eapply Hargs.
    + by eapply Hhdr.
    + by apply W1 in Hin.
    + apply W2 in Hin as [_ Hin]. congruence.
    + by apply W3 in Hin.
    + by apply W4 in Hin.
    + unfold install_footer in Hin. destruct r; events_in Hin; done.
Qed.

(** *** Where the script may change the filesystem *)

Lemma step_skill_frame (s s' : filesystem) r o :
  InstallSh.step_skill cwd s = (r, s', o) →
  same_outside (fun q => q `suffix_of` shDir ∨ q = shD) s s'.
Proof.
  rewrite step_skill_eq.
  destruct (mkdirp shDir s) as [e|s1] eqn:Hm.
  { intros [= <- <- <-]. apply same_outside_refl. }
  apply mkdirp_same_outside in Hm.
  assert (same_outside (fun q => q `suffix_of` shDir ∨ q = shD) s s1) as Hm'.
  { eapply same_outside_weaken; [|exact Hm]. auto. }
  destruct (s1 !! shD) as [[c|]|]; [by intros [= <- <- <-]| |];
    (destruct (put_file shD InstallSh.SKILL_MD s1) as [e|s2] eqn:Hw;
     intros [= <- <- <-];
     [exact Hm' | eapply same_outside_trans; [exact Hm | by eapply put_file_same_outside]]).
Qed.

Lemma same_outside_insert (s s' : filesystem) (p : path) :
  (s' = s ∨ ∃ c, s' = <[p := File c]> s) → same_outside (fun q => q = p) s s'.
Proof.
  intros [-> | [c ->]]; [apply same_outside_refl|].
  intros q Hq. apply lookup_insert_ne. by intros ->.
Qed.

Lemma install_after_priors (args : list jsstring) (s s' : filesystem) r o :
  InstallSh.install cwd args s = (r, s', o) →
  (s' = s ∧ InstallSh.parse_args args false s = (Exit 0, s, o))
  ∨ ∃ r1 s1 o1, InstallSh.step_priors cwd s = (r1, s1, o1)
                ∧ same_outside (sh_late_touched cwd) s1 s'.
Proof.
  intros Hrun. apply install_inv in Hrun
    as [(-> & -> & Hp0)
       |(shared & o0 & Hp0 &
         [(o1 & H1 & Hr & ->)
         |[(s1 & o1 & o2 & H1 & H2 & Hr & ->)
         |[(s1 & o1 & s2 & o2 & o3 & H1 & H2 & H3 & Hr & ->)
         |(s1 & o1 & s2 & o2 & s3 & o3 & o4 & H1 & H2 & H3 & H4 & ->)]]])].
  - by left.
  - right. eexists _, _, _. split; [exact H1 | apply same_outside_refl].
  - right. eexists _, _, _. split; [exact H1|].
    apply step_skill_frame in H2.
    eapply same_outside_weaken; [|exact H2]. unfold sh_late_touched. tauto.
  - right. eexists _, _, _. split; [exact H1|].
    apply step_skill_frame in H2.
    apply step_bootstrap_run in H3 as (_ & H3 & _). apply same_outside_insert in H3.
    intros q Hq. rewrite H3, H2; [done | |].
    + intros Hq'. apply Hq. unfold sh_late_touched. tauto.
    + intros ->. apply Hq. unfold sh_late_touched.
      destruct (sh_instructionFile_cases s2) as [-> | ->]; tauto.
  - right. eexists _, _, _. split; [exact H1|].
    apply step_skill_frame in H2.
    apply step_bootstrap_run in H3 as (_ & H3 & _). apply same_outside_insert in H3.
    apply step_gitignore_run in H4 as (_ & H4 & _). apply same_outside_insert in H4.
    intros q Hq. rewrite H4, H3, H2; [done | | |].
    + intros Hq'. apply Hq. unfold sh_late_touched. tauto.
    + intros ->. apply Hq. unfold sh_late_touched.
      destruct (sh_instructionFile_cases s2) as [-> | ->]; tauto.
    + intros ->. apply Hq. unfold sh_late_touched. tauto.
Qed.

Lemma is_file_evolves (T : list path) (s t : filesystem) (q : path) :
  evolves T s t → q ∉ T → is_file t q = is_file s q.
Proof.
  intros H Hq. unfold is_file.
  destruct (evolves_outside T s t q H Hq) as [-> | [-> ->]]; done.
Qed.

(** A completed run of the script, seen from its third step. *)
Lemma install_ok_bootstrap (args : list jsstring) (s s' : filesystem) o :
  InstallSh.install cwd args s = (Ok tt, s', o) →
  ∃ (s2 s3 : filesystem) (o3 : list event),
    sh_instructionFile cwd s2 = sh_instructionFile cwd s
    ∧ (∀ e, s !! (shI s) = Some (File e) → s2 !! (shI s) = Some (File e))
    ∧ InstallSh.step_bootstrap cwd s2 = (Ok tt, s3, o3)
    ∧ s' !! (shI s) = s3 !! (shI s).
Proof.
  intros Hrun. apply install_inv in Hrun
    as [(_ & ? & _)
       |(shared & o0 & Hp0 &
         [(o1 & H1 & Hr & ->)
         |[(s1 & o1 & o2 & H1 & H2 & Hr & ->)
         |[(s1 & o1 & s2 & o2 & o3 & H1 & H2 & H3 & Hr & ->)
         |(s1 & o1 & s2 & o2 & s3 & o3 & o4 & H1 & H2 & H3 & H4 & ->)]]])];
    try done.
  apply step_priors_run in H1 as (E1 & _).
  apply step_skill_run in H2 as (E2 & _).
  apply step_gitignore_run in H4 as (_ & H4 & _). apply same_outside_insert in H4.
  assert (∀ f, f = lit "CLAUDE.md" ∨ f = lit "AGENTS.md" →
               (path_join cwd [f] ∉ [shG]) ∧ (path_join cwd [f] ∉ [shD])
               ∧ path_join cwd [f] ≠ shIgn) as Hne.
  { intros f [-> | ->]; split_and!; try apply notin_single; path_neq. }
  assert (∀ f, f = lit "CLAUDE.md" ∨ f = lit "AGENTS.md" →
               is_file s2 (path_join cwd [f]) = is_file s (path_join cwd [f])) as Hfile.
  { intros f Hf. destruct (Hne f Hf) as (N1 & N2 & _).
    rewrite (is_file_evolves _ _ _ _ E2 N2). by apply (is_file_evolves _ _ _ _ E1). }
  exists s2, s3, o3. split_and!.
  - apply sh_instructionFile_ext; apply Hfile; auto.
  - intros e He. destruct (Hne _ (sh_instructionFile_cases s)) as (N1 & N2 & _).
    eapply evolves_file_outside; [exact E2 | exact N2|].
    eapply evolves_file_outside; [exact E1 | exact N1 | exact He].
  - exact H3.
  - apply H4. by destruct (Hne _ (sh_instructionFile_cases s)) as (_ & _ & N3).
Qed.

(** The script appends to the instruction file as it is. *)
Lemma install_appends (args : list jsstring) (s s' : filesystem) o (e : jsstring) :
  s !! (shI s) = Some (File e) →
  includes e InstallSh.PRIORS_MARKER = false →
  InstallSh.install cwd args s = (Ok tt, s', o) →
  s' !! (shI s) = Some (File (e ++ [NL] ++ InstallSh.BOOTSTRAP_TEXT ++ [NL])).
Proof.
  intros He Hm Hrun.
  apply install_ok_bootstrap in Hrun as (s2 & s3 & o3 & F2 & K2 & H3 & ->).
  rewrite step_bootstrap_eq in H3. rewrite F2, (K2 e He) in H3.
  rewrite (bre_search_literal _ _ marker_has_no_dot), Hm in H3.
  destruct (put_file _ _ s2) as [er|s3'] eqn:Hw; [done|].
  injection H3 as <- _.
  destruct (put_file_spec _ _ _ _ Hw) as (-> & _). by rewrite lookup_insert_eq.
Qed.

(** The script leaves alone an instruction file that carries the marker. *)
Lemma install_marked (args : list jsstring) (s s' : filesystem) o (e : jsstring) :
  s !! (shI s) = Some (File e) →
  includes e InstallSh.PRIORS_MARKER = true →
  InstallSh.install cwd args s = (Ok tt, s', o) →
  s' !! (shI s) = Some (File e).
Proof.
  intros He Hm Hrun.
  apply install_ok_bootstrap in Hrun as (s2 & s3 & o3 & F2 & K2 & H3 & ->).
  rewrite step_bootstrap_eq in H3. rewrite F2, (K2 e He) in H3.
  rewrite (bre_search_literal _ _ marker_has_no_dot), Hm in H3.
  injection H3 as <- _. by apply K2.
Qed.

(** The script writes its reference document where there is none. *)
Lemma install_creates_skill (args : list jsstring) (s s' : filesystem) o :
  s !! shD = None →
  InstallSh.install cwd args s = (Ok tt, s', o) →
  s' !! shD = Some (File InstallSh.SKILL_MD).
Proof.
  intros Hnone Hrun. apply install_inv in Hrun
    as [(_ & ? & _)
       |(shared & o0 & Hp0 &
         [(o1 & H1 & Hr & ->)
         |[(s1 & o1 & o2 & H1 & H2 & Hr & ->)
         |[(s1 & o1 & s2 & o2 & o3 & H1 & H2 & H3 & Hr & ->)
         |(s1 & o1 & s2 & o2 & s3 & o3 & o4 & H1 & H2 & H3 & H4 & ->)]]])];
    try done.
  apply step_priors_run in H1 as (E1 & _).
  apply step_bootstrap_run in H3 as (E3 & _).
  apply step_gitignore_run in H4 as (E4 & _).
  assert ((shD ∉ [shG]) ∧ (shD ∉ [shI s2]) ∧ (shD ∉ [shIgn])) as (N1 & N3 & N4).
  { destruct (sh_instructionFile_cases s2) as [-> | ->]; split_and!;
      apply notin_single; path_neq. }
  assert (s2 !! shD = Some (File InstallSh.SKILL_MD)) as HD.
  { rewrite step_skill_eq in H2.
    destruct (mkdirp shDir s1) as [er|s1'] eqn:Hm; [done|].
    assert (s1' !! shD ≠ Some Dir → s1' !! shD = None ∨ ∃ c, s1 !! shD = Some (File c)) as Hcase.
    { intros Hnd. destruct (proj2 (mkdirp_spec _ _ _ Hm) shD) as [E | (_ & E & _)]; [|done].
      rewrite E. destruct (s1 !! shD) as [[c|]|]; eauto. by rewrite E in Hnd. }
    destruct (s1' !! shD) as [[c|]|] eqn:HD1.
    - destruct Hcase as [? | [c' Hc']]; [done..|].
      pose proof (evolves_file_back _ _ _ _ _ E1 N1 Hc'). congruence.
    - destruct (put_file shD InstallSh.SKILL_MD s1') as [er|s2'] eqn:Hw; [done|].
      unfold put_file in Hw. by rewrite HD1 in Hw.
    - destruct (put_file shD InstallSh.SKILL_MD s1') as [er|s2'] eqn:Hw; [done|].
      injection H2 as <- _.
      destruct (put_file_spec _ _ _ _ Hw) as (-> & _). by rewrite lookup_insert_eq. }
  eapply evolves_file_outside; [exact E4 | exact N4|].
  eapply evolves_file_outside; [exact E3 | exact N3 | exact HD].
Qed.

End ShSteps.

(** ** The two implementations side by side *)

(** On a tree, the first steps of the two leave the same filesystem. *)
Lemma priors_steps_agree (proc : Cli.process) (s : filesystem) :
  well_formed s →
  fs_of (Cli.init_priors proc s) = fs_of (InstallSh.step_priors (Cli.cwd proc) s).
Proof.
  intros [_ Hwf]. unfold Cli.init_priors, InstallSh.step_priors. unfold_prims.
  change (InstallSh.priorsDir (Cli.cwd proc)) with (Cli.priorsDir proc).
  destruct (s !! Cli.priorsDir proc) as [[c|]|] eqn:HP; simpl.
  - by rewrite (mkdirp_fails_on_file _ _ _ HP).
  - done.
  - destruct (mkdirp (Cli.priorsDir proc) s) as [e|s1] eqn:Hm; simpl; [done|].
    destruct (mkdirp_spec _ _ _ Hm) as [HP1 Hfr].
    assert (s1 !! path_join (Cli.priorsDir proc) [lit ".gitkeep"] = None) as HG.
    { destruct (Hfr (path_join (Cli.priorsDir proc) [lit ".gitkeep"]))
        as [E | (E1 & E2 & E3)].
      - rewrite E.
        destruct (s !! path_join (Cli.priorsDir proc) [lit ".gitkeep"]) eqn:HG0; [|done].
        rewrite (Hwf (lit ".gitkeep") (Cli.priorsDir proc)) in HP; [done|].
        unfold path_join in HG0. simpl in HG0. eauto.
      - apply suffix_length in E3. unfold path_join in E3. simpl in E3. lia. }
    rewrite HG.
    by destruct (put_file (path_join (Cli.priorsDir proc) [lit ".gitkeep"]) [] s1).
Qed.

(** Nothing in the knowledge directory is touched after the first step. *)
Lemma descendant_untouched (proc : Cli.process) (q : path) :
  Cli.priorsDir proc `suffix_of` q →
  ¬ late_touched proc false q ∧ ¬ sh_late_touched (Cli.cwd proc) q.
Proof.
  intros [k ->].
  assert (∀ l : path,
            k ++ Cli.priorsDir proc ≠ l ++ [lit "skills"; lit ".claude"] ++ Cli.cwd proc)
    as Hskills.
  { intros l E.
    assert (Cli.priorsDir proc = [lit "priors"; lit ".claude"] ++ Cli.cwd proc) as EP
      by reflexivity.
    rewrite EP in E. rewrite (app_assoc k), (app_assoc l) in E. apply app_inv_tail in E.
    apply (f_equal (@rev _)) in E. rewrite !rev_app_distr in E. simpl in E.
    injection E as _ E _. vm_compute in E. discriminate. }
  assert (∀ l : path, (length l ≤ 1)%nat → k ++ Cli.priorsDir proc ≠ l ++ Cli.cwd proc)
    as Hshort.
  { intros l Hl E. apply (f_equal (@length _)) in E.
    unfold Cli.priorsDir, path_join in E. rewrite !length_app in E. simpl in E. lia. }
  assert (¬ k ++ Cli.priorsDir proc `suffix_of`
              path_join (Cli.cwd proc) [lit ".claude"; lit "skills"; lit "knowledge-extraction"])
    as Hsuf.
  { intros [k' E]. unfold path_join in E. simpl in E.
    destruct k' as [|a [|b k'']].
    - apply (Hskills [lit "knowledge-extraction"]). symmetry. exact E.
    - simpl in E. injection E as _ E. apply (Hskills []). symmetry. exact E.
    - simpl in E. injection E as _ _ E.
      apply (f_equal (@length _)) in E. unfold Cli.priorsDir, path_join in E.
      rewrite !length_app in E. simpl in E. lia. }
  assert (∀ l : path, k ++ Cli.priorsDir proc = l → l = k ++ Cli.priorsDir proc) as Hsym
    by (by intros l <-).
  split.
  - intros [(dir & Hdir & [Hq | Hq]) | [Hq | Hq]].
    + injection Hdir as <-. by apply Hsuf.
    + injection Hdir as <-.
      apply (Hskills [lit "SKILL.md"; lit "knowledge-extraction"]). exact Hq.
    + apply (Hshort [lit "CLAUDE.md"]); [simpl; lia | exact Hq].
    + apply (Hshort [lit "AGENTS.md"]); [simpl; lia | exact Hq].
  - intros [Hq | [Hq | [Hq | [Hq | Hq]]]].
    + by apply Hsuf.
    + apply (Hskills [lit "SKILL.md"; lit "knowledge-extraction"]). exact Hq.
    + apply (Hshort [lit "CLAUDE.md"]); [simpl; lia | exact Hq].
    + apply (Hshort [lit "AGENTS.md"]); [simpl; lia | exact Hq].
    + apply (Hshort [lit ".gitignore"]); [simpl; lia | exact Hq].
Qed.

Lemma parse_no_args (s : filesystem) :
  InstallSh.parse_args [] false s = (Ok false, s, []).
Proof. reflexivity. Qed.

(** The knowledge directory comes out the same. *)
Lemma same_knowledge_directory (proc : Cli.process) (s : filesystem) (q : path) :
  well_formed s →
  Cli.priorsDir proc `suffix_of` q →
  fs_of (Cli.init proc [] s) !! q = fs_of (InstallSh.install (Cli.cwd proc) [] s) !! q.
Proof.
  intros Hwf Hq. destruct (descendant_untouched proc q Hq) as [Hn Hsh].
  destruct (Cli.init proc [] s) as [[r F] o] eqn:Hnode.
  destruct (InstallSh.install (Cli.cwd proc) [] s) as [[r' F'] o'] eqn:Hshell.
  unfold fs_of. simpl.
  apply init_after_priors in Hnode as (r1 & s1 & o1 & H1 & Hlate).
  pose proof (priors_steps_agree proc s Hwf) as Hagree. rewrite H1 in Hagree.
  unfold fs_of in Hagree. simpl in Hagree.
  apply install_after_priors in Hshell as [[_ Hp] | (r1' & s1' & o1' & H1' & Hlate')].
  { by rewrite parse_no_args in Hp. }
  rewrite H1' in Hagree. simpl in Hagree. subst s1'.
  rewrite (Hlate q) by exact Hn. rewrite (Hlate' q) by exact Hsh. done.
Qed.

(** ** Matching *)

Lemma first_some_map {A} (f : nat → option A) (h : nat → nat) (ks : list nat) :
  first_some f (map h ks) = first_some (fun k => f (h k)) ks.
Proof. induction ks as [|k ks IH]; simpl; [done|]. by rewrite IH. Qed.

Lemma first_some_ext {A} (f g : nat → option A) (ks : list nat) :
  (∀ k, f k = g k) → first_some f ks = first_some g ks.
Proof. intros H. induction ks as [|k ks IH]; simpl; [done|]. by rewrite H, IH. Qed.

Lemma run_length_any (s : jsstring) : run_length any_char s = length s.
Proof. induction s as [|c s IH]; simpl; [done|]. by rewrite IH. Qed.


(** A lazy [[\s\S]*?] before a literal stops at the first occurrence of the
    literal. *)
Lemma lazy_until {A} (rest needle : jsstring) (g : nat → A) :
  first_some (fun k => if startsWith (drop k rest) needle then Some (g k) else None)
    (seq 0 (S (length rest)))
  = match index_of rest needle with
    | Some i => Some (g i)
    | None => None
    end.
Proof.
  revert g. induction rest as [|c r IH]; intros g.
  - simpl. by destruct (startsWith [] needle).
  - cbn [length]. rewrite <- cons_seq. cbn [first_some drop index_of].
    destruct (startsWith (c :: r) needle); [done|].
    rewrite <- seq_shift, first_some_map. cbn [drop].
    rewrite (IH (fun k => g (S k))). by destruct (index_of r needle).
Qed.

Lemma frontmatter_eq (content : jsstring) :
  Cli.frontmatter content
  = if startsWith content (lit "---" ++ [NL]) then
      match index_of (drop 4 content) ([NL] ++ lit "---") with
      | Some i => Some (take i (drop 4 content))
      | None => None
      end
    else None.
Proof.
  unfold Cli.frontmatter, Cli.RE_FRONTMATTER. cbn [match_here choices].
  destruct (startsWith content (lit "---" ++ [NL])); [|done].
  assert (length (lit "---" ++ [NL]) = 4%nat) as -> by (vm_compute; reflexivity).
  cbn [first_some]. rewrite run_length_any.
  set (rest := drop 4 content).
  rewrite (first_some_ext _
    (fun k => if startsWith (drop k rest) ([NL] ++ lit "---")
              then Some [take k rest] else None)).
  - rewrite lazy_until. by destruct (index_of rest _).
  - intros k. by destruct (startsWith (drop k rest) ([NL] ++ lit "---")).
Qed.

Lemma index_of_spec (s needle : jsstring) (i : nat) :
  index_of s needle = Some i →
  ∃ post, drop i s = needle ++ post.
Proof.
  revert i. induction s as [|c s IH]; intros i; simpl.
  - destruct (startsWith [] needle) eqn:E; [|done].
    intros [= <-]. by apply startsWith_spec in E.
  - destruct (startsWith (c :: s) needle) eqn:E.
    + intros [= <-]. by apply startsWith_spec in E.
    + destruct (index_of s needle) as [j|]; [|done]. intros [= <-]. by apply IH.
Qed.

Lemma index_of_none (s needle : jsstring) :
  index_of s needle = None ↔ includes s needle = false.
Proof.
  induction s as [|c s IH]; unfold includes; simpl.
  - destruct (startsWith [] needle); split; done.
  - fold includes. destruct (startsWith (c :: s) needle); simpl; [split; done|].
    rewrite <- IH. destruct (index_of s needle); split; done.
Qed.

Section Field.

Variable key : jsstring.
Variable cls : N → bool.

#[local] Abbreviation field_re :=
  ([(Chars key, false); (Star is_space, false); (Plus cls, true)] : regex).



Hypothesis cls_not_space : ∀ c, cls c = true → is_space c = false.







End Field.

(** ** The report *)

Section Status.

Variable proc : Cli.process.

#[local] Abbreviation stP := (Cli.priorsDir proc).

Lemma status_loop_frame (files : list jsstring) (t : N) (s s' : filesystem) r o :
  Cli.status_loop proc files t s = (r, s', o) → s' = s ∧ read_only o.
Proof.
  revert t r s' o. induction files as [|f files IH]; intros t r s' o; simpl.
  - intros [= <- <- <-]. split; [done|]. intros e He. by apply elem_of_nil in He.
  - unfold bind at 1. unfold Fs.readFileSync.
    destruct (s !! path_join stP [f]) as [[c|]|];
      [| intros [= <- <- <-]; split; [done|]; intros e He; by apply elem_of_nil in He..].
    unfold bind at 1. unfold Console.log at 1. unfold emit at 1.
    unfold bind at 1. unfold Console.log at 1. unfold emit at 1.
    unfold bind at 1.
    assert (∃ os, (match Cli.summary (Cli.parse f c) with
                   | [] => ret ()
                   | _ :: _ => Console.log (lit "    " ++ Cli.summary (Cli.parse f c))
                   end) s = (Ok tt, s, os) ∧ read_only os) as (os & Hos & Hro).
    { destruct (Cli.summary (Cli.parse f c)).
      - eexists. split; [reflexivity|]. intros e He. by apply elem_of_nil in He.
      - eexists. split; [reflexivity|]. intros e He. events_in He. by subst e. }
    replace (match Cli.summary (Cli.parse f c) with
             | [] => ret ()
             | n :: l => Console.log (lit "    " ++ n :: l)
             end s) with (Ok tt, s, os).
    2: { rewrite <- Hos. by destruct (Cli.summary (Cli.parse f c)). }
    unfold bind, Console.log, emit.
    destruct (Cli.status_loop proc files (t + Cli.entries (Cli.parse f c)) s)
      as [[r' s''] o'] eqn:Hrec.
    destruct (IH _ _ _ _ Hrec) as [-> Hro'].
    intros Hrun.
    assert (s' = s ∧ o = [] ++ [Stdout (lit "  " ++ f)] ++ [Stdout (Cli.file_line (Cli.parse f c))]
                           ++ os ++ [Stdout []] ++ o') as [-> ->].
    { simpl in Hrun. by destruct r'; injection Hrun as <- <- <-. }
    split; [done|]. intros e He.
    events_in He; try (by subst e); [by apply Hro | by apply Hro'].
Qed.

(** [status] changes nothing. *)
Lemma status_frame (s s' : filesystem) r o :
  Cli.status proc s = (r, s', o) → s' = s ∧ read_only o.
Proof.
  unfold Cli.status. unfold bind at 1. unfold Fs.existsSync, exists_at.
  destruct (s !! stP) as [n|] eqn:HP; simpl.
  2: { intros [= <- <- <-]. split; [done|]. intros e He. events_in He. by subst e. }
  unfold bind at 1. unfold Fs.readdirSync. rewrite HP.
  destruct n as [c|];
    [intros [= <- <- <-]; split; [done|]; intros e He; by apply elem_of_nil in He|].
  destruct (filter _ (entries_of stP s)) as [|f files] eqn:Hf.
  { intros [= <- <- <-]. split; [done|]. intros e He. events_in He. by subst e. }
  unfold bind at 1. unfold Console.log at 1. unfold emit at 1.
  unfold bind at 1.
  destruct (Cli.status_loop proc (f :: files) 0 s) as [[r' s''] o'] eqn:Hloop.
  apply status_loop_frame in Hloop as [-> Hro].
  unfold Console.log, emit. intros Hrun.
  assert (s' = s ∧ (o = Stdout ([NL] ++ lit "Priors: " ++ show_path stP ++ [NL]) :: o'
                    ∨ ∃ l, o = (Stdout ([NL] ++ lit "Priors: " ++ show_path stP ++ [NL]) :: o')
                               ++ [Stdout l])) as [-> Ho].
  { simpl in Hrun. destruct r'; injection Hrun as <- <- <-; split; eauto. }
  split; [done|]. intros e He.
  destruct Ho as [-> | [l ->]]; events_in He; try (by subst e); by apply Hro.
Qed.

Lemma status_not_initialized (s : filesystem) :
  s !! stP = None →
  Cli.status proc s
  = (Ok tt, s, [Stdout (lit "No priors directory found. Run `claude-priors init` first.")]).
Proof.
  intros HP. unfold Cli.status. unfold bind at 1. unfold Fs.existsSync, exists_at.
  by rewrite HP.
Qed.

Lemma status_loop_ok (files : list jsstring) (t : N) (s : filesystem) :
  (∀ f, f ∈ files → is_file s (path_join stP [f]) = true) →
  Cli.status_loop proc files t s
  = (Ok (t + sum_entries proc s files), s,
     concat (map (fun f => file_events f (fields_of proc s f)) files)).
Proof.
  revert t. induction files as [|f files IH]; intros t Hreg; simpl.
  - unfold ret. by rewrite N.add_0_r.
  - assert (is_file s (path_join stP [f]) = true) as Hf by apply Hreg, list_elem_of_here.
    unfold fields_of at 1 2, content_at. unfold is_file in Hf.
    unfold bind at 1. unfold Fs.readFileSync.
    destruct (s !! path_join stP [f]) as [[c|]|] eqn:Hc; [|done..].
    assert (IH' := IH (t + Cli.entries (Cli.parse f c))
                     (fun g Hg => Hreg g (list_elem_of_further _ _ _ Hg))).
    unfold bind, Console.log, emit, ret.
    unfold file_events at 1. unfold fields_of at 1 2, content_at. rewrite Hc.
    destruct (Cli.summary (Cli.parse f c)) eqn:Hs; rewrite IH';
      rewrite <- N.add_assoc; reflexivity.
Qed.

(** The report on a directory of regular files. *)
Lemma status_ok (s : filesystem) :
  s !! stP = Some Dir →
  md_files proc s ≠ [] →
  (∀ f, f ∈ md_files proc s → is_file s (path_join stP [f]) = true) →
  Cli.status proc s
  = (Ok tt, s,
     [Stdout ([NL] ++ lit "Priors: " ++ show_path stP ++ [NL])]
     ++ concat (map (fun f => file_events f (fields_of proc s f)) (md_files proc s))
     ++ [Stdout (Cli.total_line (length (md_files proc s))
                   (sum_entries proc s (md_files proc s)))]).
Proof.
  intros HP Hne Hreg. unfold Cli.status. unfold bind at 1. unfold Fs.existsSync, exists_at.
  rewrite HP. simpl. unfold bind at 1. unfold Fs.readdirSync. rewrite HP.
  fold (md_files proc s).
  destruct (md_files proc s) as [|f files] eqn:Hf; [done|].
  unfold bind at 1. unfold Console.log at 1. unfold emit at 1.
  unfold bind at 1. rewrite status_loop_ok by done.
  unfold Console.log, emit. by rewrite N.add_0_l.
Qed.

End Status.

(** ** The dispatch and the exit status *)

Section Main.

Variable proc : Cli.process.

Lemma init_priors_no_exit (s s' : filesystem) o code :
  Cli.init_priors proc s ≠ (Exit code, s', o).
Proof.
  unfold Cli.init_priors. unfold_prims.
  destruct (s !! Cli.priorsDir proc); simpl; [done|].
  destruct (mkdirp _ s) as [e|s1]; simpl; [done|].
  by destruct (put_file _ [] s1).
Qed.

Lemma copy_skill_no_exit (global : bool) (D : path) (c : jsstring) (s s' : filesystem) o code :
  Cli.copy_skill global D c s ≠ (Exit code, s', o).
Proof.
  unfold Cli.copy_skill. unfold_prims.
  destruct (s !! D) as [[e|]|] eqn:HD; simpl; rewrite ?HD; simpl; [| done |].
  - destruct (decide (e = c)); simpl; [done|]. by destruct (put_file D c s).
  - by destruct (put_file D c s).
Qed.

Lemma init_skill_no_exit (global : bool) (c : jsstring) (s s' : filesystem) o code :
  Cli.init_skill proc global c s ≠ (Exit code, s', o).
Proof.
  unfold Cli.init_skill. destruct (Cli.skillDir proc global) as [dir|]; [|done].
  unfold bind at 1. unfold bind at 1. unfold Fs.existsSync, exists_at.
  destruct (s !! dir) as [n|]; simpl.
  - unfold ret. destruct (Cli.copy_skill global _ c s) as [[rr ss] oo] eqn:Hc.
    intros [= -> -> _]. by apply copy_skill_no_exit in Hc.
  - unfold Fs.mkdirSync. destruct (mkdirp dir s) as [e|s1]; [done|].
    destruct (Cli.copy_skill global _ c s1) as [[rr ss] oo] eqn:Hc.
    intros [= -> -> _]. by apply copy_skill_no_exit in Hc.
Qed.

Lemma init_bootstrap_no_exit (b : jsstring) (s s' : filesystem) o code :
  Cli.init_bootstrap proc b s ≠ (Exit code, s', o).
Proof.
  rewrite init_bootstrap_eq.
  destruct (s !! _) as [[e|]|]; [| done |].
  - destruct (includes e Cli.PRIORS_MARKER); [done|]. by destruct (put_file _ _ s).
  - by destruct (put_file _ _ s).
Qed.

(** [init] calls [process.exit] only for an asset it cannot find. *)
Lemma init_exit (args : list jsstring) (s s' : filesystem) o code :
  Cli.init proc args s = (Exit code, s', o) →
  code = 1
  ∧ ((unlocated s' (Cli.SKILL_SRC proc) (Cli.SKILL_SRC_ALT proc)
      ∧ Stderr (asset_diagnostic (Cli.SKILL_SRC proc) (Cli.SKILL_SRC_ALT proc)) ∈ o)
     ∨ (unlocated s' (Cli.BOOTSTRAP_SRC proc) (Cli.BOOTSTRAP_SRC_ALT proc)
        ∧ Stderr (asset_diagnostic (Cli.BOOTSTRAP_SRC proc) (Cli.BOOTSTRAP_SRC_ALT proc)) ∈ o)).
Proof.
  intros Hrun. apply init_inv in Hrun
    as [(o1 & H1 & Hr & ->)
       |[(o1 & H1 & Hf & ->)
       |[(s1 & o1 & sc & o2 & H1 & Ha & H2 & Hr & ->)
       |[(s1 & o1 & sc & o2 & H1 & Ha & H2 & Hf & ->)
       |(s1 & o1 & sc & s2 & o2 & bc & o3 & H1 & Ha & H2 & Hb & H3 & ->)]]]].
  - by apply init_priors_no_exit in H1.
  - unfold asset_events.
    destruct (asset_at s' _ _) as [?|code'|?] eqn:Ha; simpl in Hf; [done | subst code' | done].
    apply asset_at_exit in Ha as (-> & HA & HB). split; [done|]. left. split; [done|].
    rewrite !elem_of_app. right; right. apply list_elem_of_here.
  - by apply init_skill_no_exit in H2.
  - unfold asset_events.
    destruct (asset_at s' (Cli.BOOTSTRAP_SRC proc) _) as [?|code'|?] eqn:Hb;
      simpl in Hf; [done | subst code' | done].
    apply asset_at_exit in Hb as (-> & HA & HB). split; [done|]. right. split; [done|].
    rewrite !elem_of_app. right; right; right. apply list_elem_of_here.
  - by apply init_bootstrap_no_exit in H3.
Qed.

(** A completed [init] found both assets where the run started. *)
Lemma init_ok_assets (args : list jsstring) (s s' : filesystem) o :
  Cli.init proc args s = (Ok tt, s', o) →
  (∃ sc, asset_at s (Cli.SKILL_SRC proc) (Cli.SKILL_SRC_ALT proc) = Ok sc)
  ∧ (∃ bc, asset_at s (Cli.BOOTSTRAP_SRC proc) (Cli.BOOTSTRAP_SRC_ALT proc) = Ok bc).
Proof.
  intros Hrun. pose proof Hrun as Hrun'.
  apply init_ok_bootstrap in Hrun' as (_ & bc & _ & Hb & _).
  split; [|eauto].
  apply init_inv in Hrun
    as [(o1 & H1 & Hr & ->)
       |[(o1 & H1 & Hf & ->)
       |[(s1 & o1 & sc & o2 & H1 & Ha & H2 & Hr & ->)
       |[(s1 & o1 & sc & o2 & H1 & Ha & H2 & Hf & ->)
       |(s1 & o1 & sc & s2 & o2 & bc' & o3 & H1 & Ha & H2 & Hb' & H3 & ->)]]]];
    try done.
  { by destruct (asset_at s' _ _). }
  { by destruct (asset_at s' (Cli.BOOTSTRAP_SRC proc) _). }
  apply (init_priors_early proc false) in H1 as [E1 _].
  destruct (assets_not_early proc false) as (NS & NSA & _).
  exists sc. by eapply asset_at_back.
Qed.

Lemma status_no_exit (s s' : filesystem) o code :
  Cli.status proc s ≠ (Exit code, s', o).
Proof.
  assert (∀ files t s' o code', Cli.status_loop proc files t s ≠ (Exit code', s', o))
    as Hloop.
  { clear. intros files. induction files as [|f files IH]; intros t s' o code; simpl; [done|].
    unfold bind at 1. unfold Fs.readFileSync.
    destruct (s !! _) as [[c|]|]; [|done..].
    unfold bind, Console.log, emit.
    destruct (Cli.summary (Cli.parse f c)); unfold ret;
      (destruct (Cli.status_loop proc files (t + Cli.entries (Cli.parse f c)) s)
         as [[r' s''] o'] eqn:Hrec;
       destruct r'; [done | by apply IH in Hrec | done]). }
  unfold Cli.status. unfold bind at 1. unfold Fs.existsSync, exists_at.
  destruct (s !! Cli.priorsDir proc) as [n|] eqn:HP; simpl; [|done].
  unfold bind at 1. unfold Fs.readdirSync. rewrite HP.
  destruct n as [c|]; [done|].
  destruct (filter _ (entries_of _ s)) as [|f files]; [done|].
  unfold bind at 1. unfold Console.log at 1. unfold emit at 1.
  unfold bind at 1.
  destruct (Cli.status_loop proc (f :: files) 0 s) as [[r' s''] o'] eqn:Hrec.
  destruct r'; [done | by apply Hloop in Hrec | done].
Qed.

Lemma main_unknown (args : list jsstring) (s : filesystem) :
  unknown_command args →
  ∃ command rest usage,
    args = command :: rest
    ∧ Cli.printUsage s = (Ok tt, s, usage)
    ∧ Cli.main proc args s
      = (Exit 1, s, Stderr (lit "Unknown command: " ++ command) :: usage).
Proof.
  destruct args as [|command rest]; [done|]. unfold unknown_command, recognized.
  intros H. apply orb_false_iff in H as [H H3]. apply orb_false_iff in H as [H1 H2].
  apply bool_decide_eq_false in H1, H2.
  eexists command, rest, _. split; [done|]. split; [reflexivity|].
  unfold Cli.main. destruct (decide (command = lit "init")); [done|].
  destruct (decide (command = lit "status")); [done|]. rewrite H3.
  reflexivity.
Qed.

Lemma main_recognized (command : jsstring) (rest : list jsstring) (s : filesystem) :
  recognized command = true →
  Cli.main proc (command :: rest) s
  = if decide (command = lit "init") then Cli.init proc rest s
    else if decide (command = lit "status") then Cli.status proc s
    else Cli.printUsage s.
Proof.
  unfold recognized, Cli.main. intros H.
  destruct (decide (command = lit "init")); [done|].
  destruct (decide (command = lit "status")); [done|].
  rewrite !bool_decide_eq_false_2 in H by done. simpl in H. by rewrite H.
Qed.

End Main.

Example demo_base_well_formed : well_formedb demo_base = true.
Proof. vm_compute. reflexivity. Qed.

Example demo_fresh_init :
  result_of (Cli.init demo_proc [] demo_base) = Ok tt.
Proof. vm_compute. reflexivity. Qed.

Example demo_fresh_install :
  result_of (InstallSh.install (Cli.cwd demo_proc) [] demo_base) = Ok tt.
Proof. vm_compute. reflexivity. Qed.

(** When the instruction file of [init] is a regular file, the script
    settles on the same one. *)
Lemma same_instruction_file (proc : Cli.process) (s : filesystem) (e : jsstring) :
  s !! path_join (Cli.cwd proc) [instructionFile proc s] = Some (File e) →
  sh_instructionFile (Cli.cwd proc) s = instructionFile proc s.
Proof.
  unfold instructionFile, sh_instructionFile, exists_at, is_file.
  destruct (s !! path_join (Cli.cwd proc) [lit "CLAUDE.md"]) as [n1|] eqn:H1.
  - rewrite H1. by intros [= ->].
  - destruct (s !! path_join (Cli.cwd proc) [lit "AGENTS.md"]) as [n2|] eqn:H2.
    + rewrite H2. by intros [= ->].
    + by rewrite H1.
Qed.

(** [init] does not touch [.gitignore]. *)
Lemma init_leaves_gitignore (proc : Cli.process) (args : list jsstring) (s : filesystem) :
  bool_decide (lit "--global" ∈ args) = false →
  fs_of (Cli.init proc args s) !! InstallSh.gitignore (Cli.cwd proc)
  = s !! InstallSh.gitignore (Cli.cwd proc).
Proof.
  intros Hg. destruct (Cli.init proc args s) as [[r s'] o] eqn:Hrun.
  unfold fs_of. simpl.
  apply init_after_priors in Hrun as (r1 & s1 & o1 & H1 & Hlate). rewrite Hg in Hlate.
  apply init_priors_frame in H1.
  assert (∀ l : path,
            last l ≠ Some (lit ".gitignore") →
            ¬ InstallSh.gitignore (Cli.cwd proc) `suffix_of` l ++ Cli.cwd proc
            ∨ l = []) as Hsuf.
  { intros l Hl. destruct l as [|x l]; [by right|]. left. intros [k E].
    unfold InstallSh.gitignore, path_join in E. simpl in E.
    change (lit ".gitignore" :: Cli.cwd proc) with ([lit ".gitignore"] ++ Cli.cwd proc) in E.
    rewrite app_assoc in E.
    change (x :: l ++ Cli.cwd proc) with ((x :: l) ++ Cli.cwd proc) in E.
    apply app_inv_tail in E. apply Hl. rewrite E. by rewrite last_snoc. }
  rewrite Hlate, H1; [done | |].
  - intros [Hq | Hq].
    + destruct (Hsuf [lit "priors"; lit ".claude"]) as [Hn | ?]; [|by apply Hn|done].
      vm_compute. intros H. discriminate H.
    + revert Hq. path_neq.
  - intros [(dir & Hdir & [Hq | Hq]) | [Hq | Hq]].
    + injection Hdir as <-.
      destruct (Hsuf [lit "knowledge-extraction"; lit "skills"; lit ".claude"])
        as [Hn | ?]; [|by apply Hn|done].
      vm_compute. intros H. discriminate H.
    + injection Hdir as <-. revert Hq. path_neq.
    + revert Hq. path_neq.
    + revert Hq. path_neq.
Qed.

(** A completed run of the script without [--shared] leaves a [.gitignore]. *)
Lemma install_leaves_gitignore (cwd : path) (s s' : filesystem) o :
  InstallSh.install cwd [] s = (Ok tt, s', o) →
  is_file s' (InstallSh.gitignore cwd) = true.
Proof.
  intros Hrun. apply install_inv in Hrun
    as [(_ & ? & _)
       |(shared & o0 & Hp0 &
         [(o1 & H1 & Hr & ->)
         |[(s1 & o1 & o2 & H1 & H2 & Hr & ->)
         |[(s1 & o1 & s2 & o2 & o3 & H1 & H2 & H3 & Hr & ->)
         |(s1 & o1 & s2 & o2 & s3 & o3 & o4 & H1 & H2 & H3 & H4 & ->)]]])];
    try done.
  rewrite parse_no_args in Hp0. injection Hp0 as <- _.
  rewrite step_gitignore_eq in H4. unfold is_file.
  destruct (s3 !! InstallSh.gitignore cwd) as [[e|]|] eqn:HI.
  - destruct (InstallSh.bre_search _ e).
    + injection H4 as <- _. by rewrite HI.
    + destruct (put_file _ _ s3) as [er|s4] eqn:Hw; [done|]. injection H4 as <- _.
      destruct (put_file_spec _ _ _ _ Hw) as (-> & _). by rewrite lookup_insert_eq.
  - destruct (put_file _ _ s3) as [er|s4] eqn:Hw; [done|]. injection H4 as <- _.
    destruct (put_file_spec _ _ _ _ Hw) as (-> & _). by rewrite lookup_insert_eq.
  - destruct (put_file _ _ s3) as [er|s4] eqn:Hw; [done|]. injection H4 as <- _.
    destruct (put_file_spec _ _ _ _ Hw) as (-> & _). by rewrite lookup_insert_eq.
Qed.

(** * The claims *)

(** ** Idempotence *)

(** C1. Running the initializer twice in a row leaves the filesystem the
    first run left: for the Node [init] and for the shell script, from
    every filesystem (a tree), with the same arguments, and whatever the
    outcome of the runs.  For [init] the bundled bootstrap fragment is one
    that carries the marker heading. *)
Theorem init_idempotent (proc : Cli.process) (args : list jsstring)
    (cwd : path) (shargs : list jsstring) (s : filesystem) :
  well_formed s →
  (∀ b, asset_at s (Cli.BOOTSTRAP_SRC proc) (Cli.BOOTSTRAP_SRC_ALT proc) = Ok b →
        includes b Cli.PRIORS_MARKER = true) →
  fs_of (Cli.init proc args (fs_of (Cli.init proc args s)))
  = fs_of (Cli.init proc args s)
  ∧ fs_of (InstallSh.install cwd shargs (fs_of (InstallSh.install cwd shargs s)))
    = fs_of (InstallSh.install cwd shargs s).
Proof.
  intros Hwf Hmark. split.
  - by apply init_twice.
  - by apply install_twice.
Qed.

Lemma init_idempotent_witness :
  well_formed demo_notes
  ∧ fs_of (Cli.init demo_proc [] (fs_of (Cli.init demo_proc [] demo_notes)))
    = fs_of (Cli.init demo_proc [] demo_notes)
  ∧ fs_of (InstallSh.install (Cli.cwd demo_proc) []
             (fs_of (InstallSh.install (Cli.cwd demo_proc) [] demo_notes)))
    = fs_of (InstallSh.install (Cli.cwd demo_proc) [] demo_notes).
Proof.
  assert (well_formed demo_notes) as Hwf.
  { apply well_formedb_correct. vm_compute. reflexivity. }
  split; [exact Hwf|].
  apply (init_idempotent demo_proc [] (Cli.cwd demo_proc) [] demo_notes Hwf).
  intros b Hb. vm_compute in Hb. injection Hb as <-. vm_compute. reflexivity.
Defined.

(** ** The instructions file *)

(** C5. An instruction file ([CLAUDE.md] or [AGENTS.md]) that is there and
    contains the marker heading is not modified by [init]: after the run,
    whatever its outcome, the file holds the same text, and no write to it
    was made. *)
Theorem marked_instructions_untouched (proc : Cli.process) (args : list jsstring)
    (s : filesystem) (f c : jsstring) :
  f = lit "CLAUDE.md" ∨ f = lit "AGENTS.md" →
  s !! path_join (Cli.cwd proc) [f] = Some (File c) →
  includes c Cli.PRIORS_MARKER = true →
  fs_of (Cli.init proc args s) !! path_join (Cli.cwd proc) [f] = Some (File c)
  ∧ no_write_to (path_join (Cli.cwd proc) [f]) (events_of (Cli.init proc args s)).
Proof. apply init_marked_file. Qed.

Lemma marked_instructions_untouched_witness :
  fs_of (Cli.init demo_proc [] demo_heading) !! demo_claude = Some (File demo_heading_text)
  ∧ no_write_to demo_claude (events_of (Cli.init demo_proc [] demo_heading)).
Proof.
  apply (marked_instructions_untouched demo_proc [] demo_heading (lit "CLAUDE.md")
           demo_heading_text).
  - left. reflexivity.
  - vm_compute. reflexivity.
  - vm_compute. reflexivity.
Defined.

(** C10. The marker is looked for as a plain substring: when the instruction
    file holds the characters [## Priors] anywhere, between any [pre] and
    any [suf] (inside a longer heading such as [### Priors], or in running
    text), a completed [init] reports the bootstrap as already there, makes
    no write to the file and leaves its text as it was. *)
Theorem marker_is_substring (proc : Cli.process) (args : list jsstring)
    (s s' : filesystem) (o : list event) (pre suf : jsstring) :
  s !! path_join (Cli.cwd proc) [instructionFile proc s]
  = Some (File (pre ++ lit "## Priors" ++ suf)) →
  Cli.init proc args s = (Ok tt, s', o) →
  Stdout (lit "  " ++ instructionFile proc s ++ lit " already has priors bootstrap") ∈ o
  ∧ no_write_to (path_join (Cli.cwd proc) [instructionFile proc s]) o
  ∧ s' !! path_join (Cli.cwd proc) [instructionFile proc s]
    = Some (File (pre ++ lit "## Priors" ++ suf)).
Proof. apply init_marker_substring. Qed.

Lemma marker_is_substring_witness :
  instructionFile demo_proc demo_heading = lit "CLAUDE.md"
  ∧ demo_heading_text
    = lit "# Project

#" ++ lit "## Priors" ++ lit " and posteriors
Notes on the Bayesian model.
"
  ∧ Stdout (lit "  " ++ instructionFile demo_proc demo_heading
            ++ lit " already has priors bootstrap")
    ∈ events_of (Cli.init demo_proc [] demo_heading)
  ∧ no_write_to (path_join (Cli.cwd demo_proc) [instructionFile demo_proc demo_heading])
      (events_of (Cli.init demo_proc [] demo_heading)).
Proof.
  split; [vm_compute; reflexivity|]. split; [vm_compute; reflexivity|].
  destruct (Cli.init demo_proc [] demo_heading) as [[r s'] o] eqn:Hrun.
  assert (r = Ok tt) as ->.
  { assert (result_of (Cli.init demo_proc [] demo_heading) = Ok tt) as Hr
      by (vm_compute; reflexivity).
    rewrite Hrun in Hr. exact Hr. }
  destruct (marker_is_substring demo_proc [] demo_heading s' o
              (lit "# Project

#") (lit " and posteriors
Notes on the Bayesian model.
")) as (H1 & H2 & _).
  - vm_compute. reflexivity.
  - exact Hrun.
  - split; [exact H1 | exact H2].
Defined.

(** C4, as the code has it.  When the instruction file is there and does not
    contain the marker heading, a completed Node [init] leaves in it the
    original text with its trailing blanks trimmed, one blank line, the
    trimmed bootstrap fragment and a newline.  The shell script appends in
    the same way but trims nothing: it leaves the original text as it is,
    a newline, a blank line, its fragment and a newline. *)
Theorem bootstrap_appended :
  (∀ (proc : Cli.process) (args : list jsstring) (s s' : filesystem) (o : list event)
     (e b : jsstring),
     s !! path_join (Cli.cwd proc) [instructionFile proc s] = Some (File e) →
     includes e Cli.PRIORS_MARKER = false →
     asset_at s (Cli.BOOTSTRAP_SRC proc) (Cli.BOOTSTRAP_SRC_ALT proc) = Ok b →
     Cli.init proc args s = (Ok tt, s', o) →
     s' !! path_join (Cli.cwd proc) [instructionFile proc s]
     = Some (File (trimEnd e ++ [NL; NL] ++ trim b ++ [NL])))
  ∧ (∀ (cwd : path) (args : list jsstring) (s s' : filesystem) (o : list event)
       (e : jsstring),
       s !! path_join cwd [sh_instructionFile cwd s] = Some (File e) →
       includes e InstallSh.PRIORS_MARKER = false →
       InstallSh.install cwd args s = (Ok tt, s', o) →
       s' !! path_join cwd [sh_instructionFile cwd s]
       = Some (File (e ++ [NL; NL] ++ trim InstallSh.BOOTSTRAP_TEXT ++ [NL]))).
Proof.
  split.
  - intros proc args s s' o e b. apply init_appends.
  - intros cwd args s s' o e He Hm Hrun.
    rewrite (install_appends cwd args s s' o e He Hm Hrun).
    assert (InstallSh.BOOTSTRAP_TEXT = NL :: trim InstallSh.BOOTSTRAP_TEXT) as E
      by (vm_compute; reflexivity).
    rewrite E at 1. reflexivity.
Qed.

Lemma bootstrap_appended_witness :
  fs_of (Cli.init demo_proc [] demo_notes) !! demo_claude
  = Some (File (trimEnd demo_notes_text ++ [NL; NL] ++ trim demo_snippet ++ [NL]))
  ∧ fs_of (InstallSh.install (Cli.cwd demo_proc) [] demo_notes) !! demo_claude
    = Some (File (demo_notes_text ++ [NL; NL] ++ trim InstallSh.BOOTSTRAP_TEXT ++ [NL])).
Proof.
  destruct bootstrap_appended as [Hnode Hshell]. split.
  - destruct (Cli.init demo_proc [] demo_notes) as [[r s'] o] eqn:Hrun.
    assert (r = Ok tt) as ->.
    { assert (result_of (Cli.init demo_proc [] demo_notes) = Ok tt) as Hr
        by (vm_compute; reflexivity).
      rewrite Hrun in Hr. exact Hr. }
    apply (Hnode demo_proc [] demo_notes s' o demo_notes_text demo_snippet).
    + vm_compute. reflexivity.
    + vm_compute. reflexivity.
    + vm_compute. reflexivity.
    + exact Hrun.
  - destruct (InstallSh.install (Cli.cwd demo_proc) [] demo_notes) as [[r s'] o] eqn:Hrun.
    assert (r = Ok tt) as ->.
    { assert (result_of (InstallSh.install (Cli.cwd demo_proc) [] demo_notes) = Ok tt) as Hr
        by (vm_compute; reflexivity).
      rewrite Hrun in Hr. exact Hr. }
    apply (Hshell (Cli.cwd demo_proc) [] demo_notes s' o demo_notes_text).
    + vm_compute. reflexivity.
    + vm_compute. reflexivity.
    + exact Hrun.
Defined.

(** C4, as stated, fails for the shell script: an instruction file that ends
    with a newline keeps it, so that two blank lines, not one, separate the
    fragment from the text. *)
Lemma shell_appends_untrimmed :
  includes demo_notes_text InstallSh.PRIORS_MARKER = false
  ∧ result_of (InstallSh.install (Cli.cwd demo_proc) [] demo_notes) = Ok tt
  ∧ fs_of (InstallSh.install (Cli.cwd demo_proc) [] demo_notes) !! demo_claude
    ≠ Some (File (trimEnd demo_notes_text ++ [NL; NL]
                  ++ trim InstallSh.BOOTSTRAP_TEXT ++ [NL])).
Proof.
  split; [vm_compute; reflexivity|]. split; [vm_compute; reflexivity|].
  vm_compute. intros H. discriminate H.
Qed.

(** ** The reference document *)

Lemma install_reports_existing_skill (cwd : path) (args : list jsstring)
    (s s' : filesystem) (o : list event) (e : jsstring) :
  s !! path_join (InstallSh.SKILL_DIR cwd) [lit "SKILL.md"] = Some (File e) →
  InstallSh.install cwd args s = (Ok tt, s', o) →
  Stdout (lit "  SKILL.md already exists") ∈ o.
Proof.
  intros He Hrun. apply install_inv in Hrun
    as [(_ & ? & _)
       |(shared & o0 & Hp0 &
         [(o1 & H1 & Hr & ->)
         |[(s1 & o1 & o2 & H1 & H2 & Hr & ->)
         |[(s1 & o1 & s2 & o2 & o3 & H1 & H2 & H3 & Hr & ->)
         |(s1 & o1 & s2 & o2 & s3 & o3 & o4 & H1 & H2 & H3 & H4 & ->)]]])];
    try done.
  apply step_priors_run in H1 as (Hev & _).
  assert (s1 !! path_join (InstallSh.SKILL_DIR cwd) [lit "SKILL.md"] = Some (File e)) as He1.
  { eapply evolves_file_outside; [exact Hev| |exact He]. apply notin_single. path_neq. }
  rewrite step_skill_eq in H2.
  destruct (mkdirp (InstallSh.SKILL_DIR cwd) s1) as [er|t] eqn:Hm; [done|].
  assert (t !! path_join (InstallSh.SKILL_DIR cwd) [lit "SKILL.md"] = Some (File e)) as He2.
  { apply mkdirp_spec in Hm as [_ Hfr].
    destruct (Hfr (path_join (InstallSh.SKILL_DIR cwd) [lit "SKILL.md"]))
      as [E | (E & _)]; congruence. }
  rewrite He2 in H2. injection H2 as _ <-.
  rewrite !elem_of_app. right. right. right. left.
  apply list_elem_of_further, list_elem_of_here.
Qed.

(** C3, as the code has it.  When [SKILL.md] is there, a completed Node
    [init] leaves the bundled text in it; it writes the file, and reports an
    update, when the text differed, and makes no write to it, and reports it
    up to date, when the text was the same.  The shell script never writes
    to a [SKILL.md] that is there, whatever its text, and a completed run of
    it reports that [SKILL.md] already exists. *)
Theorem reference_document_update :
  (∀ (proc : Cli.process) (args : list jsstring) (s s' : filesystem) (o : list event)
     (dest : path) (e b : jsstring),
     skillDest proc (bool_decide (lit "--global" ∈ args)) = Some dest →
     s !! dest = Some (File e) →
     asset_at s (Cli.SKILL_SRC proc) (Cli.SKILL_SRC_ALT proc) = Ok b →
     Cli.init proc args s = (Ok tt, s', o) →
     s' !! dest = Some (File b)
     ∧ (e = b → no_write_to dest o
                ∧ Stdout (lit "  SKILL.md already up to date") ∈ o)
     ∧ (e ≠ b → Write dest b ∈ o
                ∧ Stdout (lit "  Updated SKILL.md to v" ++ Cli.VERSION) ∈ o))
  ∧ (∀ (cwd : path) (args : list jsstring) (s s' : filesystem) (r : result unit)
       (o : list event) (e : jsstring),
       s !! path_join (InstallSh.SKILL_DIR cwd) [lit "SKILL.md"] = Some (File e) →
       InstallSh.install cwd args s = (r, s', o) →
       s' !! path_join (InstallSh.SKILL_DIR cwd) [lit "SKILL.md"] = Some (File e)
       ∧ no_write_to (path_join (InstallSh.SKILL_DIR cwd) [lit "SKILL.md"]) o
       ∧ (r = Ok tt → Stdout (lit "  SKILL.md already exists") ∈ o)).
Proof.
  split.
  - intros proc args s s' o dest e b. apply init_updates_skill.
  - intros cwd args s s' r o e He Hrun.
    destruct (install_keeps_skill cwd args s s' r o e He Hrun) as [H1 H2].
    split; [exact H1|]. split; [exact H2|].
    intros Hr. subst r. exact (install_reports_existing_skill cwd args s s' o e He Hrun).
Qed.

Lemma reference_document_update_witness :
  (fs_of (Cli.init demo_proc [] demo_old_skill) !! demo_skill_dest
   = Some (File InstallSh.SKILL_MD)
   ∧ Write demo_skill_dest InstallSh.SKILL_MD ∈ events_of (Cli.init demo_proc [] demo_old_skill))
  ∧ no_write_to demo_skill_dest (events_of (Cli.init demo_proc [] demo_current_skill))
  ∧ fs_of (InstallSh.install (Cli.cwd demo_proc) [] demo_old_skill) !! demo_skill_dest
    = Some (File demo_old_text)
  ∧ Stdout (lit "  SKILL.md already exists")
    ∈ events_of (InstallSh.install (Cli.cwd demo_proc) [] demo_old_skill).
Proof.
  destruct reference_document_update as [Hnode Hshell]. split; [|split].
  - destruct (Cli.init demo_proc [] demo_old_skill) as [[r s'] o] eqn:Hrun.
    assert (r = Ok tt) as ->.
    { assert (result_of (Cli.init demo_proc [] demo_old_skill) = Ok tt) as Hr
        by (vm_compute; reflexivity).
      rewrite Hrun in Hr. exact Hr. }
    destruct (Hnode demo_proc [] demo_old_skill s' o demo_skill_dest demo_old_text
                InstallSh.SKILL_MD) as (H1 & _ & H3).
    + vm_compute. reflexivity.
    + vm_compute. reflexivity.
    + vm_compute. reflexivity.
    + exact Hrun.
    + split; [exact H1|]. apply H3. vm_compute. intros H. discriminate H.
  - destruct (Cli.init demo_proc [] demo_current_skill) as [[r s'] o] eqn:Hrun.
    assert (r = Ok tt) as ->.
    { assert (result_of (Cli.init demo_proc [] demo_current_skill) = Ok tt) as Hr
        by (vm_compute; reflexivity).
      rewrite Hrun in Hr. exact Hr. }
    destruct (Hnode demo_proc [] demo_current_skill s' o demo_skill_dest InstallSh.SKILL_MD
                InstallSh.SKILL_MD) as (_ & H2 & _).
    + vm_compute. reflexivity.
    + vm_compute. reflexivity.
    + vm_compute. reflexivity.
    + exact Hrun.
    + apply H2. reflexivity.
  - destruct (InstallSh.install (Cli.cwd demo_proc) [] demo_old_skill) as [[r s'] o] eqn:Hrun.
    assert (r = Ok tt) as Hr.
    { assert (result_of (InstallSh.install (Cli.cwd demo_proc) [] demo_old_skill) = Ok tt)
        as Hr by (vm_compute; reflexivity).
      rewrite Hrun in Hr. exact Hr. }
    destruct (Hshell (Cli.cwd demo_proc) [] demo_old_skill s' r o demo_old_text)
      as (H1 & _ & H3).
    + vm_compute. reflexivity.
    + exact Hrun.
    + split; [exact H1 | exact (H3 Hr)].
Defined.

(** C3, as stated, fails for the shell script: a [SKILL.md] whose text
    differs from the bundled one is left as it is. *)
Lemma shell_keeps_stale_document :
  demo_old_skill !! demo_skill_dest = Some (File demo_old_text)
  ∧ demo_old_text ≠ InstallSh.SKILL_MD
  ∧ result_of (InstallSh.install (Cli.cwd demo_proc) [] demo_old_skill) = Ok tt
  ∧ fs_of (InstallSh.install (Cli.cwd demo_proc) [] demo_old_skill) !! demo_skill_dest
    = Some (File demo_old_text).
Proof.
  split; [vm_compute; reflexivity|].
  split; [vm_compute; intros H; discriminate H|].
  split; vm_compute; reflexivity.
Qed.

(** ** The two implementations *)

(** C2, as the code has it.  The Node [init] and the shell script are near
    duplicates.  Run without flags from the same filesystem (a tree), they
    leave the same knowledge directory, whatever their outcome.  The script
    alone has a fourth step: [init] leaves [.gitignore] as it was, a
    completed run of the script leaves one.  When both complete, they leave
    the same reference document provided there was none or it held the
    bundled text already (the bundled text being the one inlined in the
    script), and the same instruction file provided it was there and either
    carried the marker heading or ended with no blank (the bundled fragment
    being, up to the blanks around it, the one inlined in the script). *)
Theorem initializers_agree (proc : Cli.process) (s : filesystem) :
  well_formed s →
  (∀ q : path, Cli.priorsDir proc `suffix_of` q →
     fs_of (Cli.init proc [] s) !! q
     = fs_of (InstallSh.install (Cli.cwd proc) [] s) !! q)
  ∧ fs_of (Cli.init proc [] s) !! InstallSh.gitignore (Cli.cwd proc)
    = s !! InstallSh.gitignore (Cli.cwd proc)
  ∧ ∀ (sN sS : filesystem) (oN oS : list event),
      Cli.init proc [] s = (Ok tt, sN, oN) →
      InstallSh.install (Cli.cwd proc) [] s = (Ok tt, sS, oS) →
      is_file sS (InstallSh.gitignore (Cli.cwd proc)) = true
      ∧ (asset_at s (Cli.SKILL_SRC proc) (Cli.SKILL_SRC_ALT proc) = Ok InstallSh.SKILL_MD →
         s !! path_join (InstallSh.SKILL_DIR (Cli.cwd proc)) [lit "SKILL.md"] = None
         ∨ s !! path_join (InstallSh.SKILL_DIR (Cli.cwd proc)) [lit "SKILL.md"]
           = Some (File InstallSh.SKILL_MD) →
         sN !! path_join (InstallSh.SKILL_DIR (Cli.cwd proc)) [lit "SKILL.md"]
         = sS !! path_join (InstallSh.SKILL_DIR (Cli.cwd proc)) [lit "SKILL.md"])
      ∧ (∀ e : jsstring,
           s !! path_join (Cli.cwd proc) [instructionFile proc s] = Some (File e) →
           includes e Cli.PRIORS_MARKER = true →
           sN !! path_join (Cli.cwd proc) [instructionFile proc s]
           = sS !! path_join (Cli.cwd proc) [instructionFile proc s])
      ∧ (∀ e b : jsstring,
           s !! path_join (Cli.cwd proc) [instructionFile proc s] = Some (File e) →
           includes e Cli.PRIORS_MARKER = false →
           trimEnd e = e →
           asset_at s (Cli.BOOTSTRAP_SRC proc) (Cli.BOOTSTRAP_SRC_ALT proc) = Ok b →
           trim b = trim InstallSh.BOOTSTRAP_TEXT →
           sN !! path_join (Cli.cwd proc) [instructionFile proc s]
           = sS !! path_join (Cli.cwd proc) [instructionFile proc s]).
Proof.
  intros Hwf. split; [|split].
  - intros q Hq. by apply same_knowledge_directory.
  - apply init_leaves_gitignore. reflexivity.
  - intros sN sS oN oS HN HS. split; [|split; [|split]].
    + by eapply install_leaves_gitignore.
    + intros Hb Hd.
      assert (sN !! path_join (InstallSh.SKILL_DIR (Cli.cwd proc)) [lit "SKILL.md"]
              = Some (File InstallSh.SKILL_MD)) as ->
        by exact (init_installs_skill proc [] s sN oN _ InstallSh.SKILL_MD eq_refl Hb HN).
      destruct Hd as [Hd | Hd].
      * by rewrite (install_creates_skill _ [] s sS oS Hd HS).
      * by destruct (install_keeps_skill _ [] s sS _ oS _ Hd HS) as [-> _].
    + intros e He Hm.
      pose proof (init_marked_file proc [] s _ e (instructionFile_cases proc s) He Hm) as [H _].
      rewrite HN in H. unfold fs_of in H. simpl in H. rewrite H.
      pose proof (same_instruction_file proc s e He) as Hsame.
      rewrite <- Hsame in He |- *.
      by rewrite (install_marked _ [] s sS oS e He Hm HS).
    + intros e b He Hm Htight Hb Htrim.
      rewrite (init_appends proc [] s sN oN e b He Hm Hb HN).
      pose proof (same_instruction_file proc s e He) as Hsame.
      rewrite <- Hsame in He |- *.
      rewrite (install_appends _ [] s sS oS e He Hm HS).
      rewrite Htight, Htrim.
      assert (InstallSh.BOOTSTRAP_TEXT = NL :: trim InstallSh.BOOTSTRAP_TEXT) as E
        by (vm_compute; reflexivity).
      rewrite E at 2. reflexivity.
Qed.

Lemma initializers_agree_witness :
  well_formed demo_tight
  ∧ fs_of (Cli.init demo_proc [] demo_tight) !! (lit ".gitkeep" :: demo_priors)
    = fs_of (InstallSh.install (Cli.cwd demo_proc) [] demo_tight) !! (lit ".gitkeep" :: demo_priors)
  ∧ fs_of (Cli.init demo_proc [] demo_tight) !! demo_skill_dest
    = fs_of (InstallSh.install (Cli.cwd demo_proc) [] demo_tight) !! demo_skill_dest
  ∧ fs_of (Cli.init demo_proc [] demo_tight) !! demo_claude
    = fs_of (InstallSh.install (Cli.cwd demo_proc) [] demo_tight) !! demo_claude.
Proof.
  assert (well_formed demo_tight) as Hwf.
  { apply well_formedb_correct. vm_compute. reflexivity. }
  split; [exact Hwf|].
  destruct (initializers_agree demo_proc demo_tight Hwf) as (Hdir & _ & Hdone).
  split.
  { apply Hdir. exists [lit ".gitkeep"]. vm_compute. reflexivity. }
  destruct (Cli.init demo_proc [] demo_tight) as [[rN sN] oN] eqn:HN.
  destruct (InstallSh.install (Cli.cwd demo_proc) [] demo_tight) as [[rS sS] oS] eqn:HS.
  assert (rN = Ok tt) as ->.
  { assert (result_of (Cli.init demo_proc [] demo_tight) = Ok tt) as Hr
      by (vm_compute; reflexivity).
    rewrite HN in Hr. exact Hr. }
  assert (rS = Ok tt) as ->.
  { assert (result_of (InstallSh.install (Cli.cwd demo_proc) [] demo_tight) = Ok tt) as Hr
      by (vm_compute; reflexivity).
    rewrite HS in Hr. exact Hr. }
  destruct (Hdone sN sS oN oS eq_refl eq_refl) as (_ & Hskill & _ & Hinstr).
  split.
  - apply Hskill.
    + vm_compute. reflexivity.
    + left. vm_compute. reflexivity.
  - apply (Hinstr demo_tight_text demo_snippet).
    + vm_compute. reflexivity.
    + vm_compute. reflexivity.
    + vm_compute. reflexivity.
    + vm_compute. reflexivity.
    + vm_compute. reflexivity.
Defined.

(** C2, as stated, fails: where an older [SKILL.md] is in place, both runs
    complete, [init] replaces the document and the script keeps it; and the
    script has written a [.gitignore], which [init] has not. *)
Lemma initializers_differ :
  result_of (Cli.init demo_proc [] demo_old_skill) = Ok tt
  ∧ result_of (InstallSh.install (Cli.cwd demo_proc) [] demo_old_skill) = Ok tt
  ∧ fs_of (Cli.init demo_proc [] demo_old_skill) !! demo_skill_dest
    ≠ fs_of (InstallSh.install (Cli.cwd demo_proc) [] demo_old_skill) !! demo_skill_dest
  ∧ fs_of (Cli.init demo_proc [] demo_old_skill) !! InstallSh.gitignore (Cli.cwd demo_proc)
    ≠ fs_of (InstallSh.install (Cli.cwd demo_proc) [] demo_old_skill)
        !! InstallSh.gitignore (Cli.cwd demo_proc).
Proof.
  split; [vm_compute; reflexivity|]. split; [vm_compute; reflexivity|].
  split; vm_compute; intros H; discriminate H.
Qed.

(** ** The status reporter *)

(** C8. [status] never changes the filesystem: after it, whatever its
    outcome, the filesystem is the one it started from and no directory was
    made and no file written.  When the knowledge directory is absent, the
    command prints that no priors directory was found and returns, so that
    the process ends with status 0. *)
Theorem status_reads_only (proc : Cli.process) (s : filesystem) :
  fs_of (Cli.status proc s) = s
  ∧ read_only (events_of (Cli.status proc s))
  ∧ (s !! Cli.priorsDir proc = None →
     Cli.main proc [lit "status"] s
     = (Ok tt, s,
        [Stdout (lit "No priors directory found. Run `claude-priors init` first.")])
     ∧ exit_status (result_of (Cli.main proc [lit "status"] s)) = 0).
Proof.
  destruct (Cli.status proc s) as [[r s'] o] eqn:Hrun.
  destruct (status_frame proc s s' r o Hrun) as [-> Hro].
  split; [done|]. split; [done|].
  intros HP.
  assert (Cli.main proc [lit "status"] s = Cli.status proc s) as -> by reflexivity.
  rewrite (status_not_initialized proc s HP). done.
Qed.

Lemma status_reads_only_witness :
  demo_base !! Cli.priorsDir demo_proc = None
  ∧ fs_of (Cli.status demo_proc demo_base) = demo_base
  ∧ Cli.main demo_proc [lit "status"] demo_base
    = (Ok tt, demo_base,
       [Stdout (lit "No priors directory found. Run `claude-priors init` first.")]).
Proof.
  assert (demo_base !! Cli.priorsDir demo_proc = None) as HP by (vm_compute; reflexivity).
  split; [exact HP|].
  destruct (status_reads_only demo_proc demo_base) as (H1 & _ & H3).
  split; [exact H1|]. exact (proj1 (H3 HP)).
Defined.







Lemma replace_extension (stem : jsstring) :
  includes stem (lit ".md") = false →
  replace (stem ++ lit ".md") (lit ".md") [] = stem.
Proof.
  assert (lit ".md" = [46; 109; 100]) as -> by (vm_compute; reflexivity).
  induction stem as [|c r IH]; [reflexivity|].
  intros H. cbn [includes] in H. apply orb_false_iff in H as [Hs Hi].
  rewrite <- app_comm_cons. cbn [replace].
  assert (startsWith (c :: r ++ [46; 109; 100]) [46; 109; 100] = false) as ->.
  { destruct r as [|c2 [|c3 r]]; cbn [startsWith app] in *.
    - by rewrite andb_false_r.
    - by rewrite !andb_false_r.
    - exact Hs. }
  by rewrite IH.
Qed.

Lemma frontmatter_none (content : jsstring) :
  Cli.frontmatter content = None
  ↔ ¬ ∃ fm rest : jsstring, content = lit "---" ++ [NL] ++ fm ++ [NL] ++ lit "---" ++ rest.
Proof.
  rewrite frontmatter_eq. split.
  - intros H (fm & rest & ->).
    assert (startsWith (lit "---" ++ [NL] ++ fm ++ [NL] ++ lit "---" ++ rest)
              (lit "---" ++ [NL]) = true) as Hs.
    { apply startsWith_spec. exists (fm ++ [NL] ++ lit "---" ++ rest).
      by rewrite <- !app_assoc. }
    rewrite Hs in H.
    assert (drop 4 (lit "---" ++ [NL] ++ fm ++ [NL] ++ lit "---" ++ rest)
            = fm ++ ([NL] ++ lit "---") ++ rest) as E.
    { rewrite <- !app_assoc. rewrite (app_assoc (lit "---") [NL]).
      apply (drop_app_length (lit "---" ++ [NL])). }
    rewrite E in H.
    destruct (index_of _ _) eqn:Hi; [done|].
    apply index_of_none in Hi.
    assert (includes (fm ++ ([NL] ++ lit "---") ++ rest) ([NL] ++ lit "---") = true)
      as Hin by (apply includes_spec; eauto).
    congruence.
  - intros H. destruct (startsWith content (lit "---" ++ [NL])) eqn:Hs; [|done].
    destruct (index_of _ _) as [i|] eqn:Hi; [|done].
    exfalso. apply H. apply startsWith_spec in Hs as [r ->].
    assert (drop 4 ((lit "---" ++ [NL]) ++ r) = r) as E
      by apply (drop_app_length (lit "---" ++ [NL])).
    rewrite E in Hi. apply index_of_spec in Hi as [post Hpost].
    exists (take i r), post.
    rewrite <- (take_drop i r) at 1. rewrite Hpost. by rewrite <- !app_assoc.
Qed.

(** C7, as the code has it.  The code looks for the metadata block with the
    pattern [^---\n([\s\S]*?)\n---]: a file has one when its text starts with
    three hyphens and a newline and, later, has a newline followed by three
    hyphens, whatever comes after them on that line.  For a file
    [stem.md] with no such block, [stem] having no [.md] inside, [status]
    prints the topic [stem], 0 entries and the date [unknown], adds nothing
    to the total, and goes on. *)
Theorem no_block_defaults
    (proc : Cli.process) (stem content : jsstring) (t : N) (s : filesystem) :
  includes stem (lit ".md") = false →
  s !! path_join (Cli.priorsDir proc) [stem ++ lit ".md"] = Some (File content) →
  (¬ ∃ fm rest : jsstring,
       content = lit "---" ++ [NL] ++ fm ++ [NL] ++ lit "---" ++ rest) →
  Cli.parse (stem ++ lit ".md") content
  = {| Cli.topic := stem; Cli.summary := []; Cli.entries := 0; Cli.lastUpdated := [] |}
  ∧ Cli.status_loop proc [stem ++ lit ".md"] t s
    = (Ok t, s,
       [Stdout (lit "  " ++ stem ++ lit ".md");
        Stdout (lit "    Topic: " ++ stem ++ lit " | Entries: 0 | Updated: unknown");
        Stdout []]).
Proof.
  intros Hstem Hfile Hno. apply frontmatter_none in Hno.
  assert (Cli.parse (stem ++ lit ".md") content
          = {| Cli.topic := stem; Cli.summary := []; Cli.entries := 0;
               Cli.lastUpdated := [] |}) as Hparse.
  { unfold Cli.parse. rewrite Hno. by rewrite replace_extension. }
  split; [exact Hparse|].
  rewrite status_loop_ok.
  - cbn [map concat sum_entries fold_right]. unfold fields_of, content_at.
    rewrite Hfile, Hparse. unfold file_events, Cli.file_line, Cli.shown_date.
    cbn [Cli.topic Cli.summary Cli.entries Cli.lastUpdated].
    rewrite !N.add_0_r. rewrite app_nil_r.
    assert (show_N 0 = lit "0") as -> by (vm_compute; reflexivity).
    assert (lit " | Entries: 0 | Updated: unknown"
            = lit " | Entries: " ++ lit "0" ++ lit " | Updated: " ++ lit "unknown") as ->
      by (vm_compute; reflexivity).
    reflexivity.
  - intros f Hf. events_in Hf. subst f. unfold is_file. by rewrite Hfile.
Qed.

Lemma no_block_defaults_witness :
  Cli.status_loop demo_proc [lit "notes.md"] 0 demo_plain
  = (Ok 0, demo_plain,
     [Stdout (lit "  notes.md");
      Stdout (lit "    Topic: notes | Entries: 0 | Updated: unknown");
      Stdout []]).
Proof.
  destruct (no_block_defaults demo_proc (lit "notes") demo_plain_text 0 demo_plain)
    as [_ H].
  - vm_compute. reflexivity.
  - vm_compute. reflexivity.
  - intros (fm & rest & E). vm_compute in E. discriminate E.
  - assert (lit "notes.md" = lit "notes" ++ lit ".md") as -> by (vm_compute; reflexivity).
    rewrite H. vm_compute. reflexivity.
Defined.

(** C7, as stated, fails: the text below opens with a line of three
    hyphens and has no other such line, so it has no metadata block in the
    specification's sense; its third line only starts with three hyphens.
    The pattern of the code accepts that line as the end of a block, and the
    topic reported for [notes.md] is [x], not [notes]. *)
Lemma loose_closing_delimiter :
  lines demo_loose_text
  = [lit "---"; lit "topic: x"; lit "---- not a delimiter"; []]
  ∧ spec_metadata_block demo_loose_text = false
  ∧ Cli.topic (Cli.parse (lit "notes.md") demo_loose_text) = lit "x"
  ∧ lit "x" ≠ replace (lit "notes.md") (lit ".md") []
  ∧ Cli.file_line (Cli.parse (lit "notes.md") demo_loose_text)
    = lit "    Topic: x | Entries: 0 | Updated: unknown".
Proof.
  split_and!; try (vm_compute; reflexivity).
  vm_compute. intros H; discriminate H.
Qed.

(** ** The exit status *)

Lemma recognized_cases (command : jsstring) :
  recognized command = true →
  command = lit "init" ∨ command = lit "status" ∨ Cli.is_help command = true.
Proof.
  unfold recognized. rewrite !orb_true_iff, !bool_decide_eq_true. tauto.
Qed.

(** C9, as the code has it.  The process ends with status 0 exactly when
    the program returns.  The program itself ends it with status 1, by
    [process.exit(1)], in two cases only: the first argument is not a
    command, in which case the complaint and the usage are printed and
    nothing is touched; or the command is [init] and no candidate location
    of one of the two bundled assets exists, in which case the diagnostic
    listing both locations has been printed.  The one other way to status 1
    is a filesystem fault that goes uncaught, in [init] or [status].
    Conversely an unknown command always ends with 1 and so does [init]
    with an asset at neither location; no arguments and the help commands
    end with 0 and touch nothing. *)
Theorem exit_status_cases (proc : Cli.process) (args : list jsstring)
    (s s' : filesystem) (r : result unit) (o : list event) :
  Cli.main proc args s = (r, s', o) →
  (exit_status r = 0 ∨ exit_status r = 1)
  ∧ (exit_status r = 0 ↔ r = Ok tt)
  ∧ (exit_status r = 1 →
     (r = Exit 1 ∧ unknown_command args ∧ s' = s)
     ∨ (r = Exit 1
        ∧ ∃ rest, args = lit "init" :: rest
        ∧ ((unlocated s' (Cli.SKILL_SRC proc) (Cli.SKILL_SRC_ALT proc)
            ∧ Stderr (asset_diagnostic (Cli.SKILL_SRC proc) (Cli.SKILL_SRC_ALT proc)) ∈ o)
           ∨ (unlocated s' (Cli.BOOTSTRAP_SRC proc) (Cli.BOOTSTRAP_SRC_ALT proc)
              ∧ Stderr (asset_diagnostic (Cli.BOOTSTRAP_SRC proc)
                          (Cli.BOOTSTRAP_SRC_ALT proc)) ∈ o)))
     ∨ (∃ e command rest,
          r = Throw e ∧ args = command :: rest
          ∧ (command = lit "init" ∨ command = lit "status")))
  ∧ (unknown_command args →
     r = Exit 1 ∧ s' = s
     ∧ ∃ command rest usage,
         args = command :: rest ∧ Cli.printUsage s = (Ok tt, s, usage)
         ∧ o = Stderr (lit "Unknown command: " ++ command) :: usage)
  ∧ (∀ rest, args = lit "init" :: rest →
     unlocated s (Cli.SKILL_SRC proc) (Cli.SKILL_SRC_ALT proc)
     ∨ unlocated s (Cli.BOOTSTRAP_SRC proc) (Cli.BOOTSTRAP_SRC_ALT proc) →
     exit_status r = 1)
  ∧ (args = [] ∨ (∃ command rest, args = command :: rest ∧ Cli.is_help command = true) →
     exit_status r = 0 ∧ s' = s).
Proof.
  intros Hrun.
  assert (∀ command rest, args = command :: rest → recognized command = false →
          r = Exit 1 ∧ s' = s
          ∧ ∃ usage, Cli.printUsage s = (Ok tt, s, usage)
                     ∧ o = Stderr (lit "Unknown command: " ++ command) :: usage) as Hunk.
  { intros command rest -> Hc.
    destruct (main_unknown proc (command :: rest) s Hc)
      as (c' & rest' & usage & [= <- <-] & Hu & Hm).
    rewrite Hm in Hrun. injection Hrun as <- <- <-. eauto. }
  assert (∀ command rest, args = command :: rest → Cli.is_help command = true →
          r = Ok tt ∧ s' = s) as Hhelp.
  { intros command rest -> Hc.
    assert (recognized command = true) as Hrec
      by (unfold recognized; rewrite Hc; apply orb_true_r).
    rewrite (main_recognized proc command rest s Hrec) in Hrun.
    destruct (decide (command = lit "init")) as [->|_];
      [vm_compute in Hc; discriminate Hc|].
    destruct (decide (command = lit "status")) as [->|_];
      [vm_compute in Hc; discriminate Hc|].
    by injection Hrun as <- <- _. }
  assert (∀ rest, args = lit "init" :: rest → Cli.init proc rest s = (r, s', o)) as Hinit.
  { intros rest ->. exact Hrun. }
  assert (∀ rest, args = lit "status" :: rest → Cli.status proc s = (r, s', o)) as Hstatus.
  { intros rest ->. exact Hrun. }
  assert (args = []
          ∨ (∃ command rest, args = command :: rest ∧ recognized command = false)
          ∨ (∃ rest, args = lit "init" :: rest)
          ∨ (∃ rest, args = lit "status" :: rest)
          ∨ (∃ command rest, args = command :: rest ∧ Cli.is_help command = true))
    as Hcases.
  { destruct args as [|command rest]; [by left|]. right.
    destruct (recognized command) eqn:Hrec; [|left; eauto]. right.
    apply recognized_cases in Hrec as [->|[->|Hh]]; eauto 6. }
  assert (args = [] → r = Ok tt ∧ s' = s) as Hnil.
  { intros ->. by injection Hrun as <- <- _. }
  assert (∀ code, r = Exit code → code = 1) as Hone.
  { intros code ->.
    destruct Hcases as [E|[(c & rest & E & Hc)|[(rest & E)|[(rest & E)|(c & rest & E & Hc)]]]].
    - by destruct (Hnil E).
    - destruct (Hunk c rest E Hc) as ([= ->] & _). done.
    - apply Hinit in E. by apply init_exit in E as [? _].
    - apply Hstatus in E. by apply status_no_exit in E.
    - by destruct (Hhelp c rest E Hc). }
  split_and!.
  - destruct r as [[]|code|e]; simpl; [by left| |by right].
    right. by apply Hone.
  - destruct r as [[]|code|e]; simpl; [done|..].
    + split; [|done]. intros ->. by pose proof (Hone 0 eq_refl).
    + split; done.
  - intros H1.
    destruct Hcases as [E|[(c & rest & E & Hc)|[(rest & E)|[(rest & E)|(c & rest & E & Hc)]]]].
    + destruct (Hnil E) as [-> _]. done.
    + destruct (Hunk c rest E Hc) as (-> & -> & _). left. split; [done|]. split; [|done].
      subst args. exact Hc.
    + right. pose proof (Hinit rest E) as Hi.
      destruct r as [[]|code|e]; [done| |].
      * left. simpl in H1. subst code. split; [done|]. exists rest. split; [done|].
        by apply init_exit in Hi as [_ Hi].
      * right. exists e, (lit "init"), rest. split; [done|]. split; [done|]. by left.
    + right. right. pose proof (Hstatus rest E) as Hi.
      destruct r as [[]|code|e]; [done|by apply status_no_exit in Hi|].
      exists e, (lit "status"), rest. split; [done|]. split; [done|]. by right.
    + destruct (Hhelp c rest E Hc) as [-> _]. done.
  - intros Hu. destruct args as [|c rest]; [done|].
    destruct (Hunk c rest eq_refl Hu) as (-> & -> & usage & Hus & ->).
    split; [done|]. split; [done|]. by exists c, rest, usage.
  - intros rest E Hmiss. apply Hinit in E.
    destruct r as [[]|code|e]; [|by apply init_exit in E as [-> _]|done].
    apply init_ok_assets in E as [[sc Hsc] [bc Hbc]].
    unfold asset_at, unlocated in *.
    destruct Hmiss as [[H1 H2]|[H1 H2]].
    + by rewrite H1, H2 in Hsc.
    + by rewrite H1, H2 in Hbc.
  - intros [E|(c & rest & E & Hc)].
    + by destruct (Hnil E) as [-> ->].
    + by destruct (Hhelp c rest E Hc) as [-> ->].
Qed.

Lemma exit_status_cases_witness :
  exit_status (result_of (Cli.main demo_proc [lit "frobnicate"] demo_base)) = 1
  ∧ fs_of (Cli.main demo_proc [lit "frobnicate"] demo_base) = demo_base.
Proof.
  destruct (Cli.main demo_proc [lit "frobnicate"] demo_base) as [[r s'] o] eqn:Hrun.
  destruct (exit_status_cases demo_proc [lit "frobnicate"] demo_base s' r o Hrun)
    as (_ & _ & _ & H & _).
  destruct H as (-> & -> & _); [vm_compute; reflexivity|].
  split; reflexivity.
Defined.

(** C9, as stated, fails: status 1 has a third case.  Here the command is
    [status], a command of the program that reads no bundled asset, and both
    assets are in place; a regular file sits where the knowledge directory
    should be, [readdirSync] faults on it, nothing catches the fault, and the
    process ends with status 1. *)
Lemma uncaught_fault_exits_1 :
  well_formed demo_blocked
  ∧ ¬ unknown_command [lit "status"]
  ∧ ¬ unlocated demo_blocked (Cli.SKILL_SRC demo_proc) (Cli.SKILL_SRC_ALT demo_proc)
  ∧ ¬ unlocated demo_blocked (Cli.BOOTSTRAP_SRC demo_proc) (Cli.BOOTSTRAP_SRC_ALT demo_proc)
  ∧ Cli.main demo_proc [lit "status"] demo_blocked
    = (Throw (ENOTDIR (Cli.priorsDir demo_proc)), demo_blocked, [])
  ∧ exit_status (result_of (Cli.main demo_proc [lit "status"] demo_blocked)) = 1.
Proof.
  split_and!.
  - apply well_formedb_correct. vm_compute. reflexivity.
  - vm_compute. intros H; discriminate H.
  - intros [H _]. vm_compute in H. discriminate H.
  - intros [H _]. vm_compute in H. discriminate H.
  - vm_compute. reflexivity.
  - vm_compute. reflexivity.
Qed.

(** * Further properties of the code *)

(** ** What [init] leaves alone *)

Lemma init_evolves (proc : Cli.process) (args : list jsstring) (s s' : filesystem) r o :
  Cli.init proc args s = (r, s', o) →
  evolves (early_targets proc (bool_decide (lit "--global" ∈ args))
           ++ [path_join (Cli.cwd proc) [lit "CLAUDE.md"];
               path_join (Cli.cwd proc) [lit "AGENTS.md"]]) s s'.
Proof.
  intros Hrun.
  apply init_summary in Hrun as (s2 & o12 & Hev & _ & [(-> & _) | (bc & o3 & _ & H3 & _)]).
  - eapply evolves_weaken; [|exact Hev]. intros q Hq. apply elem_of_app. by left.
  - apply init_bootstrap_run in H3 as (Hev3 & _).
    eapply evolves_trans.
    + eapply evolves_weaken; [|exact Hev]. intros q Hq. apply elem_of_app. by left.
    + eapply evolves_weaken; [|exact Hev3]. intros q Hq.
      apply list_elem_of_singleton in Hq as ->. apply elem_of_app. right.
      destruct (instructionFile_cases proc s2) as [-> | ->].
      * apply list_elem_of_here.
      * apply list_elem_of_further, list_elem_of_here.
Qed.

(** X1. [init] deletes nothing and rewrites nothing but its own files:
    after a run, whatever its flags and its outcome, a directory that was
    there is still a directory, a regular file that was there is still a
    regular file, and it holds the text it held unless it is the [.gitkeep]
    marker, the destination [SKILL.md], or [CLAUDE.md] or [AGENTS.md] of the
    working directory. *)
Theorem init_keeps_what_is_there (proc : Cli.process) (args : list jsstring)
    (s s' : filesystem) (r : result unit) (o : list event) :
  Cli.init proc args s = (r, s', o) →
  (∀ q, s !! q = Some Dir → s' !! q = Some Dir)
  ∧ (∀ q c, s !! q = Some (File c) → ∃ c', s' !! q = Some (File c'))
  ∧ (∀ q c, s !! q = Some (File c) →
            q ≠ path_join (Cli.priorsDir proc) [lit ".gitkeep"] →
            skillDest proc (bool_decide (lit "--global" ∈ args)) ≠ Some q →
            q ≠ path_join (Cli.cwd proc) [lit "CLAUDE.md"] →
            q ≠ path_join (Cli.cwd proc) [lit "AGENTS.md"] →
            s' !! q = Some (File c)).
Proof.
  intros Hrun. apply init_evolves in Hrun as Hev. split; [|split].
  - intros q Hq. by eapply evolves_dir.
  - intros q c Hq. destruct (Hev q) as [E | [[E _] | (_ & _ & c' & E)]].
    + exists c. by rewrite E.
    + congruence.
    + by exists c'.
  - intros q c Hq HG HD HC HA. eapply evolves_file_outside; [exact Hev| |exact Hq].
    intros Hin. apply elem_of_app in Hin as [Hin|Hin].
    + apply early_targets_cases in Hin as [-> | (dir & Hdir & ->)]; [done|].
      apply HD. unfold skillDest. by rewrite Hdir.
    + events_in Hin; done.
Qed.

Lemma init_keeps_what_is_there_witness :
  fs_of (Cli.init demo_proc [] demo_status) !! (lit "data.md" :: demo_priors)
  = Some (File demo_data_text).
Proof.
  destruct (Cli.init demo_proc [] demo_status) as [[r s'] o] eqn:Hrun.
  destruct (init_keeps_what_is_there demo_proc [] demo_status s' r o Hrun) as (_ & _ & H).
  apply H.
  - vm_compute. reflexivity.
  - vm_compute. intros E; discriminate E.
  - vm_compute. intros E; discriminate E.
  - vm_compute. intros E; discriminate E.
  - vm_compute. intros E; discriminate E.
Defined.

(** X2. A knowledge directory that is already there is left exactly as it
    is by [init] (run without [--global]), whatever the outcome: every path
    at or under [.claude/priors] holds after the run what it held before; no
    knowledge file is changed, and no [.gitkeep] is added. *)
Theorem init_keeps_knowledge_directory (proc : Cli.process) (args : list jsstring)
    (s : filesystem) (q : path) :
  bool_decide (lit "--global" ∈ args) = false →
  is_Some (s !! Cli.priorsDir proc) →
  Cli.priorsDir proc `suffix_of` q →
  fs_of (Cli.init proc args s) !! q = s !! q.
Proof.
  intros Hg HP Hq.
  destruct (Cli.init proc args s) as [[r s'] o] eqn:Hrun. unfold fs_of. simpl.
  apply init_after_priors in Hrun as (r1 & s1 & o1 & H1 & Hlate).
  rewrite (init_priors_settled proc s HP) in H1. injection H1 as _ <- _.
  rewrite Hg in Hlate. apply Hlate.
  by destruct (descendant_untouched proc q Hq).
Qed.

Lemma init_keeps_knowledge_directory_witness :
  fs_of (Cli.init demo_proc [] demo_status) !! (lit ".gitkeep" :: demo_priors) = None
  ∧ fs_of (Cli.init demo_proc [] demo_status) !! (lit "schema.md" :: demo_priors)
    = Some (File demo_schema_text).
Proof.
  assert (bool_decide (lit "--global" ∈ ([] : list jsstring)) = false) as Hg
    by (vm_compute; reflexivity).
  assert (is_Some (demo_status !! Cli.priorsDir demo_proc)) as HP
    by (exists Dir; vm_compute; reflexivity).
  split.
  - rewrite (init_keeps_knowledge_directory demo_proc [] demo_status
               (lit ".gitkeep" :: demo_priors) Hg HP).
    + vm_compute. reflexivity.
    + exists [lit ".gitkeep"]. vm_compute. reflexivity.
  - rewrite (init_keeps_knowledge_directory demo_proc [] demo_status
               (lit "schema.md" :: demo_priors) Hg HP).
    + vm_compute. reflexivity.
    + exists [lit "schema.md"]. vm_compute. reflexivity.
Defined.

(** ** The instruction file *)

Lemma candidates_distinct : lit "CLAUDE.md" ≠ lit "AGENTS.md".
Proof. vm_compute. intros E; discriminate E. Qed.

Lemma candidate_paths_apart (cwd : path) :
  path_join cwd [lit "CLAUDE.md"] ≠ path_join cwd [lit "AGENTS.md"].
Proof. path_neq. Qed.

Lemma candidate_paths_distinct (proc : Cli.process) :
  path_join (Cli.cwd proc) [lit "CLAUDE.md"] ≠ path_join (Cli.cwd proc) [lit "AGENTS.md"].
Proof. apply candidate_paths_apart. Qed.

(** X3. In a project with neither [CLAUDE.md] nor [AGENTS.md], a completed
    [init] creates [CLAUDE.md] holding the trimmed bootstrap fragment and a
    newline, and creates no [AGENTS.md]. *)
Theorem init_creates_instructions (proc : Cli.process) (args : list jsstring)
    (s s' : filesystem) (o : list event) (b : jsstring) :
  s !! path_join (Cli.cwd proc) [lit "CLAUDE.md"] = None →
  s !! path_join (Cli.cwd proc) [lit "AGENTS.md"] = None →
  asset_at s (Cli.BOOTSTRAP_SRC proc) (Cli.BOOTSTRAP_SRC_ALT proc) = Ok b →
  Cli.init proc args s = (Ok tt, s', o) →
  s' !! path_join (Cli.cwd proc) [lit "CLAUDE.md"] = Some (File (trim b ++ [NL]))
  ∧ s' !! path_join (Cli.cwd proc) [lit "AGENTS.md"] = None
  ∧ Stdout (lit "  Created CLAUDE.md with priors bootstrap") ∈ o.
Proof.
  intros HC HA Hb Hrun.
  assert (instructionFile proc s = lit "CLAUDE.md") as Hi.
  { unfold instructionFile, exists_at. by rewrite HC, HA. }
  apply init_ok_bootstrap in Hrun as (s2 & bc & o3 & Hb' & Hi2 & Hsame & H3 & Hout & _).
  rewrite Hb in Hb'. injection Hb' as <-.
  rewrite Hi in Hi2, Hsame. rewrite HC in Hsame.
  assert (s2 !! path_join (Cli.cwd proc) [lit "AGENTS.md"] = None) as HA2.
  { unfold instructionFile, exists_at in Hi2. rewrite Hsame in Hi2.
    destruct (s2 !! path_join (Cli.cwd proc) [lit "AGENTS.md"]); [|done].
    by destruct candidates_distinct. }
  rewrite init_bootstrap_eq in H3. rewrite Hi2, Hsame in H3.
  destruct (put_file _ _ s2) as [e|s3] eqn:Hput; [done|].
  injection H3 as <- <-. apply put_file_spec in Hput as (-> & _).
  split; [by rewrite lookup_insert_eq|]. split.
  - rewrite lookup_insert_ne; [done|]. apply candidate_paths_distinct.
  - assert (lit "  Created CLAUDE.md with priors bootstrap"
            = lit "  Created " ++ lit "CLAUDE.md" ++ lit " with priors bootstrap") as ->
      by (vm_compute; reflexivity).
    apply Hout. apply list_elem_of_further, list_elem_of_here.
Qed.

Lemma init_creates_instructions_witness :
  fs_of (Cli.init demo_proc [] demo_base) !! demo_claude
  = Some (File (trim demo_snippet ++ [NL]))
  ∧ fs_of (Cli.init demo_proc [] demo_base) !! path_join (Cli.cwd demo_proc) [lit "AGENTS.md"]
    = None.
Proof.
  destruct (Cli.init demo_proc [] demo_base) as [[r s'] o] eqn:Hrun.
  assert (r = Ok tt) as ->.
  { assert (result_of (Cli.init demo_proc [] demo_base) = Ok tt) as Hr
      by (vm_compute; reflexivity).
    rewrite Hrun in Hr. exact Hr. }
  destruct (init_creates_instructions demo_proc [] demo_base s' o demo_snippet)
    as (H1 & H2 & _).
  - vm_compute. reflexivity.
  - vm_compute. reflexivity.
  - vm_compute. reflexivity.
  - exact Hrun.
  - split; [exact H1 | exact H2].
Defined.

Lemma init_priors_candidates (proc : Cli.process) (s s' : filesystem) r o (f : jsstring) :
  f ∈ Cli.candidates →
  Cli.init_priors proc s = (r, s', o) →
  s' !! path_join (Cli.cwd proc) [f] = s !! path_join (Cli.cwd proc) [f].
Proof.
  intros Hf Hrun. apply init_priors_frame in Hrun. apply Hrun.
  unfold Cli.candidates in Hf.
  intros [[k E] | E].
  - unfold Cli.priorsDir, path_join in E. simpl in E.
    destruct k as [|x1 [|x2 [|x3 k]]]; simpl in E.
    + events_in Hf; subst f; injection E as E _; vm_compute in E; discriminate E.
    + events_in Hf; subst f; injection E as _ E _; vm_compute in E; discriminate E.
    + apply (f_equal (@length _)) in E. simpl in E. lia.
    + apply (f_equal (@length _)) in E. simpl in E. rewrite length_app in E. simpl in E. lia.
  - revert E. events_in Hf; subst f; path_neq.
Qed.

Lemma init_skill_candidates (proc : Cli.process) (c : jsstring) (s s' : filesystem) r o
    (f : jsstring) :
  f ∈ Cli.candidates →
  Cli.init_skill proc false c s = (r, s', o) →
  s' !! path_join (Cli.cwd proc) [f] = s !! path_join (Cli.cwd proc) [f].
Proof.
  intros Hf Hrun.
  apply (init_skill_frame proc false _ c s s' r o eq_refl) in Hrun. apply Hrun.
  unfold Cli.candidates in Hf.
  intros [[k E] | E].
  - unfold path_join in E. simpl in E.
    destruct k as [|x1 [|x2 [|x3 [|x4 k]]]]; simpl in E.
    + events_in Hf; subst f; injection E as E _; vm_compute in E; discriminate E.
    + events_in Hf; subst f; injection E as _ E _; vm_compute in E; discriminate E.
    + events_in Hf; subst f; injection E as _ _ E _; vm_compute in E; discriminate E.
    + apply (f_equal (@length _)) in E. simpl in E. lia.
    + apply (f_equal (@length _)) in E. simpl in E. rewrite length_app in E.
      simpl in E. lia.
  - apply (f_equal (@length _)) in E. unfold path_join in E. simpl in E. lia.
Qed.

Lemma init_bootstrap_elsewhere (proc : Cli.process) (b : jsstring) (s s' : filesystem) r o
    (q : path) :
  Cli.init_bootstrap proc b s = (r, s', o) →
  q ≠ path_join (Cli.cwd proc) [instructionFile proc s] →
  s' !! q = s !! q.
Proof.
  rewrite init_bootstrap_eq. intros Hrun Hq.
  destruct (s !! path_join (Cli.cwd proc) [instructionFile proc s]) as [[e|]|].
  - destruct (includes e Cli.PRIORS_MARKER); [by injection Hrun as _ <- _|].
    destruct (put_file _ _ s) as [er|s1] eqn:Hput; [by injection Hrun as _ <- _|].
    injection Hrun as _ <- _. apply put_file_spec in Hput as (-> & _).
    by rewrite lookup_insert_ne.
  - by injection Hrun as _ <- _.
  - destruct (put_file _ _ s) as [er|s1] eqn:Hput; [by injection Hrun as _ <- _|].
    injection Hrun as _ <- _. apply put_file_spec in Hput as (-> & _).
    by rewrite lookup_insert_ne.
Qed.

Lemma instructionFile_ext (proc : Cli.process) (s t : filesystem) :
  (∀ f, f ∈ Cli.candidates →
        t !! path_join (Cli.cwd proc) [f] = s !! path_join (Cli.cwd proc) [f]) →
  instructionFile proc t = instructionFile proc s.
Proof.
  intros H. unfold instructionFile, exists_at.
  rewrite (H (lit "CLAUDE.md")) by apply list_elem_of_here.
  by rewrite (H (lit "AGENTS.md")) by apply list_elem_of_further, list_elem_of_here.
Qed.

(** The runs of [init] without [--global], up to the third step. *)
Lemma init_before_bootstrap (proc : Cli.process) (args : list jsstring)
    (s s' : filesystem) r o :
  bool_decide (lit "--global" ∈ args) = false →
  Cli.init proc args s = (r, s', o) →
  ∃ s2 : filesystem,
    (∀ f, f ∈ Cli.candidates →
          s2 !! path_join (Cli.cwd proc) [f] = s !! path_join (Cli.cwd proc) [f])
    ∧ (s' = s2 ∨ ∃ (bc : jsstring) (o3 : list event),
                   Cli.init_bootstrap proc bc s2 = (r, s', o3)).
Proof.
  intros Hg Hrun. apply init_inv in Hrun
    as [(o1 & H1 & Hr & ->)
       |[(o1 & H1 & Hf & ->)
       |[(s1 & o1 & sc & o2 & H1 & Ha & H2 & Hr & ->)
       |[(s1 & o1 & sc & o2 & H1 & Ha & H2 & Hf & ->)
       |(s1 & o1 & sc & s2 & o2 & bc & o3 & H1 & Ha & H2 & Hb & H3 & ->)]]]];
    rewrite ?Hg in *.
  - exists s'. split; [|by left]. intros f Hc. by eapply init_priors_candidates.
  - exists s'. split; [|by left]. intros f Hc. by eapply init_priors_candidates.
  - exists s'. split; [|by left]. intros f Hc.
    rewrite (init_skill_candidates proc sc s1 s' r o2 f Hc H2).
    by eapply init_priors_candidates.
  - exists s'. split; [|by left]. intros f Hc.
    rewrite (init_skill_candidates proc sc s1 s' (Ok tt) o2 f Hc H2).
    by eapply init_priors_candidates.
  - exists s2. split; [|right; eauto]. intros f Hc.
    rewrite (init_skill_candidates proc sc s1 s2 (Ok tt) o2 f Hc H2).
    by eapply init_priors_candidates.
Qed.

(** X4. [init] (run without [--global]) settles on one instruction file,
    [CLAUDE.md] if it exists, else [AGENTS.md] if it exists, else
    [CLAUDE.md], and leaves the other name alone: what was at the other
    path before the run is there after it, and when only [AGENTS.md] exists
    no [CLAUDE.md] is created. *)
Theorem init_writes_one_candidate (proc : Cli.process) (args : list jsstring)
    (s s' : filesystem) (r : result unit) (o : list event) :
  bool_decide (lit "--global" ∈ args) = false →
  Cli.init proc args s = (r, s', o) →
  (∀ f, f ∈ Cli.candidates → f ≠ instructionFile proc s →
        s' !! path_join (Cli.cwd proc) [f] = s !! path_join (Cli.cwd proc) [f])
  ∧ (s !! path_join (Cli.cwd proc) [lit "CLAUDE.md"] = None →
     is_Some (s !! path_join (Cli.cwd proc) [lit "AGENTS.md"]) →
     instructionFile proc s = lit "AGENTS.md"
     ∧ s' !! path_join (Cli.cwd proc) [lit "CLAUDE.md"] = None).
Proof.
  intros Hg Hrun.
  assert (∀ f, f ∈ Cli.candidates → f ≠ instructionFile proc s →
               s' !! path_join (Cli.cwd proc) [f] = s !! path_join (Cli.cwd proc) [f]) as H.
  { intros f Hf Hne.
    destruct (init_before_bootstrap proc args s s' r o Hg Hrun)
      as (s2 & Hsame & [-> | (bc & o3 & H3)]); [by apply Hsame|].
    rewrite <- (Hsame f Hf). eapply init_bootstrap_elsewhere; [exact H3|].
    rewrite (instructionFile_ext proc s s2 Hsame). intros E.
    unfold path_join in E. simpl in E. by injection E. }
  split; [exact H|]. intros HC [n HA].
  assert (instructionFile proc s = lit "AGENTS.md") as Hi.
  { unfold instructionFile, exists_at. by rewrite HC, HA. }
  split; [exact Hi|]. rewrite <- HC. apply H; [apply list_elem_of_here|].
  rewrite Hi. apply candidates_distinct.
Qed.

Lemma init_writes_one_candidate_witness :
  fs_of (Cli.init demo_proc [] demo_agents) !! demo_claude = None
  ∧ instructionFile demo_proc demo_agents = lit "AGENTS.md".
Proof.
  destruct (Cli.init demo_proc [] demo_agents) as [[r s'] o] eqn:Hrun.
  destruct (init_writes_one_candidate demo_proc [] demo_agents s' r o) as [_ H].
  - vm_compute. reflexivity.
  - exact Hrun.
  - destruct H as [H1 H2].
    + vm_compute. reflexivity.
    + exists (File demo_notes_text). vm_compute. reflexivity.
    + split; [exact H2 | exact H1].
Defined.

(** X5. After a completed run the bootstrap is in place: the instruction
    file the run settled on is a regular file that contains the marker
    heading, so that the next run finds it.  For [init] this needs the
    bundled fragment to contain the heading; the fragment inlined in the
    script does. *)
Theorem bootstrap_in_place :
  (∀ (proc : Cli.process) (args : list jsstring) (s s' : filesystem) (o : list event)
     (b : jsstring),
     asset_at s (Cli.BOOTSTRAP_SRC proc) (Cli.BOOTSTRAP_SRC_ALT proc) = Ok b →
     includes b Cli.PRIORS_MARKER = true →
     Cli.init proc args s = (Ok tt, s', o) →
     ∃ e, s' !! path_join (Cli.cwd proc) [instructionFile proc s] = Some (File e)
          ∧ includes e Cli.PRIORS_MARKER = true)
  ∧ (∀ (cwd : path) (args : list jsstring) (s s' : filesystem) (o : list event),
       InstallSh.install cwd args s = (Ok tt, s', o) →
       ∃ e, s' !! path_join cwd [sh_instructionFile cwd s] = Some (File e)
            ∧ includes e InstallSh.PRIORS_MARKER = true).
Proof.
  split.
  - intros proc args s s' o b Hb Hm Hrun.
    apply init_ok_bootstrap in Hrun as (s2 & bc & o3 & Hb' & Hi2 & _ & H3 & _).
    rewrite Hb in Hb'. injection Hb' as <-.
    apply init_bootstrap_run in H3 as (_ & _ & _ & H3).
    destruct (H3 eq_refl) as (_ & e & He & Hin). rewrite Hi2 in He.
    exists e. split; [exact He|]. apply Hin. by apply marker_survives_trim.
  - intros cwd args s s' o Hrun.
    apply install_ok_bootstrap in Hrun as (s2 & s3 & o3 & Hi2 & _ & H3 & Hsame).
    apply step_bootstrap_run in H3 as (_ & _ & _ & _ & H3).
    destruct (H3 eq_refl) as (_ & e & He & Hin). rewrite Hi2 in He.
    exists e. split; [by rewrite Hsame|].
    rewrite <- Hin. symmetry. apply bre_search_literal, marker_has_no_dot.
Qed.

Lemma bootstrap_in_place_witness :
  (∃ e, fs_of (Cli.init demo_proc [] demo_notes) !! demo_claude = Some (File e)
        ∧ includes e Cli.PRIORS_MARKER = true)
  ∧ (∃ e, fs_of (InstallSh.install (Cli.cwd demo_proc) [] demo_notes) !! demo_claude
          = Some (File e)
          ∧ includes e InstallSh.PRIORS_MARKER = true).
Proof.
  destruct bootstrap_in_place as [HN HS]. split.
  - destruct (Cli.init demo_proc [] demo_notes) as [[r s'] o] eqn:Hrun.
    assert (r = Ok tt) as ->.
    { assert (result_of (Cli.init demo_proc [] demo_notes) = Ok tt) as Hr
        by (vm_compute; reflexivity).
      rewrite Hrun in Hr. exact Hr. }
    assert (instructionFile demo_proc demo_notes = lit "CLAUDE.md") as Hi
      by (vm_compute; reflexivity).
    destruct (HN demo_proc [] demo_notes s' o demo_snippet) as (e & He & Hin).
    + vm_compute. reflexivity.
    + vm_compute. reflexivity.
    + exact Hrun.
    + rewrite Hi in He. exists e. split; [exact He | exact Hin].
  - destruct (InstallSh.install (Cli.cwd demo_proc) [] demo_notes) as [[r s'] o] eqn:Hrun.
    assert (r = Ok tt) as ->.
    { assert (result_of (InstallSh.install (Cli.cwd demo_proc) [] demo_notes) = Ok tt) as Hr
        by (vm_compute; reflexivity).
      rewrite Hrun in Hr. exact Hr. }
    assert (sh_instructionFile (Cli.cwd demo_proc) demo_notes = lit "CLAUDE.md") as Hi
      by (vm_compute; reflexivity).
    destruct (HS (Cli.cwd demo_proc) [] demo_notes s' o Hrun) as (e & He & Hin).
    rewrite Hi in He. exists e. split; [exact He | exact Hin].
Defined.

(** ** The [--global] flag *)

Lemma global_frame (proc : Cli.process) (h q : path) :
  Cli.env_home proc = Some h →
  h ≠ Cli.cwd proc →
  ¬ path_join (Cli.cwd proc) [lit ".claude"; lit "skills"] `suffix_of` h →
  path_join (Cli.cwd proc) [lit ".claude"; lit "skills"] `suffix_of` q →
  ¬ (q `suffix_of` Cli.priorsDir proc
     ∨ q = path_join (Cli.priorsDir proc) [lit ".gitkeep"])
  ∧ ¬ late_touched proc true q.
Proof.
  intros Hh Hne Hout [k ->].
  unfold path_join in *. simpl in *.
  assert (lit "skills" ≠ lit "priors") as N1 by (vm_compute; intros E; discriminate E).
  assert (lit "skills" ≠ lit "knowledge-extraction") as N2
    by (vm_compute; intros E; discriminate E).
  assert (lit "skills" ≠ lit ".claude") as N3 by (vm_compute; intros E; discriminate E).
  assert (lit "skills" ≠ lit "SKILL.md") as N4 by (vm_compute; intros E; discriminate E).
  assert (lit ".gitkeep" ≠ lit "skills") as N5 by (vm_compute; intros E; discriminate E).
  split.
  - intros [[k' E] | E].
    + unfold Cli.priorsDir, path_join in E. simpl in E.
      rewrite app_assoc in E.
      destruct (k' ++ k) as [|x l]; simpl in E; [congruence|].
      apply (f_equal (@length _)) in E. simpl in E. rewrite length_app in E.
      simpl in E. lia.
    + unfold Cli.priorsDir, path_join in E. simpl in E.
      destruct k as [|x1 [|x2 k]]; simpl in E; [congruence..|].
      apply (f_equal (@length _)) in E. simpl in E. rewrite length_app in E.
      simpl in E. lia.
  - intros [(dir & Hdir & Hq) | [E | E]].
    + unfold Cli.skillDir in Hdir. rewrite Hh in Hdir. injection Hdir as <-.
      unfold path_join in Hq. simpl in Hq. destruct Hq as [[k' E] | E].
      * rewrite app_assoc in E.
        destruct (k' ++ k) as [|a [|b [|c k3]]]; simpl in E; [congruence..|].
        apply Hout. exists k3. congruence.
      * destruct k as [|a [|b [|c [|d k4]]]]; simpl in E; [congruence..|].
        apply Hout. exists k4. congruence.
    + apply (f_equal (@length _)) in E. simpl in E. rewrite length_app in E.
      simpl in E. lia.
    + apply (f_equal (@length _)) in E. simpl in E. rewrite length_app in E.
      simpl in E. lia.
Qed.

(** X6. With [--global] and a home directory, a completed [init] leaves the
    bundled reference document at
    [~/.claude/skills/knowledge-extraction/SKILL.md]; and, whatever the
    outcome, it leaves the project's own [.claude/skills] as it was, nothing
    being created or changed at or under it (the home directory being
    neither the project directory nor inside its [.claude/skills]). *)
Theorem init_global (proc : Cli.process) (args : list jsstring) (h : path)
    (s s' : filesystem) (r : result unit) (o : list event) :
  lit "--global" ∈ args →
  Cli.env_home proc = Some h →
  Cli.init proc args s = (r, s', o) →
  (∀ b, asset_at s (Cli.SKILL_SRC proc) (Cli.SKILL_SRC_ALT proc) = Ok b →
        r = Ok tt →
        s' !! path_join h [lit ".claude"; lit "skills"; lit "knowledge-extraction";
                           lit "SKILL.md"] = Some (File b))
  ∧ (h ≠ Cli.cwd proc →
     ¬ path_join (Cli.cwd proc) [lit ".claude"; lit "skills"] `suffix_of` h →
     ∀ q, path_join (Cli.cwd proc) [lit ".claude"; lit "skills"] `suffix_of` q →
          s' !! q = s !! q).
Proof.
  intros Hg Hh Hrun.
  assert (bool_decide (lit "--global" ∈ args) = true) as Hgb by by apply bool_decide_eq_true.
  split.
  - intros b Hb ->.
    apply (init_installs_skill proc args s s' o _ b); [|exact Hb|exact Hrun].
    unfold skillDest, Cli.skillDir. by rewrite Hgb, Hh.
  - intros Hne Hout q Hq.
    destruct (global_frame proc h q Hh Hne Hout Hq) as [H1 H2].
    apply init_after_priors in Hrun as (r1 & s1 & o1 & Hp & Hlate).
    rewrite Hgb in Hlate. rewrite (Hlate q H2).
    apply init_priors_frame in Hp. by apply Hp.
Qed.

Lemma init_global_witness :
  fs_of (Cli.init demo_proc [lit "--global"] demo_base)
    !! abs ["home"; "dev"; ".claude"; "skills"; "knowledge-extraction"; "SKILL.md"]%string
  = Some (File InstallSh.SKILL_MD)
  ∧ fs_of (Cli.init demo_proc [lit "--global"] demo_base)
      !! abs ["home"; "dev"; "project"; ".claude"; "skills"]%string
    = None.
Proof.
  destruct (Cli.init demo_proc [lit "--global"] demo_base) as [[r s'] o] eqn:Hrun.
  assert (r = Ok tt) as Hr.
  { assert (result_of (Cli.init demo_proc [lit "--global"] demo_base) = Ok tt) as Hr
      by (vm_compute; reflexivity).
    rewrite Hrun in Hr. exact Hr. }
  destruct (init_global demo_proc [lit "--global"] (abs ["home"; "dev"]%string)
              demo_base s' r o) as [H1 H2].
  - apply list_elem_of_here.
  - reflexivity.
  - exact Hrun.
  - split.
    + apply (H1 InstallSh.SKILL_MD); [vm_compute; reflexivity | exact Hr].
    + unfold fs_of. simpl.
      rewrite (H2 ltac:(vm_compute; intros E; discriminate E)).
      * vm_compute. reflexivity.
      * intros [k E]. apply (f_equal (@length _)) in E. rewrite length_app in E.
        assert (length (path_join (Cli.cwd demo_proc) [lit ".claude"; lit "skills"])
                = 5%nat) as L by (vm_compute; reflexivity).
        rewrite L in E. simpl in E. lia.
      * exists []. vm_compute. reflexivity.
Defined.

(** X7. With [--global] and no home directory in the environment ([HOME]
    and [USERPROFILE] both unset or empty) [init] never completes: it stops
    in its second step, on the [TypeError] of [path.join], when the first
    step went through and the reference document was found; what it leaves
    is what its first step leaves. *)
Theorem init_global_without_home (proc : Cli.process) (args : list jsstring)
    (s s' : filesystem) (r : result unit) (o : list event) :
  lit "--global" ∈ args →
  Cli.env_home proc = None →
  Cli.init proc args s = (r, s', o) →
  r ≠ Ok tt
  ∧ s' = fs_of (Cli.init_priors proc s)
  ∧ (result_of (Cli.init_priors proc s) = Ok tt →
     ∀ sc, asset_at s' (Cli.SKILL_SRC proc) (Cli.SKILL_SRC_ALT proc) = Ok sc →
           r = Throw TypeError)
  ∧ (∀ p x, Write p x ∈ o → p = path_join (Cli.priorsDir proc) [lit ".gitkeep"]).
Proof.
  intros Hg Hh Hrun.
  assert (bool_decide (lit "--global" ∈ args) = true) as Hgb by by apply bool_decide_eq_true.
  assert (∀ sc t, Cli.init_skill proc true sc t = (Throw TypeError, t, [])) as Hskill.
  { intros sc t. apply init_skill_none. unfold Cli.skillDir. by rewrite Hh. }
  apply init_inv in Hrun
    as [(o1 & H1 & Hr & ->)
       |[(o1 & H1 & Hf & ->)
       |[(s1 & o1 & sc & o2 & H1 & Ha & H2 & Hr & ->)
       |[(s1 & o1 & sc & o2 & H1 & Ha & H2 & Hf & ->)
       |(s1 & o1 & sc & s2 & o2 & bc & o3 & H1 & Ha & H2 & Hb & H3 & ->)]]]];
    rewrite ?Hgb, ?Hskill in *; try done.
  - split; [done|]. rewrite H1. split; [done|]. split; [by intros E; simpl in E|].
    intros p x Hw. apply init_priors_run in H1 as (_ & Hw1 & _).
    unfold init_header in Hw. events_in Hw; try done. by eapply Hw1.
  - rewrite H1. split.
    { intros ->. by destruct (asset_at s' _ _). }
    split; [done|]. split.
    { intros _ sc Hsc. rewrite Hsc in Hf. done. }
    intros p x Hw. apply init_priors_run in H1 as (_ & Hw1 & _).
    unfold init_header, asset_events in Hw.
    apply elem_of_app in Hw as [Hw|Hw]; [events_in Hw; done|].
    apply elem_of_app in Hw as [Hw|Hw]; [by eapply Hw1|].
    destruct (asset_at s' _ _); events_in Hw; done.
  - injection H2 as <- <- <-. rewrite H1. split; [done|]. split; [done|]. split; [done|].
    intros p x Hw. apply init_priors_run in H1 as (_ & Hw1 & _).
    unfold init_header in Hw.
    apply elem_of_app in Hw as [Hw|Hw]; [events_in Hw; done|].
    apply elem_of_app in Hw as [Hw|Hw]; [by eapply Hw1|]. by apply elem_of_nil in Hw.
Qed.

Lemma init_global_without_home_witness :
  result_of (Cli.init demo_homeless [lit "--global"] demo_base) = Throw TypeError
  ∧ fs_of (Cli.init demo_homeless [lit "--global"] demo_base) !! demo_priors = Some Dir.
Proof.
  destruct (Cli.init demo_homeless [lit "--global"] demo_base) as [[r s'] o] eqn:Hrun.
  destruct (init_global_without_home demo_homeless [lit "--global"] demo_base s' r o)
    as (_ & Hs & Hr & _).
  - apply list_elem_of_here.
  - reflexivity.
  - exact Hrun.
  - unfold result_of, fs_of. simpl. split.
    + apply (Hr ltac:(vm_compute; reflexivity) InstallSh.SKILL_MD).
      rewrite Hs. vm_compute. reflexivity.
    + rewrite Hs. vm_compute. reflexivity.
Defined.

(** ** The bundled assets *)

(** X8. [init] is not atomic about its assets.  When the reference document
    is at neither of its locations, the run does not complete and leaves
    what its first step leaves: the knowledge directory is made, with its
    [.gitkeep] the only file written.  When the bootstrap fragment is at
    neither of its locations, the run does not complete either, after the
    first two steps: it has written no file but [.gitkeep] and the
    destination [SKILL.md], and an instruction file that was there holds
    the text it held. *)
Theorem init_stops_on_missing_asset (proc : Cli.process) (args : list jsstring)
    (s s' : filesystem) (r : result unit) (o : list event) :
  Cli.init proc args s = (r, s', o) →
  (unlocated s (Cli.SKILL_SRC proc) (Cli.SKILL_SRC_ALT proc) →
   r ≠ Ok tt
   ∧ s' = fs_of (Cli.init_priors proc s)
   ∧ ∀ p x, Write p x ∈ o → p = path_join (Cli.priorsDir proc) [lit ".gitkeep"])
  ∧ (unlocated s (Cli.BOOTSTRAP_SRC proc) (Cli.BOOTSTRAP_SRC_ALT proc) →
     r ≠ Ok tt
     ∧ (∀ p x, Write p x ∈ o →
               p ∈ early_targets proc (bool_decide (lit "--global" ∈ args)))
     ∧ ∀ f c, f ∈ Cli.candidates →
              s !! path_join (Cli.cwd proc) [f] = Some (File c) →
              s' !! path_join (Cli.cwd proc) [f] = Some (File c)).
Proof.
  intros Hrun. split.
  - intros [HA HB].
    assert (∀ s1 o1 sc, Cli.init_priors proc s = (Ok tt, s1, o1) →
              asset_at s1 (Cli.SKILL_SRC proc) (Cli.SKILL_SRC_ALT proc) = Ok sc → False)
      as Hno.
    { intros s1 o1 sc H1 Hsc.
      apply (init_priors_early proc false) in H1 as [Hev _].
      destruct (assets_not_early proc false) as (N1 & N2 & _).
      apply (asset_at_back _ _ _ _ _ _ Hev N1 N2) in Hsc.
      unfold asset_at in Hsc. by rewrite HA, HB in Hsc. }
    apply init_inv in Hrun
      as [(o1 & H1 & Hr & ->)
         |[(o1 & H1 & Hf & ->)
         |[(s1 & o1 & sc & o2 & H1 & Ha & H2 & Hr & ->)
         |[(s1 & o1 & sc & o2 & H1 & Ha & H2 & Hf & ->)
         |(s1 & o1 & sc & s2 & o2 & bc & o3 & H1 & Ha & H2 & Hb & H3 & ->)]]]];
      try (by destruct (Hno _ _ _ H1 Ha)).
    + split; [done|]. rewrite H1. split; [done|].
      intros p x Hw. apply init_priors_run in H1 as (_ & Hw1 & _).
      unfold init_header in Hw. events_in Hw; try done. by eapply Hw1.
    + rewrite H1. split.
      { intros ->. by destruct (asset_at s' _ _). }
      split; [done|].
      intros p x Hw. apply init_priors_run in H1 as (_ & Hw1 & _).
      unfold init_header, asset_events in Hw.
      apply elem_of_app in Hw as [Hw|Hw]; [events_in Hw; done|].
      apply elem_of_app in Hw as [Hw|Hw]; [by eapply Hw1|].
      destruct (asset_at s' _ _); events_in Hw; done.
  - intros [HA HB].
    apply init_summary in Hrun
      as (s2 & o12 & Hev & Hw12 & [(-> & Hr & Hw) | (bc & o3 & Hb & _)]).
    + split; [done|]. split; [by eauto|].
      intros f c Hf Hc. eapply evolves_file_outside; [exact Hev| |exact Hc].
      by apply candidate_not_early.
    + destruct (assets_not_early proc (bool_decide (lit "--global" ∈ args)))
        as (_ & _ & N1 & N2).
      apply (asset_at_back _ _ _ _ _ _ Hev N1 N2) in Hb.
      unfold asset_at in Hb. by rewrite HA, HB in Hb.
Qed.

Lemma init_stops_on_missing_asset_witness :
  (result_of (Cli.init demo_proc [] demo_bare) = Exit 1
   ∧ fs_of (Cli.init demo_proc [] demo_bare) = fs_of (Cli.init_priors demo_proc demo_bare))
  ∧ (result_of (Cli.init demo_proc [] demo_no_snippet) = Exit 1
     ∧ fs_of (Cli.init demo_proc [] demo_no_snippet) !! demo_claude
       = Some (File demo_notes_text)
     ∧ fs_of (Cli.init demo_proc [] demo_no_snippet) !! demo_skill_dest
       = Some (File InstallSh.SKILL_MD)).
Proof.
  split.
  - split; [vm_compute; reflexivity|].
    destruct (Cli.init demo_proc [] demo_bare) as [[r s'] o] eqn:Hrun.
    destruct (init_stops_on_missing_asset demo_proc [] demo_bare s' r o Hrun) as [H _].
    destruct H as (_ & H & _); [split; vm_compute; reflexivity|]. exact H.
  - split; [vm_compute; reflexivity|]. split; [|vm_compute; reflexivity].
    destruct (Cli.init demo_proc [] demo_no_snippet) as [[r s'] o] eqn:Hrun.
    destruct (init_stops_on_missing_asset demo_proc [] demo_no_snippet s' r o Hrun)
      as [_ H].
    destruct H as (_ & _ & H); [split; vm_compute; reflexivity|].
    apply (H (lit "CLAUDE.md")); [apply list_elem_of_here|].
    vm_compute. reflexivity.
Defined.

(** X9. The reference document [init] installs is the one of the primary
    asset location when a file is there, whatever is at the fallback
    location, and the one of the fallback location when nothing is at the
    primary one: after a completed run (without [--global]) the project's
    [SKILL.md] holds exactly that text. *)
Theorem init_installs_primary_asset (proc : Cli.process) (args : list jsstring)
    (s s' : filesystem) (o : list event) (c : jsstring) :
  bool_decide (lit "--global" ∈ args) = false →
  s !! Cli.SKILL_SRC proc = Some (File c)
  ∨ (s !! Cli.SKILL_SRC proc = None ∧ s !! Cli.SKILL_SRC_ALT proc = Some (File c)) →
  Cli.init proc args s = (Ok tt, s', o) →
  s' !! path_join (Cli.cwd proc)
          [lit ".claude"; lit "skills"; lit "knowledge-extraction"; lit "SKILL.md"]
  = Some (File c).
Proof.
  intros Hg Hc Hrun.
  apply (init_installs_skill proc args s s' o _ c); [by rewrite Hg| |exact Hrun].
  unfold asset_at. destruct Hc as [-> | [-> ->]]; reflexivity.
Qed.

Lemma init_installs_primary_asset_witness :
  demo_two_assets !! Cli.SKILL_SRC_ALT demo_proc = Some (File demo_old_text)
  ∧ fs_of (Cli.init demo_proc [] demo_two_assets) !! demo_skill_dest
    = Some (File InstallSh.SKILL_MD).
Proof.
  split; [vm_compute; reflexivity|].
  destruct (Cli.init demo_proc [] demo_two_assets) as [[r s'] o] eqn:Hrun.
  assert (r = Ok tt) as ->.
  { assert (result_of (Cli.init demo_proc [] demo_two_assets) = Ok tt) as Hr
      by (vm_compute; reflexivity).
    rewrite Hrun in Hr. exact Hr. }
  apply (init_installs_primary_asset demo_proc [] demo_two_assets s' o InstallSh.SKILL_MD).
  - vm_compute. reflexivity.
  - left. vm_compute. reflexivity.
  - exact Hrun.
Defined.

(** ** The report *)

Lemma entries_of_spec (p : path) (s : filesystem) (x : jsstring) :
  x ∈ entries_of p s ↔ is_Some (s !! (x :: p)).
Proof.
  unfold entries_of. rewrite list_elem_of_omap. split.
  - intros ([k n] & Hin & Hx). apply elem_of_map_to_list in Hin. simpl in Hx.
    destruct k as [|y q]; [done|]. destruct (decide (q = p)) as [->|]; [|done].
    injection Hx as ->. by exists n.
  - intros [n Hn]. exists (x :: p, n). split; [by apply elem_of_map_to_list|].
    simpl. by rewrite decide_True.
Qed.

Lemma status_loop_faults (proc : Cli.process) (files : list jsstring) (t : N)
    (s : filesystem) (f : jsstring) :
  (∀ g, g ∈ files → is_Some (s !! path_join (Cli.priorsDir proc) [g])) →
  f ∈ files → is_file s (path_join (Cli.priorsDir proc) [f]) = false →
  ∃ g o, g ∈ files
         ∧ s !! path_join (Cli.priorsDir proc) [g] = Some Dir
         ∧ Cli.status_loop proc files t s
           = (Throw (EISDIR (path_join (Cli.priorsDir proc) [g])), s, o).
Proof.
  revert t. induction files as [|g files IH]; intros t Hall Hf Hnf;
    [by apply elem_of_nil in Hf|].
  simpl. unfold bind at 1. unfold Fs.readFileSync.
  destruct (s !! path_join (Cli.priorsDir proc) [g]) as [[c|]|] eqn:Hg.
  - assert (f ∈ files) as Hf'.
    { apply elem_of_cons in Hf as [->|Hf]; [|done].
      unfold is_file in Hnf. by rewrite Hg in Hnf. }
    destruct (IH (t + Cli.entries (Cli.parse g c))) as (g' & o & Hg' & Hd & Hrec);
      [intros g' Hg'; by apply Hall, list_elem_of_further|done..|].
    exists g'. unfold bind, Console.log, emit.
    destruct (Cli.summary (Cli.parse g c)); unfold ret; rewrite Hrec;
      eexists; (split; [by apply list_elem_of_further|split; [done|reflexivity]]).
  - exists g, []. split; [apply list_elem_of_here|done].
  - destruct (Hall g (list_elem_of_here _ _)) as [n Hn]. unfold path_join in *. congruence.
Qed.

Lemma regular_or_not (s : filesystem) (p : path) (files : list jsstring) :
  (∀ f, f ∈ files → is_file s (path_join p [f]) = true)
  ∨ ∃ f, f ∈ files ∧ is_file s (path_join p [f]) = false.
Proof.
  induction files as [|f fs IH]; [left; intros f Hf; by apply elem_of_nil in Hf|].
  destruct (is_file s (path_join p [f])) eqn:Hf.
  - destruct IH as [IH | (g & Hg & Hng)].
    + left. intros g Hg. apply elem_of_cons in Hg as [->|Hg]; [done|by apply IH].
    + right. exists g. split; [by apply list_elem_of_further|done].
  - right. exists f. split; [apply list_elem_of_here|done].
Qed.

(** X10. Given the knowledge directory, [status] completes exactly when
    every entry of it whose name ends in [.md] is a regular file.  An entry
    with such a name that is a directory makes [readFileSync] fault with
    [EISDIR], and nothing catches the fault. *)
Theorem status_completes_iff (proc : Cli.process) (s : filesystem) :
  s !! Cli.priorsDir proc = Some Dir →
  (result_of (Cli.status proc s) = Ok tt
   ↔ ∀ f, f ∈ md_files proc s →
          is_file s (path_join (Cli.priorsDir proc) [f]) = true)
  ∧ (result_of (Cli.status proc s) ≠ Ok tt →
     ∃ f, f ∈ md_files proc s
          ∧ s !! path_join (Cli.priorsDir proc) [f] = Some Dir
          ∧ result_of (Cli.status proc s)
            = Throw (EISDIR (path_join (Cli.priorsDir proc) [f]))).
Proof.
  intros HP.
  assert ((∀ f, f ∈ md_files proc s →
                is_file s (path_join (Cli.priorsDir proc) [f]) = true)
          → result_of (Cli.status proc s) = Ok tt) as Hok.
  { intros Hreg. destruct (md_files proc s) as [|f0 fs] eqn:Hmd.
    - unfold Cli.status. unfold bind at 1. unfold Fs.existsSync, exists_at.
      rewrite HP. simpl. unfold bind at 1. unfold Fs.readdirSync. rewrite HP.
      unfold md_files in Hmd. rewrite Hmd. reflexivity.
    - rewrite status_ok; [done..| |]; rewrite Hmd; [done|exact Hreg]. }
  assert (∀ g, g ∈ md_files proc s →
               is_Some (s !! path_join (Cli.priorsDir proc) [g])) as Hall.
  { intros g Hg. unfold md_files in Hg. apply list_elem_of_filter in Hg as [_ Hg].
    by apply entries_of_spec in Hg. }
  assert (∀ f, f ∈ md_files proc s →
               is_file s (path_join (Cli.priorsDir proc) [f]) = false →
               ∃ g, g ∈ md_files proc s
                    ∧ s !! path_join (Cli.priorsDir proc) [g] = Some Dir
                    ∧ result_of (Cli.status proc s)
                      = Throw (EISDIR (path_join (Cli.priorsDir proc) [g]))) as Hbad.
  { intros f Hf Hnf.
    unfold Cli.status. unfold bind at 1. unfold Fs.existsSync, exists_at.
    rewrite HP. simpl. unfold bind at 1. unfold Fs.readdirSync. rewrite HP.
    fold (md_files proc s).
    destruct (md_files proc s) as [|f0 fs] eqn:Hmd; [by apply elem_of_nil in Hf|].
    destruct (status_loop_faults proc (f0 :: fs) 0 s f Hall Hf Hnf)
      as (g & o & Hg & Hd & Hloop).
    unfold bind at 1. unfold Console.log at 1. unfold emit at 1.
    unfold bind at 1. rewrite Hloop. by exists g. }
  destruct (regular_or_not s (Cli.priorsDir proc) (md_files proc s))
    as [H | (f & Hf & Hnf)].
  - split; [split; [done|exact Hok]|]. intros Hr. by destruct Hr; apply Hok.
  - destruct (Hbad f Hf Hnf) as (g & Hg & Hd & Hres). split; [split|].
    + intros Hr. congruence.
    + intros Hreg. rewrite Hreg in Hnf; done.
    + intros _. by exists g.
Qed.

Lemma status_completes_iff_witness :
  result_of (Cli.status demo_proc demo_status) = Ok tt
  ∧ result_of (Cli.status demo_proc demo_md_dir)
    = Throw (EISDIR (lit "old.md" :: demo_priors)).
Proof.
  split.
  - apply (status_completes_iff demo_proc demo_status); [vm_compute; reflexivity|].
    intros f Hf.
    assert (md_files demo_proc demo_status = [lit "data.md"; lit "schema.md"]) as E
      by (vm_compute; reflexivity).
    rewrite E in Hf. apply elem_of_cons in Hf as [->|Hf]; [vm_compute; reflexivity|].
    apply list_elem_of_singleton in Hf as ->. vm_compute; reflexivity.
  - destruct (status_completes_iff demo_proc demo_md_dir) as [_ H];
      [vm_compute; reflexivity|].
    destruct H as (f & Hf & _ & Hres); [vm_compute; intros E; discriminate E|].
    assert (md_files demo_proc demo_md_dir = [lit "old.md"]) as E
      by (vm_compute; reflexivity).
    rewrite E in Hf. apply list_elem_of_singleton in Hf as ->. exact Hres.
Defined.

Lemma status_empty (proc : Cli.process) (s : filesystem) :
  s !! Cli.priorsDir proc = Some Dir →
  md_files proc s = [] →
  Cli.status proc s
  = (Ok tt, s,
     [Stdout (lit "Priors directory exists but is empty. The agent will start writing priors as it learns." ++ [NL])]).
Proof.
  intros HP Hmd. unfold Cli.status. unfold bind at 1. unfold Fs.existsSync, exists_at.
  rewrite HP. simpl. unfold bind at 1. unfold Fs.readdirSync. rewrite HP.
  unfold md_files in Hmd. rewrite Hmd. reflexivity.
Qed.

Lemma init_priors_fresh (proc : Cli.process) (s s1 : filesystem) o1 :
  well_formed s →
  s !! Cli.priorsDir proc = None →
  Cli.init_priors proc s = (Ok tt, s1, o1) →
  s1 !! Cli.priorsDir proc = Some Dir
  ∧ ∀ x, is_Some (s1 !! (x :: Cli.priorsDir proc)) → x = lit ".gitkeep".
Proof.
  intros [_ Hwf] HP. unfold Cli.init_priors. unfold_prims. rewrite HP. simpl.
  destruct (mkdirp (Cli.priorsDir proc) s) as [e|s0] eqn:Hm; simpl; [done|].
  destruct (put_file _ [] s0) as [e|s2] eqn:Hput; simpl; [done|].
  intros [= <- _]. apply put_file_spec in Hput as (-> & _).
  apply mkdirp_spec in Hm as [HP0 Hfr]. split.
  - rewrite lookup_insert_ne; [done|]. unfold path_join. simpl. intros E.
    apply (f_equal (@length _)) in E. simpl in E. lia.
  - intros x Hx. destruct (decide (x = lit ".gitkeep")) as [|Hne]; [done|].
    rewrite lookup_insert_ne in Hx by (unfold path_join; simpl; congruence).
    destruct (Hfr (x :: Cli.priorsDir proc)) as [E | (_ & _ & [k E])].
    + rewrite E in Hx. apply Hwf in Hx. congruence.
    + apply (f_equal (@length _)) in E. rewrite length_app in E. simpl in E. lia.
Qed.

(** X11. The two commands compose: in a project (a tree) that has no
    knowledge directory, after a completed [init] (without [--global])
    [status] finds the directory, finds no knowledge file in it (only the
    [.gitkeep] marker is there) and reports it as empty. *)
Theorem status_after_init (proc : Cli.process) (args : list jsstring)
    (s s' : filesystem) (o : list event) :
  well_formed s →
  s !! Cli.priorsDir proc = None →
  bool_decide (lit "--global" ∈ args) = false →
  Cli.init proc args s = (Ok tt, s', o) →
  (∀ x, x ∈ entries_of (Cli.priorsDir proc) s' ↔ x = lit ".gitkeep")
  ∧ Cli.status proc s'
    = (Ok tt, s',
       [Stdout (lit "Priors directory exists but is empty. The agent will start writing priors as it learns." ++ [NL])]).
Proof.
  intros Hwf HP Hg Hrun.
  pose proof Hrun as Hrun'.
  apply init_after_priors in Hrun' as (r1 & s1 & o1 & H1 & Hlate). rewrite Hg in Hlate.
  assert (r1 = Ok tt) as ->.
  { apply init_inv in Hrun
      as [(o1' & H1' & Hr & _)
         |[(o1' & H1' & Hf & _)
         |[(s1' & o1' & sc & o2 & H1' & _)
         |[(s1' & o1' & sc & o2 & H1' & _)
         |(s1' & o1' & sc & s2 & o2 & bc & o3 & H1' & _)]]]];
      try done; try (rewrite H1 in H1'; by injection H1' as ->). }
  destruct (init_priors_fresh proc s s1 o1 Hwf HP H1) as [HP1 Honly].
  assert (∀ q, Cli.priorsDir proc `suffix_of` q → s' !! q = s1 !! q) as Hsame.
  { intros q Hq. apply Hlate. by destruct (descendant_untouched proc q Hq). }
  assert (s' !! Cli.priorsDir proc = Some Dir) as HP'.
  { rewrite Hsame; [done|]. by exists []. }
  assert (s' !! path_join (Cli.priorsDir proc) [lit ".gitkeep"] = Some (File [])) as HG.
  { rewrite Hsame; [|by exists [lit ".gitkeep"]].
    revert H1. unfold Cli.init_priors. unfold_prims. rewrite HP. simpl.
    destruct (mkdirp (Cli.priorsDir proc) s) as [e|s0]; simpl; [done|].
    destruct (put_file _ [] s0) as [e|s2] eqn:Hput; simpl; [done|].
    intros [= <- _]. apply put_file_spec in Hput as (-> & _).
    by rewrite lookup_insert_eq. }
  assert (∀ x, x ∈ entries_of (Cli.priorsDir proc) s' ↔ x = lit ".gitkeep") as Hent.
  { intros x. rewrite entries_of_spec. split.
    - intros Hx. apply Honly. rewrite <- Hsame; [done|]. by exists [x].
    - intros ->. by eexists. }
  split; [exact Hent|]. apply status_empty; [exact HP'|].
  apply elem_of_nil_inv. intros x Hx. unfold md_files in Hx.
  apply list_elem_of_filter in Hx as [Hmd Hx]. apply Hent in Hx as ->.
  vm_compute in Hmd. discriminate Hmd.
Qed.

Lemma status_after_init_witness :
  Cli.status demo_proc (fs_of (Cli.init demo_proc [] demo_base))
  = (Ok tt, fs_of (Cli.init demo_proc [] demo_base),
     [Stdout (lit "Priors directory exists but is empty. The agent will start writing priors as it learns." ++ [NL])]).
Proof.
  destruct (Cli.init demo_proc [] demo_base) as [[r s'] o] eqn:Hrun.
  assert (r = Ok tt) as ->.
  { assert (result_of (Cli.init demo_proc [] demo_base) = Ok tt) as Hr
      by (vm_compute; reflexivity).
    rewrite Hrun in Hr. exact Hr. }
  apply (status_after_init demo_proc [] demo_base s' o).
  - apply well_formedb_correct. vm_compute. reflexivity.
  - vm_compute. reflexivity.
  - vm_compute. reflexivity.
  - exact Hrun.
Defined.




(** X13. The default topic is the file name with its first [.md] taken
    out, which is the name without its extension only when the name has no
    other [.md]: for a file [a.md b] whose [a] contains no [.md], and which
    has no metadata block, the topic reported is [a b]. *)
Theorem default_topic_first_md (a b content : jsstring) :
  includes a (lit ".md") = false →
  Cli.frontmatter content = None →
  Cli.topic (Cli.parse (a ++ lit ".md" ++ b) content) = a ++ b.
Proof.
  intros Ha Hfm. unfold Cli.parse. rewrite Hfm. cbn [Cli.topic].
  revert Ha.
  assert (lit ".md" = [46; 109; 100]) as -> by (vm_compute; reflexivity).
  induction a as [|c r IH]; intros Ha; [reflexivity|].
  cbn [includes] in Ha. apply orb_false_iff in Ha as [Hs Hi].
  rewrite <- app_comm_cons. cbn [replace].
  assert (startsWith (c :: r ++ [46; 109; 100] ++ b) [46; 109; 100] = false) as ->.
  { destruct r as [|c2 [|c3 r]]; cbn [startsWith app] in *.
    - by rewrite andb_false_r.
    - by rewrite !andb_false_r.
    - exact Hs. }
  by rewrite IH.
Qed.

Lemma default_topic_first_md_witness :
  Cli.topic (Cli.parse (lit "api.md.notes.md") demo_plain_text) = lit "api.notes.md".
Proof.
  assert (lit "api.md.notes.md" = lit "api" ++ lit ".md" ++ lit ".notes.md") as ->
    by (vm_compute; reflexivity).
  rewrite (default_topic_first_md (lit "api") (lit ".notes.md") demo_plain_text).
  - vm_compute. reflexivity.
  - vm_compute. reflexivity.
  - vm_compute. reflexivity.
Defined.

(** ** The arguments of the script *)

Lemma parse_args_help (args : list jsstring) (shared : bool) (s : filesystem) :
  lit "--help" ∈ args ∨ lit "-h" ∈ args →
  InstallSh.parse_args args shared s = (Exit 0, s, usage_lines).
Proof.
  revert shared. induction args as [|arg args IH]; intros shared Hh.
  { destruct Hh as [Hh|Hh]; by apply elem_of_nil in Hh. }
  cbn [InstallSh.parse_args].
  destruct (decide (arg = lit "--shared")) as [->|Hns].
  - apply IH. destruct Hh as [Hh|Hh]; apply elem_of_cons in Hh as [Hh|Hh];
      try (vm_compute in Hh; discriminate Hh); auto.
  - destruct (bool_decide (arg = lit "--help") || bool_decide (arg = lit "-h")) eqn:Hb.
    + reflexivity.
    + apply orb_false_iff in Hb as [H1 H2]. apply bool_decide_eq_false in H1, H2.
      apply IH. destruct Hh as [Hh|Hh]; apply elem_of_cons in Hh as [Hh|Hh];
        try done; auto.
Qed.

Lemma parse_args_options (args : list jsstring) (shared : bool) (s : filesystem) :
  lit "--help" ∉ args → lit "-h" ∉ args →
  InstallSh.parse_args args shared s
  = (Ok (shared || bool_decide (lit "--shared" ∈ args)), s, []).
Proof.
  revert shared. induction args as [|arg args IH]; intros shared H1 H2.
  { cbn [InstallSh.parse_args]. unfold ret.
    rewrite bool_decide_eq_false_2 by apply not_elem_of_nil. by rewrite orb_false_r. }
  apply not_elem_of_cons in H1 as [N1 H1]. apply not_elem_of_cons in H2 as [N2 H2].
  cbn [InstallSh.parse_args].
  destruct (decide (arg = lit "--shared")) as [->|Hns].
  - rewrite IH by done. rewrite (bool_decide_eq_true_2 (_ ∈ _ :: _)) by apply list_elem_of_here.
    by rewrite orb_true_r.
  - rewrite !bool_decide_eq_false_2 by congruence. simpl. rewrite IH by done.
    do 2 f_equal. f_equal. f_equal. apply bool_decide_ext. rewrite elem_of_cons.
    split; [by right|]. intros [E|E]; [congruence|done].
Qed.

(** X14. [--help] or [-h] anywhere among the arguments of the script, also
    after [--shared] or after an option it does not know, makes it print
    its usage and exit with status 0 before any step: the filesystem is
    untouched. *)
Theorem install_help (cwd : path) (args : list jsstring) (s : filesystem) :
  lit "--help" ∈ args ∨ lit "-h" ∈ args →
  InstallSh.install cwd args s = (Exit 0, s, usage_lines).
Proof.
  intros Hh. unfold InstallSh.install. unfold bind at 1.
  by rewrite (parse_args_help args false s Hh).
Qed.

Lemma install_help_witness :
  InstallSh.install (Cli.cwd demo_proc) [lit "--shared"; lit "--verbose"; lit "-h"] demo_base
  = (Exit 0, demo_base, usage_lines).
Proof.
  apply install_help. right.
  apply list_elem_of_further, list_elem_of_further, list_elem_of_here.
Defined.

(** X15. The script knows [--shared], [--help] and [-h]; any other
    argument is ignored without a word, and so are the order and the
    repetition of arguments: without [--help] and [-h], a run depends on
    its arguments only through whether [--shared] is among them. *)
Theorem install_ignores_unknown_options (cwd : path) (args : list jsstring)
    (s : filesystem) :
  lit "--help" ∉ args → lit "-h" ∉ args →
  InstallSh.install cwd args s
  = InstallSh.install cwd
      (if bool_decide (lit "--shared" ∈ args) then [lit "--shared"] else []) s.
Proof.
  intros H1 H2. unfold InstallSh.install. unfold bind at 1.
  rewrite (parse_args_options args false s H1 H2).
  symmetry. unfold bind at 1.
  destruct (bool_decide (lit "--shared" ∈ args)).
  - rewrite (parse_args_options [lit "--shared"] false s).
    + by rewrite (bool_decide_eq_true_2 (_ ∈ _ :: _)) by apply list_elem_of_here.
    + intros Hin. apply list_elem_of_singleton in Hin. vm_compute in Hin. discriminate Hin.
    + intros Hin. apply list_elem_of_singleton in Hin. vm_compute in Hin. discriminate Hin.
  - by rewrite parse_no_args.
Qed.

Lemma install_ignores_unknown_options_witness :
  InstallSh.install (Cli.cwd demo_proc) [lit "--global"; lit "init"] demo_base
  = InstallSh.install (Cli.cwd demo_proc) [] demo_base.
Proof.
  rewrite (install_ignores_unknown_options (Cli.cwd demo_proc) [lit "--global"; lit "init"]).
  - reflexivity.
  - intros Hin. apply elem_of_cons in Hin as [Hin|Hin]; [vm_compute in Hin; discriminate Hin|].
    apply list_elem_of_singleton in Hin. vm_compute in Hin. discriminate Hin.
  - intros Hin. apply elem_of_cons in Hin as [Hin|Hin]; [vm_compute in Hin; discriminate Hin|].
    apply list_elem_of_singleton in Hin. vm_compute in Hin. discriminate Hin.
Defined.

(** ** The steps of the script and [.gitignore] *)

Lemma step_priors_frame (cwd : path) (s s' : filesystem) r o :
  InstallSh.step_priors cwd s = (r, s', o) →
  same_outside (fun q => q `suffix_of` InstallSh.priorsDir cwd
                         ∨ q = path_join (InstallSh.priorsDir cwd) [lit ".gitkeep"]) s s'.
Proof.
  unfold InstallSh.step_priors. unfold_prims.
  destruct (s !! InstallSh.priorsDir cwd) as [[c|]|] eqn:HP; simpl.
  - rewrite (mkdirp_fails_on_file _ _ _ HP). simpl.
    intros [= <- <- <-]. apply same_outside_refl.
  - intros [= <- <- <-]. apply same_outside_refl.
  - destruct (mkdirp (InstallSh.priorsDir cwd) s) as [e|s1] eqn:Hm; simpl.
    { intros [= <- <- <-]. apply same_outside_refl. }
    apply mkdirp_same_outside in Hm.
    destruct (s1 !! path_join (InstallSh.priorsDir cwd) [lit ".gitkeep"]) as [n|]; simpl.
    + intros [= <- <- <-]. eapply same_outside_weaken; [|exact Hm]. auto.
    + destruct (put_file _ [] s1) as [e|s2] eqn:Hw; simpl; intros [= <- <- <-].
      * eapply same_outside_weaken; [|exact Hm]. auto.
      * eapply same_outside_trans; [exact Hm | by eapply put_file_same_outside].
Qed.

Lemma gitignore_apart (cwd : path) :
  ¬ (InstallSh.gitignore cwd `suffix_of` InstallSh.priorsDir cwd
     ∨ InstallSh.gitignore cwd = path_join (InstallSh.priorsDir cwd) [lit ".gitkeep"])
  ∧ ¬ (InstallSh.gitignore cwd `suffix_of` InstallSh.SKILL_DIR cwd
       ∨ InstallSh.gitignore cwd = path_join (InstallSh.SKILL_DIR cwd) [lit "SKILL.md"])
  ∧ InstallSh.gitignore cwd ≠ path_join cwd [lit "CLAUDE.md"]
  ∧ InstallSh.gitignore cwd ≠ path_join cwd [lit "AGENTS.md"].
Proof.
  assert (∀ l : path,
            last l ≠ Some (lit ".gitignore") →
            l ≠ [] →
            ¬ InstallSh.gitignore cwd `suffix_of` l ++ cwd) as Hsuf.
  { intros l Hl Hne [k E].
    unfold InstallSh.gitignore, path_join in E. simpl in E.
    change (lit ".gitignore" :: cwd) with ([lit ".gitignore"] ++ cwd) in E.
    rewrite app_assoc in E. apply app_inv_tail in E. apply Hl. rewrite E.
    by rewrite last_snoc. }
  split_and!.
  - intros [Hq | Hq].
    + apply (Hsuf [lit "priors"; lit ".claude"]); [|done|exact Hq].
      vm_compute. intros H. discriminate H.
    + revert Hq. path_neq.
  - intros [Hq | Hq].
    + apply (Hsuf [lit "knowledge-extraction"; lit "skills"; lit ".claude"]);
        [|done|exact Hq].
      vm_compute. intros H. discriminate H.
    + revert Hq. path_neq.
  - path_neq.
  - path_neq.
Qed.

(** The first three steps of the script do not touch [.gitignore]. *)
Lemma steps_leave_gitignore (cwd : path) (s : filesystem) :
  (∀ s1 r o, InstallSh.step_priors cwd s = (r, s1, o) →
             s1 !! InstallSh.gitignore cwd = s !! InstallSh.gitignore cwd)
  ∧ (∀ s1 r o, InstallSh.step_skill cwd s = (r, s1, o) →
               s1 !! InstallSh.gitignore cwd = s !! InstallSh.gitignore cwd)
  ∧ (∀ s1 r o, InstallSh.step_bootstrap cwd s = (r, s1, o) →
               s1 !! InstallSh.gitignore cwd = s !! InstallSh.gitignore cwd).
Proof.
  destruct (gitignore_apart cwd) as (N1 & N2 & N3 & N4). split_and!.
  - intros s1 r o H. apply step_priors_frame in H. by apply H.
  - intros s1 r o H. apply step_skill_frame in H. by apply H.
  - intros s1 r o H. apply step_bootstrap_run in H as (_ & [-> | [c ->]] & _); [done|].
    rewrite lookup_insert_ne; [done|].
    destruct (sh_instructionFile_cases cwd s) as [-> | ->]; congruence.
Qed.

(** The runs of the script, by what they do to [.gitignore]. *)
Lemma install_gitignore_cases (cwd : path) (args : list jsstring)
    (s s' : filesystem) r o :
  InstallSh.install cwd args s = (r, s', o) →
  (r ≠ Ok tt ∧ s' !! InstallSh.gitignore cwd = s !! InstallSh.gitignore cwd)
  ∨ ∃ (shared : bool) (s3 : filesystem) (o0 o4 : list event),
      InstallSh.parse_args args false s = (Ok shared, s, o0)
      ∧ s3 !! InstallSh.gitignore cwd = s !! InstallSh.gitignore cwd
      ∧ InstallSh.step_gitignore cwd shared s3 = (r, s', o4)
      ∧ ∀ e, e ∈ o4 → e ∈ o.
Proof.
  intros Hrun. apply install_inv in Hrun
    as [(-> & -> & _)
       |(shared & o0 & Hp0 &
         [(o1 & H1 & Hr & ->)
         |[(s1 & o1 & o2 & H1 & H2 & Hr & ->)
         |[(s1 & o1 & s2 & o2 & o3 & H1 & H2 & H3 & Hr & ->)
         |(s1 & o1 & s2 & o2 & s3 & o3 & o4 & H1 & H2 & H3 & H4 & ->)]]])].
  - by left.
  - left. split; [done|]. by eapply (proj1 (steps_leave_gitignore cwd s)).
  - left. split; [done|].
    rewrite (proj1 (proj2 (steps_leave_gitignore cwd s1)) _ _ _ H2).
    by eapply (proj1 (steps_leave_gitignore cwd s)).
  - left. split; [done|].
    rewrite (proj2 (proj2 (steps_leave_gitignore cwd s2)) _ _ _ H3).
    rewrite (proj1 (proj2 (steps_leave_gitignore cwd s1)) _ _ _ H2).
    by eapply (proj1 (steps_leave_gitignore cwd s)).
  - right. exists shared, s3, o0, o4. split; [done|]. split; [|split; [done|]].
    + rewrite (proj2 (proj2 (steps_leave_gitignore cwd s2)) _ _ _ H3).
      rewrite (proj1 (proj2 (steps_leave_gitignore cwd s1)) _ _ _ H2).
      by eapply (proj1 (steps_leave_gitignore cwd s)).
    + intros e He. rewrite !elem_of_app. do 5 right. by left.
Qed.

Lemma in_dec_args (x : jsstring) (args : list jsstring) : x ∈ args ∨ x ∉ args.
Proof. destruct (decide (x ∈ args)); auto. Qed.

(** X16. With [--shared] the script leaves [.gitignore] alone: whatever the
    outcome of the run, what was at [.gitignore] before is there after, and
    a completed run says that the priors will be git-tracked. *)
Theorem install_shared (cwd : path) (args : list jsstring)
    (s s' : filesystem) (r : result unit) (o : list event) :
  lit "--shared" ∈ args →
  InstallSh.install cwd args s = (r, s', o) →
  s' !! InstallSh.gitignore cwd = s !! InstallSh.gitignore cwd
  ∧ (r = Ok tt → Stdout (lit "  --shared: priors will be git-tracked") ∈ o).
Proof.
  intros Hsh Hrun.
  apply install_gitignore_cases in Hrun
    as [[Hr Hsame] | (shared & s3 & o0 & o4 & Hp & Hsame & H4 & Hsub)]; [done|].
  assert (shared = true) as ->.
  { destruct (in_dec_args (lit "--help") args) as [Hh|Hh];
      [by rewrite (parse_args_help args false s (or_introl Hh)) in Hp|].
    destruct (in_dec_args (lit "-h") args) as [Hh'|Hh'];
      [by rewrite (parse_args_help args false s (or_intror Hh')) in Hp|].
    rewrite (parse_args_options args false s Hh Hh') in Hp. injection Hp as <-.
    by rewrite bool_decide_eq_true_2. }
  rewrite step_gitignore_eq in H4. injection H4 as <- <- <-.
  split; [done|]. intros _. apply Hsub, list_elem_of_here.
Qed.

Lemma install_shared_witness :
  fs_of (InstallSh.install (Cli.cwd demo_proc) [lit "--shared"] demo_base)
    !! InstallSh.gitignore (Cli.cwd demo_proc) = None.
Proof.
  destruct (InstallSh.install (Cli.cwd demo_proc) [lit "--shared"] demo_base)
    as [[r s'] o] eqn:Hrun.
  destruct (install_shared (Cli.cwd demo_proc) [lit "--shared"] demo_base s' r o)
    as [H _]; [apply list_elem_of_here|exact Hrun|].
  change (s' !! InstallSh.gitignore (Cli.cwd demo_proc) = None).
  rewrite H. vm_compute. reflexivity.
Defined.

Lemma ignore_pattern : lit ".claude/priors/" = 46 :: lit "claude/priors/".
Proof. vm_compute. reflexivity. Qed.

Lemma ignore_pattern_no_dot : 46 ∉ lit "claude/priors/".
Proof.
  assert (lit "claude/priors/"
          = [99; 108; 97; 117; 100; 101; 47; 112; 114; 105; 111; 114; 115; 47]) as ->
    by (vm_compute; reflexivity).
  intros Hin. events_in Hin; done.
Qed.

(** What a pattern that starts with a dot finds. *)
Lemma bre_search_dot (pat e : jsstring) :
  46 ∉ pat →
  InstallSh.bre_search (46 :: pat) e = true
  ↔ ∃ pre c suf, e = pre ++ [c] ++ pat ++ suf ∧ c ≠ NL.
Proof.
  intros Hdot. split.
  - induction e as [|b e IH]; simpl; [done|].
    rewrite orb_true_iff, andb_true_iff. intros [[Hb Hh] | Hs].
    + rewrite (bre_here_literal pat e Hdot) in Hh. apply startsWith_spec in Hh as [suf ->].
      exists [], b, suf. split; [done|].
      apply negb_true_iff in Hb. by apply N.eqb_neq in Hb.
    + destruct (IH Hs) as (pre & c & suf & -> & Hc). by exists (b :: pre), c, suf.
  - intros (pre & c & suf & -> & Hc). apply bre_search_app_r. simpl.
    apply orb_true_iff. left. apply andb_true_iff. split.
    + apply negb_true_iff. by apply N.eqb_neq.
    + rewrite (bre_here_literal pat _ Hdot). apply startsWith_app.
Qed.

(** X17. Without [--shared], a completed run of the script leaves a
    [.gitignore] that excludes the knowledge directory: where there was
    none, a new file with the comment line and the rule [.claude/priors/];
    where there was one in which [claude/priors/] does not occur, the old
    text as it was, then an empty line, the comment line and the rule. *)
Theorem install_gitignore_rule (cwd : path) (args : list jsstring)
    (s s' : filesystem) (o : list event) :
  lit "--shared" ∉ args →
  InstallSh.install cwd args s = (Ok tt, s', o) →
  (s !! InstallSh.gitignore cwd = None →
   s' !! InstallSh.gitignore cwd
   = Some (File (lit "# Agent priors (local knowledge)" ++ [NL]
                 ++ lit ".claude/priors/" ++ [NL])))
  ∧ (∀ e, s !! InstallSh.gitignore cwd = Some (File e) →
          includes e (lit "claude/priors/") = false →
          s' !! InstallSh.gitignore cwd
          = Some (File (e ++ [NL] ++ lit "# Agent priors (local knowledge)" ++ [NL]
                        ++ lit ".claude/priors/" ++ [NL]))).
Proof.
  assert (lit "# Agent priors (local knowledge)" ++ [NL] ++ lit ".claude/priors/" ++ [NL]
          = InstallSh.ignore_rule) as -> by (unfold InstallSh.ignore_rule; reflexivity).
  intros Hsh Hrun.
  apply install_gitignore_cases in Hrun
    as [[Hr Hsame] | (shared & s3 & o0 & o4 & Hp & Hsame & H4 & Hsub)]; [done|].
  assert (shared = false) as ->.
  { destruct (in_dec_args (lit "--help") args) as [Hh|Hh];
      [by rewrite (parse_args_help args false s (or_introl Hh)) in Hp|].
    destruct (in_dec_args (lit "-h") args) as [Hh'|Hh'];
      [by rewrite (parse_args_help args false s (or_intror Hh')) in Hp|].
    rewrite (parse_args_options args false s Hh Hh') in Hp. injection Hp as <-.
    by rewrite bool_decide_eq_false_2. }
  rewrite step_gitignore_eq in H4. rewrite Hsame in H4. split.
  - intros HN. rewrite HN in H4.
    destruct (put_file _ _ s3) as [er|s4] eqn:Hput; [done|].
    injection H4 as <- _. apply put_file_spec in Hput as (-> & _).
    by rewrite lookup_insert_eq.
  - intros e He Hno. rewrite He in H4.
    destruct (InstallSh.bre_search (lit ".claude/priors/") e) eqn:Hs.
    + rewrite ignore_pattern in Hs.
      apply (bre_search_dot _ _ ignore_pattern_no_dot) in Hs as (pre & c & suf & -> & _).
      assert (includes (pre ++ [c] ++ lit "claude/priors/" ++ suf) (lit "claude/priors/")
              = true) as Hin; [|congruence].
      apply includes_spec. exists (pre ++ [c]), suf. by rewrite <- !app_assoc.
    + destruct (put_file _ _ s3) as [er|s4] eqn:Hput; [done|].
      injection H4 as <- _. apply put_file_spec in Hput as (-> & _).
      by rewrite lookup_insert_eq.
Qed.

Lemma install_gitignore_rule_witness :
  fs_of (InstallSh.install (Cli.cwd demo_proc) [] demo_base)
    !! InstallSh.gitignore (Cli.cwd demo_proc)
  = Some (File (lit "# Agent priors (local knowledge)
.claude/priors/
"))
  ∧ fs_of (InstallSh.install (Cli.cwd demo_proc) [] demo_ignore)
      !! InstallSh.gitignore (Cli.cwd demo_proc)
    = Some (File (lit "node_modules/

# Agent priors (local knowledge)
.claude/priors/
")).
Proof.
  assert (lit "--shared" ∉ ([] : list jsstring)) as Hsh by apply not_elem_of_nil.
  split.
  - destruct (InstallSh.install (Cli.cwd demo_proc) [] demo_base) as [[r s'] o] eqn:Hrun.
    assert (r = Ok tt) as ->.
    { assert (result_of (InstallSh.install (Cli.cwd demo_proc) [] demo_base) = Ok tt) as Hr
        by (vm_compute; reflexivity).
      rewrite Hrun in Hr. exact Hr. }
    destruct (install_gitignore_rule (Cli.cwd demo_proc) [] demo_base s' o Hsh Hrun)
      as [H _].
    change (s' !! InstallSh.gitignore (Cli.cwd demo_proc) = Some (File (lit "# Agent priors (local knowledge)
.claude/priors/
"))).
    rewrite H; [|vm_compute; reflexivity]. vm_compute. reflexivity.
  - destruct (InstallSh.install (Cli.cwd demo_proc) [] demo_ignore) as [[r s'] o] eqn:Hrun.
    assert (r = Ok tt) as ->.
    { assert (result_of (InstallSh.install (Cli.cwd demo_proc) [] demo_ignore) = Ok tt) as Hr
        by (vm_compute; reflexivity).
      rewrite Hrun in Hr. exact Hr. }
    destruct (install_gitignore_rule (Cli.cwd demo_proc) [] demo_ignore s' o Hsh Hrun)
      as [_ H].
    change (s' !! InstallSh.gitignore (Cli.cwd demo_proc) = Some (File (lit "node_modules/

# Agent priors (local knowledge)
.claude/priors/
"))).
    rewrite (H (lit "node_modules/" ++ [NL])); [|vm_compute; reflexivity..].
    vm_compute. reflexivity.
Defined.

(** X18. The check of [.gitignore] is [grep -q ".claude/priors/"], a
    pattern whose dot stands for any character: a [.gitignore] counts as
    excluding the knowledge directory as soon as [claude/priors/] occurs in
    it after any character of the same line, in a comment or in a longer
    path too.  A completed run then leaves the file as it is, writes
    nothing to it, and says that priors are already excluded. *)
Theorem gitignore_check_is_loose (cwd : path) (args : list jsstring)
    (s s' : filesystem) (o : list event) (pre suf : jsstring) (c : N) :
  lit "--shared" ∉ args →
  c ≠ NL →
  s !! InstallSh.gitignore cwd = Some (File (pre ++ [c] ++ lit "claude/priors/" ++ suf)) →
  InstallSh.install cwd args s = (Ok tt, s', o) →
  s' !! InstallSh.gitignore cwd = Some (File (pre ++ [c] ++ lit "claude/priors/" ++ suf))
  ∧ Stdout (lit "  .gitignore already excludes priors") ∈ o.
Proof.
  intros Hsh Hc He Hrun.
  apply install_gitignore_cases in Hrun
    as [[Hr Hsame] | (shared & s3 & o0 & o4 & Hp & Hsame & H4 & Hsub)]; [done|].
  assert (shared = false) as ->.
  { destruct (in_dec_args (lit "--help") args) as [Hh|Hh];
      [by rewrite (parse_args_help args false s (or_introl Hh)) in Hp|].
    destruct (in_dec_args (lit "-h") args) as [Hh'|Hh'];
      [by rewrite (parse_args_help args false s (or_intror Hh')) in Hp|].
    rewrite (parse_args_options args false s Hh Hh') in Hp. injection Hp as <-.
    by rewrite bool_decide_eq_false_2. }
  rewrite step_gitignore_eq in H4. rewrite Hsame, He in H4.
  assert (InstallSh.bre_search (lit ".claude/priors/")
            (pre ++ [c] ++ lit "claude/priors/" ++ suf) = true) as Hs.
  { rewrite ignore_pattern. apply (bre_search_dot _ _ ignore_pattern_no_dot).
    by exists pre, c, suf. }
  rewrite Hs in H4. injection H4 as <- <-.
  split; [by rewrite Hsame|]. apply Hsub, list_elem_of_here.
Qed.

Lemma gitignore_check_is_loose_witness :
  fs_of (InstallSh.install (Cli.cwd demo_proc) [] demo_ignore_comment)
    !! InstallSh.gitignore (Cli.cwd demo_proc)
  = Some (File (lit "# do not ignore .claude/priors/ here
")).
Proof.
  destruct (InstallSh.install (Cli.cwd demo_proc) [] demo_ignore_comment)
    as [[r s'] o] eqn:Hrun.
  assert (r = Ok tt) as ->.
  { assert (result_of (InstallSh.install (Cli.cwd demo_proc) [] demo_ignore_comment)
            = Ok tt) as Hr by (vm_compute; reflexivity).
    rewrite Hrun in Hr. exact Hr. }
  destruct (gitignore_check_is_loose (Cli.cwd demo_proc) [] demo_ignore_comment s' o
              (lit "# do not ignore ") (lit " here" ++ [NL]) 46) as [H _].
  - apply not_elem_of_nil.
  - vm_compute. intros E; discriminate E.
  - vm_compute. reflexivity.
  - exact Hrun.
  - change (s' !! InstallSh.gitignore (Cli.cwd demo_proc) = Some (File (lit "# do not ignore .claude/priors/ here
"))).
    rewrite H. vm_compute. reflexivity.
Defined.

(** ** The script and the instruction file *)

Lemma sh_candidate_apart (cwd : path) (f : jsstring) :
  f ∈ Cli.candidates →
  ¬ (path_join cwd [f] `suffix_of` InstallSh.priorsDir cwd
     ∨ path_join cwd [f] = path_join (InstallSh.priorsDir cwd) [lit ".gitkeep"])
  ∧ ¬ (path_join cwd [f] `suffix_of` InstallSh.SKILL_DIR cwd
       ∨ path_join cwd [f] = path_join (InstallSh.SKILL_DIR cwd) [lit "SKILL.md"])
  ∧ path_join cwd [f] ≠ InstallSh.gitignore cwd.
Proof.
  intros Hf. unfold Cli.candidates in Hf.
  assert (f ≠ lit ".claude" ∧ f ≠ lit ".gitignore") as [N1 N2].
  { events_in Hf; subst f; split; vm_compute; intros E; discriminate E. }
  assert (∀ (k : path) (E : length (k ++ path_join cwd [f]) = length (k ++ f :: cwd)), True)
    as _ by done.
  split_and!.
  - intros [[k E] | E].
    + unfold InstallSh.priorsDir, path_join in E. simpl in E.
      pose proof (f_equal (@length _) E) as L. rewrite length_app in L. simpl in L.
      destruct k as [|x1 [|x2 k]]; simpl in L; [lia| |lia].
      simpl in E. injection E as _ E. congruence.
    + apply (f_equal (@length _)) in E. unfold path_join in E. simpl in E. lia.
  - intros [[k E] | E].
    + unfold InstallSh.SKILL_DIR, path_join in E. simpl in E.
      pose proof (f_equal (@length _) E) as L. rewrite length_app in L. simpl in L.
      destruct k as [|x1 [|x2 [|x3 k]]]; simpl in L; [lia|lia| |lia].
      simpl in E. injection E as _ _ E. congruence.
    + apply (f_equal (@length _)) in E. unfold path_join in E. simpl in E. lia.
  - unfold InstallSh.gitignore, path_join. simpl. congruence.
Qed.

(** The steps of the script other than the third do not touch [CLAUDE.md]
    and [AGENTS.md]. *)
Lemma sh_steps_leave_candidate (cwd : path) (f : jsstring) (s s1 : filesystem) r o :
  f ∈ Cli.candidates →
  InstallSh.step_priors cwd s = (r, s1, o)
  ∨ InstallSh.step_skill cwd s = (r, s1, o)
  ∨ (∃ shared, InstallSh.step_gitignore cwd shared s = (r, s1, o)) →
  s1 !! path_join cwd [f] = s !! path_join cwd [f]
  ∧ no_write_to (path_join cwd [f]) o.
Proof.
  intros Hf H. destruct (sh_candidate_apart cwd f Hf) as (N1 & N2 & N3).
  destruct H as [H | [H | [shared H]]].
  - split.
    + apply step_priors_frame in H. by apply H.
    + intros c Hw. apply step_priors_run in H as (_ & Hw1 & _).
      apply Hw1 in Hw. apply N1. by right.
  - split.
    + apply step_skill_frame in H. by apply H.
    + intros c Hw. apply step_skill_run in H as (_ & Hw1 & _).
      apply Hw1 in Hw as [Hw _]. apply N2. by right.
  - apply step_gitignore_run in H as (_ & Hs & Hw1 & _). split.
    + destruct Hs as [-> | [c ->]]; [done|]. by rewrite lookup_insert_ne.
    + intros c Hw. apply Hw1 in Hw. done.
Qed.

Lemma sh_instructionFile_same (cwd : path) (s t : filesystem) :
  (∀ f, f ∈ Cli.candidates → t !! path_join cwd [f] = s !! path_join cwd [f]) →
  sh_instructionFile cwd t = sh_instructionFile cwd s.
Proof.
  intros H. apply sh_instructionFile_ext; unfold is_file.
  - by rewrite (H (lit "CLAUDE.md")) by apply list_elem_of_here.
  - by rewrite (H (lit "AGENTS.md")) by apply list_elem_of_further, list_elem_of_here.
Qed.

(** The third step, on a file that has the marker or is not the one it
    settles on. *)
Lemma step_bootstrap_keeps (cwd : path) (f e : jsstring) (s s' : filesystem) r o :
  f ∈ Cli.candidates →
  s !! path_join cwd [f] = Some (File e) →
  includes e InstallSh.PRIORS_MARKER = true →
  InstallSh.step_bootstrap cwd s = (r, s', o) →
  s' !! path_join cwd [f] = Some (File e) ∧ no_write_to (path_join cwd [f]) o.
Proof.
  intros Hf He Hm. rewrite step_bootstrap_eq.
  destruct (decide (f = sh_instructionFile cwd s)) as [->|Hne].
  - rewrite He. rewrite (bre_search_literal _ _ marker_has_no_dot), Hm.
    intros [= <- <- <-]. split; [done|]. intros c Hw. events_in Hw; done.
  - assert (path_join cwd [sh_instructionFile cwd s] ≠ path_join cwd [f]) as Hp
      by (unfold path_join; simpl; congruence).
    assert (∀ c t, put_file (path_join cwd [sh_instructionFile cwd s]) c s = inr t →
                   t !! path_join cwd [f] = Some (File e)) as Hput.
    { intros c t H. apply put_file_spec in H as (-> & _). by rewrite lookup_insert_ne. }
    destruct (s !! path_join cwd [sh_instructionFile cwd s]) as [[e0|]|].
    + destruct (InstallSh.bre_search _ e0).
      * intros [= <- <- <-]. split; [done|]. intros c Hw. events_in Hw; done.
      * destruct (put_file _ _ s) as [er|t] eqn:Hw0; intros [= <- <- <-].
        -- split; [done|]. intros c Hw. events_in Hw; done.
        -- split; [by eapply Hput|]. intros c Hw. events_in Hw; congruence.
    + destruct (put_file _ _ s) as [er|t] eqn:Hw0; intros [= <- <- <-].
      * split; [done|]. intros c Hw. events_in Hw; done.
      * split; [by eapply Hput|]. intros c Hw. events_in Hw; congruence.
    + destruct (put_file _ _ s) as [er|t] eqn:Hw0; intros [= <- <- <-].
      * split; [done|]. intros c Hw. events_in Hw; done.
      * split; [by eapply Hput|]. intros c Hw. events_in Hw; congruence.
Qed.

Lemma no_write_app (p : path) (o1 o2 : list event) :
  no_write_to p o1 → no_write_to p o2 → no_write_to p (o1 ++ o2).
Proof. intros H1 H2 c Hw. apply elem_of_app in Hw as [Hw|Hw]; [by eapply H1|by eapply H2]. Qed.

Lemma no_write_stdout (p : path) (o : list event) :
  (∀ e, e ∈ o → match e with Stdout _ | Stderr _ => True | _ => False end) →
  no_write_to p o.
Proof. intros H c Hw. by apply H in Hw. Qed.

(** X19. The script leaves alone an instruction file that has the marker
    heading, as [init] does: a [CLAUDE.md] or [AGENTS.md] that is a regular
    file and contains [## Priors] holds the same text after a run of the
    script, whatever the arguments and the outcome, and the script makes no
    write to it. *)
Theorem install_keeps_marked_file (cwd : path) (args : list jsstring)
    (s : filesystem) (f e : jsstring) :
  f = lit "CLAUDE.md" ∨ f = lit "AGENTS.md" →
  s !! path_join cwd [f] = Some (File e) →
  includes e InstallSh.PRIORS_MARKER = true →
  fs_of (InstallSh.install cwd args s) !! path_join cwd [f] = Some (File e)
  ∧ no_write_to (path_join cwd [f]) (events_of (InstallSh.install cwd args s)).
Proof.
  intros Hf He Hm.
  assert (f ∈ Cli.candidates) as Hc.
  { destruct Hf as [-> | ->];
      [apply list_elem_of_here | apply list_elem_of_further, list_elem_of_here]. }
  destruct (InstallSh.install cwd args s) as [[r s'] o] eqn:Hrun.
  unfold fs_of, events_of. simpl.
  assert (no_write_to (path_join cwd [f]) (install_header cwd)) as Hhead.
  { intros c Hw. unfold install_header in Hw. events_in Hw; done. }
  assert (no_write_to (path_join cwd [f]) install_footer) as Hfoot.
  { intros c Hw. unfold install_footer in Hw. events_in Hw; done. }
  apply install_inv in Hrun
    as [(-> & -> & Hp)
       |(shared & o0 & Hp0 &
         [(o1 & H1 & Hr & ->)
         |[(s1 & o1 & o2 & H1 & H2 & Hr & ->)
         |[(s1 & o1 & s2 & o2 & o3 & H1 & H2 & H3 & Hr & ->)
         |(s1 & o1 & s2 & o2 & s3 & o3 & o4 & H1 & H2 & H3 & H4 & ->)]]])].
  - split; [done|]. intros c Hw. by apply (parse_args_quiet _ _ _ _ _ _ Hp) in Hw.
  - destruct (sh_steps_leave_candidate cwd f s s' r o1 Hc (or_introl H1)) as [E1 W1].
    split; [by rewrite E1|].
    apply no_write_app; [intros c Hw; by apply (parse_args_quiet _ _ _ _ _ _ Hp0) in Hw|].
    by apply no_write_app.
  - destruct (sh_steps_leave_candidate cwd f s s1 _ o1 Hc (or_introl H1)) as [E1 W1].
    destruct (sh_steps_leave_candidate cwd f s1 s' r o2 Hc (or_intror (or_introl H2)))
      as [E2 W2].
    split; [by rewrite E2, E1|].
    apply no_write_app; [intros c Hw; by apply (parse_args_quiet _ _ _ _ _ _ Hp0) in Hw|].
    repeat apply no_write_app; done.
  - destruct (sh_steps_leave_candidate cwd f s s1 _ o1 Hc (or_introl H1)) as [E1 W1].
    destruct (sh_steps_leave_candidate cwd f s1 s2 _ o2 Hc (or_intror (or_introl H2)))
      as [E2 W2].
    destruct (step_bootstrap_keeps cwd f e s2 s' r o3 Hc) as [E3 W3];
      [by rewrite E2, E1|done..|].
    split; [done|].
    apply no_write_app; [intros c Hw; by apply (parse_args_quiet _ _ _ _ _ _ Hp0) in Hw|].
    repeat apply no_write_app; done.
  - destruct (sh_steps_leave_candidate cwd f s s1 _ o1 Hc (or_introl H1)) as [E1 W1].
    destruct (sh_steps_leave_candidate cwd f s1 s2 _ o2 Hc (or_intror (or_introl H2)))
      as [E2 W2].
    destruct (step_bootstrap_keeps cwd f e s2 s3 (Ok tt) o3 Hc) as [E3 W3];
      [by rewrite E2, E1|done..|].
    destruct (sh_steps_leave_candidate cwd f s3 s' r o4 Hc
                (or_intror (or_intror (ex_intro _ shared H4)))) as [E4 W4].
    split; [by rewrite E4|].
    apply no_write_app; [intros c Hw; by apply (parse_args_quiet _ _ _ _ _ _ Hp0) in Hw|].
    repeat apply no_write_app; try done.
    destruct r; [done|intros c Hw; by apply elem_of_nil in Hw..].
Qed.

Lemma install_keeps_marked_file_witness :
  fs_of (InstallSh.install (Cli.cwd demo_proc) [] demo_heading) !! demo_claude
  = Some (File demo_heading_text)
  ∧ no_write_to demo_claude (events_of (InstallSh.install (Cli.cwd demo_proc) [] demo_heading)).
Proof.
  apply (install_keeps_marked_file (Cli.cwd demo_proc) [] demo_heading (lit "CLAUDE.md")
           demo_heading_text).
  - left. reflexivity.
  - vm_compute. reflexivity.
  - vm_compute. reflexivity.
Defined.

(** ** What the script never does *)

Lemma only_appended_refl (s : filesystem) : only_appended s s.
Proof. split; [|done]. intros q c H. exists []. by rewrite app_nil_r. Qed.

Lemma only_appended_trans (s t u : filesystem) :
  only_appended s t → only_appended t u → only_appended s u.
Proof.
  intros [F1 D1] [F2 D2]. split; [|by auto].
  intros q c H. destruct (F1 q c H) as [c1 H1]. destruct (F2 q _ H1) as [c2 H2].
  exists (c1 ++ c2). by rewrite app_assoc.
Qed.

Lemma only_appended_evolves (T : list path) (s t : filesystem) :
  evolves T s t →
  (∀ q c, q ∈ T → s !! q = Some (File c) → ∃ c', t !! q = Some (File (c ++ c'))) →
  only_appended s t.
Proof.
  intros Hev HT. split; [|intros q; by apply evolves_dir with T].
  intros q c H. destruct (Hev q) as [E | [[E _] | (Hin & _)]].
  - exists []. by rewrite app_nil_r, E.
  - congruence.
  - by apply HT.
Qed.

Lemma step_priors_appends (cwd : path) (s s' : filesystem) r o :
  InstallSh.step_priors cwd s = (r, s', o) → only_appended s s'.
Proof.
  intros Hrun. pose proof Hrun as Hev. apply step_priors_run in Hev as (Hev & _).
  apply (only_appended_evolves _ _ _ Hev). intros q c Hq Hc.
  apply list_elem_of_singleton in Hq as ->. exists []. rewrite app_nil_r.
  revert Hrun. unfold InstallSh.step_priors. unfold_prims.
  destruct (s !! InstallSh.priorsDir cwd) as [[c0|]|] eqn:HP; simpl.
  - rewrite (mkdirp_fails_on_file _ _ _ HP). simpl. by intros [= <- <- <-].
  - by intros [= <- <- <-].
  - destruct (mkdirp (InstallSh.priorsDir cwd) s) as [e|s1] eqn:Hm; simpl;
      [by intros [= <- <- <-]|].
    assert (s1 !! path_join (InstallSh.priorsDir cwd) [lit ".gitkeep"] = Some (File c))
      as HG.
    { apply mkdirp_spec in Hm as [_ Hfr].
      destruct (Hfr (path_join (InstallSh.priorsDir cwd) [lit ".gitkeep"]))
        as [E | (E & _)]; congruence. }
    rewrite HG. simpl. by intros [= <- <- <-].
Qed.

Lemma step_skill_appends (cwd : path) (s s' : filesystem) r o :
  InstallSh.step_skill cwd s = (r, s', o) → only_appended s s'.
Proof.
  intros Hrun. apply step_skill_run in Hrun as (Hev & _ & Hkeep & _).
  apply (only_appended_evolves _ _ _ Hev). intros q c Hq Hc.
  apply list_elem_of_singleton in Hq as ->. exists []. rewrite app_nil_r. by apply Hkeep.
Qed.

Lemma put_file_appends (p : path) (old new : jsstring) (s s' : filesystem) :
  put_file p new s = inr s' →
  (∀ c, s !! p = Some (File c) → ∃ c', new = c ++ c') →
  only_appended s s'.
Proof.
  intros Hput Hold. apply put_file_spec in Hput as (-> & Hnd & _). split.
  - intros q c Hc. destruct (decide (q = p)) as [->|Hne].
    + destruct (Hold c Hc) as [c' ->]. exists c'. by rewrite lookup_insert_eq.
    + exists []. by rewrite app_nil_r, lookup_insert_ne.
  - intros q Hq. rewrite lookup_insert_ne; [done|congruence].
Qed.

Lemma step_bootstrap_appends (cwd : path) (s s' : filesystem) r o :
  InstallSh.step_bootstrap cwd s = (r, s', o) → only_appended s s'.
Proof.
  rewrite step_bootstrap_eq.
  destruct (s !! path_join cwd [sh_instructionFile cwd s]) as [[e|]|] eqn:He.
  - destruct (InstallSh.bre_search _ e);
      [intros [= <- <- <-]; apply only_appended_refl|].
    destruct (put_file _ _ s) as [er|t] eqn:Hput; intros [= <- <- <-];
      [apply only_appended_refl|].
    apply (put_file_appends _ e _ _ _ Hput). intros c Hc.
    rewrite He in Hc. injection Hc as <-. eauto.
  - destruct (put_file _ _ s) as [er|t] eqn:Hput; intros [= <- <- <-];
      [apply only_appended_refl|].
    apply (put_file_appends _ [] _ _ _ Hput). intros c Hc. congruence.
  - destruct (put_file _ _ s) as [er|t] eqn:Hput; intros [= <- <- <-];
      [apply only_appended_refl|].
    apply (put_file_appends _ [] _ _ _ Hput). intros c Hc. congruence.
Qed.

Lemma step_gitignore_appends (cwd : path) (shared : bool) (s s' : filesystem) r o :
  InstallSh.step_gitignore cwd shared s = (r, s', o) → only_appended s s'.
Proof.
  rewrite step_gitignore_eq.
  destruct shared; [intros [= <- <- <-]; apply only_appended_refl|].
  destruct (s !! InstallSh.gitignore cwd) as [[e|]|] eqn:He.
  - destruct (InstallSh.bre_search _ e);
      [intros [= <- <- <-]; apply only_appended_refl|].
    destruct (put_file _ _ s) as [er|t] eqn:Hput; intros [= <- <- <-];
      [apply only_appended_refl|].
    apply (put_file_appends _ e _ _ _ Hput). intros c Hc.
    rewrite He in Hc. injection Hc as <-. eauto.
  - destruct (put_file _ _ s) as [er|t] eqn:Hput; intros [= <- <- <-];
      [apply only_appended_refl|].
    apply (put_file_appends _ [] _ _ _ Hput). intros c Hc. congruence.
  - destruct (put_file _ _ s) as [er|t] eqn:Hput; intros [= <- <- <-];
      [apply only_appended_refl|].
    apply (put_file_appends _ [] _ _ _ Hput). intros c Hc. congruence.
Qed.

(** X20. The script only ever adds: after a run, whatever its arguments
    and its outcome, every regular file that was there is still a regular
    file and its text starts with the text it had, and every directory is
    still a directory.  (The Node [init] does not have this property: it
    rewrites a differing [SKILL.md] and trims the end of the instruction
    file.) *)
Theorem install_only_appends (cwd : path) (args : list jsstring)
    (s s' : filesystem) (r : result unit) (o : list event) :
  InstallSh.install cwd args s = (r, s', o) →
  (∀ q c, s !! q = Some (File c) → ∃ c', s' !! q = Some (File (c ++ c')))
  ∧ (∀ q, s !! q = Some Dir → s' !! q = Some Dir).
Proof.
  intros Hrun. change (only_appended s s').
  apply install_inv in Hrun
    as [(-> & _)
       |(shared & o0 & Hp0 &
         [(o1 & H1 & Hr & ->)
         |[(s1 & o1 & o2 & H1 & H2 & Hr & ->)
         |[(s1 & o1 & s2 & o2 & o3 & H1 & H2 & H3 & Hr & ->)
         |(s1 & o1 & s2 & o2 & s3 & o3 & o4 & H1 & H2 & H3 & H4 & ->)]]])].
  - apply only_appended_refl.
  - by eapply step_priors_appends.
  - eapply only_appended_trans; [by eapply step_priors_appends|].
    by eapply step_skill_appends.
  - eapply only_appended_trans; [by eapply step_priors_appends|].
    eapply only_appended_trans; [by eapply step_skill_appends|].
    by eapply step_bootstrap_appends.
  - eapply only_appended_trans; [by eapply step_priors_appends|].
    eapply only_appended_trans; [by eapply step_skill_appends|].
    eapply only_appended_trans; [by eapply step_bootstrap_appends|].
    by eapply step_gitignore_appends.
Qed.

Lemma install_only_appends_witness :
  ∃ c', fs_of (InstallSh.install (Cli.cwd demo_proc) [] demo_notes) !! demo_claude
        = Some (File (demo_notes_text ++ c')).
Proof.
  destruct (InstallSh.install (Cli.cwd demo_proc) [] demo_notes) as [[r s'] o] eqn:Hrun.
  destruct (install_only_appends (Cli.cwd demo_proc) [] demo_notes s' r o Hrun) as [H _].
  apply (H demo_claude demo_notes_text). vm_compute. reflexivity.
Defined.

(** X21. A regular file in the place of the knowledge directory stops the
    script and not [init].  The script tests for a directory, finds none,
    and its [mkdir -p] fails: the run ends with status 1 before anything is
    changed.  [init] tests for existence only: its first step reports the
    knowledge directory as already there and goes on, leaving the file as
    it is. *)
Theorem knowledge_directory_taken (proc : Cli.process) (args : list jsstring)
    (s : filesystem) (c : jsstring) :
  s !! Cli.priorsDir proc = Some (File c) →
  lit "--help" ∉ args → lit "-h" ∉ args →
  (∃ o, InstallSh.install (Cli.cwd proc) args s = (Exit 1, s, o) ∧ read_only o)
  ∧ Cli.init_priors proc s
    = (Ok tt, s, [Stdout (lit "  .claude/priors/ already exists")]).
Proof.
  intros HP H1 H2. split.
  - unfold InstallSh.install. unfold bind at 1.
    rewrite (parse_args_options args false s H1 H2).
    assert (InstallSh.step_priors (Cli.cwd proc) s
            = (Exit 1, s, [Stderr (lit "mkdir: cannot create directory")])) as Hstep.
    { unfold InstallSh.step_priors. unfold_prims.
      change (InstallSh.priorsDir (Cli.cwd proc)) with (Cli.priorsDir proc).
      rewrite HP. simpl. by rewrite (mkdirp_fails_on_file _ _ _ HP). }
    unfold bind, InstallSh.echo, emit. rewrite Hstep. simpl.
    eexists. split; [reflexivity|]. intros e He. events_in He; by subst e.
  - apply init_priors_settled. by eexists.
Qed.

Lemma knowledge_directory_taken_witness :
  result_of (InstallSh.install (Cli.cwd demo_proc) [] demo_blocked) = Exit 1
  ∧ fs_of (InstallSh.install (Cli.cwd demo_proc) [] demo_blocked) = demo_blocked
  ∧ result_of (Cli.init_priors demo_proc demo_blocked) = Ok tt.
Proof.
  destruct (knowledge_directory_taken demo_proc [] demo_blocked []) as [(o & H1 & _) H2].
  - vm_compute. reflexivity.
  - apply not_elem_of_nil.
  - apply not_elem_of_nil.
  - rewrite H1, H2. split; [reflexivity|]. split; reflexivity.
Defined.

(** X22. In a project where neither [CLAUDE.md] nor [AGENTS.md] is a
    regular file, a completed run of the script creates [CLAUDE.md] with
    its bootstrap text as it is inlined, untrimmed: the file opens with an
    empty line, then the marker heading; and the run creates no
    [AGENTS.md]. *)
Theorem install_creates_instructions (cwd : path) (args : list jsstring)
    (s s' : filesystem) (o : list event) :
  is_file s (path_join cwd [lit "CLAUDE.md"]) = false →
  is_file s (path_join cwd [lit "AGENTS.md"]) = false →
  InstallSh.install cwd args s = (Ok tt, s', o) →
  s' !! path_join cwd [lit "CLAUDE.md"] = Some (File (InstallSh.BOOTSTRAP_TEXT ++ [NL]))
  ∧ (∃ rest, InstallSh.BOOTSTRAP_TEXT = [NL] ++ InstallSh.PRIORS_MARKER ++ [NL] ++ rest)
  ∧ s' !! path_join cwd [lit "AGENTS.md"] = s !! path_join cwd [lit "AGENTS.md"].
Proof.
  intros HC HA Hrun.
  assert (lit "CLAUDE.md" ∈ Cli.candidates) as Hc1 by apply list_elem_of_here.
  assert (lit "AGENTS.md" ∈ Cli.candidates) as Hc2
    by apply list_elem_of_further, list_elem_of_here.
  apply install_inv in Hrun
    as [(_ & ? & _)
       |(shared & o0 & Hp0 &
         [(o1 & H1 & Hr & ->)
         |[(s1 & o1 & o2 & H1 & H2 & Hr & ->)
         |[(s1 & o1 & s2 & o2 & o3 & H1 & H2 & H3 & Hr & ->)
         |(s1 & o1 & s2 & o2 & s3 & o3 & o4 & H1 & H2 & H3 & H4 & ->)]]])];
    try done.
  assert (∀ f, f ∈ Cli.candidates → s2 !! path_join cwd [f] = s !! path_join cwd [f])
    as Hsame.
  { intros f Hf.
    destruct (sh_steps_leave_candidate cwd f s s1 _ o1 Hf (or_introl H1)) as [E1 _].
    destruct (sh_steps_leave_candidate cwd f s1 s2 _ o2 Hf (or_intror (or_introl H2)))
      as [E2 _].
    by rewrite E2, E1. }
  assert (sh_instructionFile cwd s = lit "CLAUDE.md") as Hi.
  { unfold sh_instructionFile. by rewrite HC, HA. }
  rewrite step_bootstrap_eq in H3.
  rewrite (sh_instructionFile_same cwd s s2 Hsame), Hi in H3.
  rewrite (Hsame _ Hc1) in H3. unfold is_file in HC.
  assert (∃ t, put_file (path_join cwd [lit "CLAUDE.md"]) (InstallSh.BOOTSTRAP_TEXT ++ [NL]) s2
               = inr t ∧ s3 = t) as (t & Hput & ->).
  { destruct (s !! path_join cwd [lit "CLAUDE.md"]) as [[e|]|]; [done| |];
      (destruct (put_file _ _ s2) as [er|t] eqn:Hput; [done|]);
      injection H3 as <- _; eauto. }
  apply put_file_spec in Hput as (-> & _).
  destruct (sh_steps_leave_candidate cwd _ _ s' _ o4 Hc1
              (or_intror (or_intror (ex_intro _ shared H4)))) as [E1 _].
  destruct (sh_steps_leave_candidate cwd _ _ s' _ o4 Hc2
              (or_intror (or_intror (ex_intro _ shared H4)))) as [E2 _].
  split; [by rewrite E1, lookup_insert_eq|]. split.
  - eexists. vm_compute. reflexivity.
  - rewrite E2, lookup_insert_ne; [by apply Hsame|]. apply candidate_paths_apart.
Qed.

Lemma install_creates_instructions_witness :
  fs_of (InstallSh.install (Cli.cwd demo_proc) [] demo_base) !! demo_claude
  = Some (File (InstallSh.BOOTSTRAP_TEXT ++ [NL]))
  ∧ fs_of (InstallSh.install (Cli.cwd demo_proc) [] demo_base)
      !! path_join (Cli.cwd demo_proc) [lit "AGENTS.md"] = None.
Proof.
  destruct (InstallSh.install (Cli.cwd demo_proc) [] demo_base) as [[r s'] o] eqn:Hrun.
  assert (r = Ok tt) as ->.
  { assert (result_of (InstallSh.install (Cli.cwd demo_proc) [] demo_base) = Ok tt) as Hr
      by (vm_compute; reflexivity).
    rewrite Hrun in Hr. exact Hr. }
  destruct (install_creates_instructions (Cli.cwd demo_proc) [] demo_base s' o)
    as (H1 & _ & H2).
  - vm_compute. reflexivity.
  - vm_compute. reflexivity.
  - exact Hrun.
  - split; [exact H1|].
    change (s' !! path_join (Cli.cwd demo_proc) [lit "AGENTS.md"] = None).
    rewrite H2. vm_compute. reflexivity.
Defined.
